(** * concore: the concurrent deque, the spawn API and the rw_serializer

    A shallow embedding of
    - [concore/low_level/concurrent_dequeue.hpp] (the bounded fast ring and
      the deque built on it),
    - [concore/spawn.hpp] (the spawn and spawn-and-wait overloads),
    - the transition table of [rw_serializer],
    and the properties the specification states about them.

    Machine integers are [Z] with the wrap-around written out; the atomics are
    plain fields, every operation being one sequential transition of the
    object it works on. *)

From stdpp Require Import base tactics option numbers list relations.
From Stdlib Require Import ZArith Znumtheory Lia Ascii.

Local Open Scope Z_scope.

(** ** Machine integers *)

Module MachInt.

Definition uint16 (z : Z) : Z := z `mod` 65536.
(** [int] is 32 bit two's complement; arithmetic on [std::atomic<int>] and
    [static_cast<int>] wrap. *)
Definition int32 (z : Z) : Z := (z + 2147483648) `mod` 4294967296 - 2147483648.

End MachInt.
Import MachInt.

(** ** The packed [(start, end)] range

    [union fast_range { uint32_t int_value; struct { uint16_t start; uint16_t end; }; }]
    on a little-endian target: [start] is the low half of [int_value], [end]
    the high half. *)

Module FastRange.

Record fast_range := { int_value : Z }.

Definition start (r : fast_range) : Z := Z.land (int_value r) 65535.
Definition end_ (r : fast_range) : Z := Z.land (Z.shiftr (int_value r) 16) 65535.

Definition pack (s e : Z) : Z := Z.lor (uint16 s) (Z.shiftl (uint16 e) 16).

(** Assignment to one member of the union leaves the other half alone. *)
Definition set_start (r : fast_range) (s : Z) : fast_range :=
  {| int_value := pack s (end_ r) |}.
Definition set_end (r : fast_range) (e : Z) : fast_range :=
  {| int_value := pack (start r) e |}.

End FastRange.
Import FastRange.

(** ** The bounded deque (the fast ring) *)

Module BoundedDequeue.

(** [enum class item_state], and the [int] each enumerator casts to. *)
Inductive item_state := freed | constructing | valid | destructing.

Definition state_int (s : item_state) : Z :=
  match s with
  | freed => 0
  | constructing => 1
  | valid => 2
  | destructing => 3
  end.

(** [compare_exchange_strong(expected, desired)] on an atomic holding [obj]:
    the outcome, the new value of the atomic and the new value of [expected]
    (which receives the value read when the exchange fails).
    [compare_exchange_weak] is taken not to fail spuriously. *)
Definition compare_exchange (obj expected desired : Z) : bool * Z * Z :=
  if obj =? expected then (true, desired, expected) else (false, obj, obj).

(** The [while (true)] loop shared by the four index operations: give up when
    [full_or_empty old], else try to install [desired old]; on success the
    position yielded is [yield old (desired old)], on failure [old] has been
    reloaded by the exchange and the loop goes round again. *)
Fixpoint range_cas_loop (full_or_empty : fast_range -> bool)
    (desired : fast_range -> fast_range) (yield : fast_range -> fast_range -> Z)
    (fuel : nat) (obj : Z) (old : fast_range) (pos : Z) : option (bool * Z * Z) :=
  match fuel with
  | O => None
  | S fuel' =>
      if full_or_empty old then Some (false, pos, obj)
      else
        match compare_exchange obj (int_value old) (int_value (desired old)) with
        | (true, obj', _) => Some (true, yield old (desired old), obj')
        | (false, obj', old') =>
            range_cas_loop full_or_empty desired yield fuel' obj'
              {| int_value := old' |} pos
        end
  end.

(** The loop of [construct_in_fast] and [extract_from_fast]:
    [while (!state_.compare_exchange_strong(old, desired)) spinner.pause();]
    [old] is not reset between the rounds. Yields the state stored. *)
Fixpoint spin_exchange (fuel : nat) (obj old desired : Z) : option Z :=
  match fuel with
  | O => None
  | S fuel' =>
      match compare_exchange obj old desired with
      | (true, obj', _) => Some obj'
      | (false, obj', old') => spin_exchange fuel' obj' old' desired
      end
  end.

Section bounded_dequeue.

Context {T : Type}.
(** What a moved-from [T] holds, and what a default-initialised [T] holds. *)
Variable moved_from : T -> T.
Variable default_elem : T.

Record wrapped_elem := { state_ : Z; elem_ : T }.

Record bounded_dequeue := {
  size_ : Z;
  circular_buffer_ : list wrapped_elem;
  fast_range_ : Z
}.

Definition with_fast_range (d : bounded_dequeue) (v : Z) : bounded_dequeue :=
  {| size_ := size_ d; circular_buffer_ := circular_buffer_ d; fast_range_ := v |}.

Definition with_buffer (d : bounded_dequeue) (b : list wrapped_elem) : bounded_dequeue :=
  {| size_ := size_ d; circular_buffer_ := b; fast_range_ := fast_range_ d |}.

(** [bounded_dequeue(size_t size)] *)
Definition make (size : Z) : bounded_dequeue :=
  {| size_ := uint16 size;
     circular_buffer_ :=
       replicate (Z.to_nat size) {| state_ := 0; elem_ := default_elem |};
     fast_range_ := 0 |}.

Definition range (d : bounded_dequeue) : fast_range :=
  {| int_value := fast_range_ d |}.

(** The number of reserved positions, [uint16_t(end - start)]. *)
Definition occupancy (d : bounded_dequeue) : Z :=
  uint16 (end_ (range d) - start (range d)).

Definition max_dist (d : bounded_dequeue) : Z := uint16 (size_ d - 3).

Definition lift_range (d : bounded_dequeue) (r : option (bool * Z * Z))
  : option (bool * Z * bounded_dequeue) :=
  '(ok, pos, obj) ← r; Some (ok, pos, with_fast_range d obj).

Definition reserve_back (fuel : nat) (d : bounded_dequeue) (pos : Z)
  : option (bool * Z * bounded_dequeue) :=
  lift_range d
    (range_cas_loop
       (fun old => uint16 (end_ old - start old) >? max_dist d)
       (fun old => set_end old (end_ old + 1))
       (fun old _ => end_ old)
       fuel (fast_range_ d) (range d) pos).

Definition reserve_front (fuel : nat) (d : bounded_dequeue) (pos : Z)
  : option (bool * Z * bounded_dequeue) :=
  lift_range d
    (range_cas_loop
       (fun old => uint16 (end_ old - start old) >? max_dist d)
       (fun old => set_start old (start old - 1))
       (fun _ desired => start desired)
       fuel (fast_range_ d) (range d) pos).

Definition consume_front (fuel : nat) (d : bounded_dequeue) (pos : Z)
  : option (bool * Z * bounded_dequeue) :=
  lift_range d
    (range_cas_loop
       (fun old => start old =? end_ old)
       (fun old => set_start old (start old + 1))
       (fun old _ => start old)
       fuel (fast_range_ d) (range d) pos).

Definition consume_back (fuel : nat) (d : bounded_dequeue) (pos : Z)
  : option (bool * Z * bounded_dequeue) :=
  lift_range d
    (range_cas_loop
       (fun old => start old =? end_ old)
       (fun old => set_end old (end_ old - 1))
       (fun _ desired => end_ desired)
       fuel (fast_range_ d) (range d) pos).

(** [circular_buffer_[pos % size_]]: no result when [size_] is zero or the
    index is outside the vector. *)
Definition slot_index (d : bounded_dequeue) (pos : Z) : option nat :=
  if size_ d =? 0 then None
  else
    let i := Z.to_nat (pos `mod` size_ d) in
    if decide (i < length (circular_buffer_ d))%nat then Some i else None.

Definition construct_in_fast (fuel : nat) (d : bounded_dequeue) (pos : Z) (elem : T)
  : option bounded_dequeue :=
  i ← slot_index d pos;
  item ← circular_buffer_ d !! i;
  _ ← spin_exchange fuel (state_ item) (state_int freed) (state_int constructing);
  Some (with_buffer d
          (<[i := {| state_ := state_int valid; elem_ := elem |}]> (circular_buffer_ d))).

Definition extract_from_fast (fuel : nat) (d : bounded_dequeue) (pos : Z) (elem : T)
  : option (T * bounded_dequeue) :=
  i ← slot_index d pos;
  item ← circular_buffer_ d !! i;
  _ ← spin_exchange fuel (state_ item) (state_int valid) (state_int destructing);
  Some (elem_ item,
        with_buffer d
          (<[i := {| state_ := state_int freed; elem_ := moved_from (elem_ item) |}]>
             (circular_buffer_ d))).

(** The slot of position [pos] holds [elem], published as valid. *)
Definition slot_holds (d : bounded_dequeue) (pos : Z) (elem : T) : Prop :=
  exists i, slot_index d pos = Some i /\
    circular_buffer_ d !! i = Some {| state_ := state_int valid; elem_ := elem |}.

(** A ring as the constructor leaves it: [size_] is not zero and the vector
    has at least [size_] slots. *)
Definition ring_wf (d : bounded_dequeue) : Prop :=
  0 < size_ d /\ size_ d <= Z.of_nat (length (circular_buffer_ d)).

(** The slot of position [pos], for a [size_] that is not zero. *)
Definition slot_of (d : bounded_dequeue) (pos : Z) : nat :=
  Z.to_nat (pos `mod` size_ d).

(** The position [i] places after [start]. *)
Definition position (d : bounded_dequeue) (i : nat) : Z :=
  uint16 (start (range d) + Z.of_nat i).

(** The elements in the slots of the reserved positions, front to back. *)
Definition ring_elems (d : bounded_dequeue) : list T :=
  omap (fun i => elem_ <$> circular_buffer_ d !! slot_of d (position d i))
       (seq 0 (Z.to_nat (occupancy d))).

(** A ring whose [size_] divides [2^16] and that holds the elements [l],
    front to back, in the slots of its reserved positions. *)
Record ring_holds (d : bounded_dequeue) (l : list T) : Prop := {
  holds_wf : ring_wf d;
  holds_size : 3 <= size_ d < 65536;
  holds_divides : (size_ d | 65536);
  holds_room : occupancy d <= size_ d - 2;
  holds_length : Z.of_nat (length l) = occupancy d;
  holds_elems : forall (i : nat) x, l !! i = Some x ->
    elem_ <$> circular_buffer_ d !! slot_of d (position d i) = Some x
}.

(** The part of [unsafe_clear] that works on the ring. *)
Definition clear_fast (d : bounded_dequeue) : bounded_dequeue :=
  {| size_ := size_ d;
     circular_buffer_ :=
       (fun el => {| state_ := 0; elem_ := elem_ el |}) <$> circular_buffer_ d;
     fast_range_ := 0 |}.

(** One operation on the ring. *)
Inductive ring_step : bounded_dequeue -> bounded_dequeue -> Prop :=
  | step_reserve_back fuel d pos pos' d' :
      reserve_back fuel d pos = Some (true, pos', d') -> ring_step d d'
  | step_reserve_front fuel d pos pos' d' :
      reserve_front fuel d pos = Some (true, pos', d') -> ring_step d d'
  | step_consume_front fuel d pos pos' d' :
      consume_front fuel d pos = Some (true, pos', d') -> ring_step d d'
  | step_consume_back fuel d pos pos' d' :
      consume_back fuel d pos = Some (true, pos', d') -> ring_step d d'
  | step_construct fuel d pos elem d' :
      construct_in_fast fuel d pos elem = Some d' -> ring_step d d'
  | step_extract fuel d pos elem elem' d' :
      extract_from_fast fuel d pos elem = Some (elem', d') -> ring_step d d'
  | step_clear d :
      ring_step d (clear_fast d).

Definition ring_reachable (size : Z) (d : bounded_dequeue) : Prop :=
  rtc ring_step (make size) d.

End bounded_dequeue.

End BoundedDequeue.
Import BoundedDequeue.

(** ** The concurrent deque *)

Module ConcurrentDequeue.

Section concurrent_dequeue.

Context {T : Type}.
Variable moved_from : T -> T.
Variable default_elem : T.

(** [bottleneck_] is [true] while the mutex is held. *)
Record concurrent_dequeue := {
  fast_deque_ : @bounded_dequeue T;
  slow_access_elems_ : list T;
  bottleneck_ : bool;
  num_elements_slow_ : Z
}.

Definition with_fast (q : concurrent_dequeue) (d : bounded_dequeue) : concurrent_dequeue :=
  {| fast_deque_ := d;
     slow_access_elems_ := slow_access_elems_ q;
     bottleneck_ := bottleneck_ q;
     num_elements_slow_ := num_elements_slow_ q |}.

Definition with_slow (q : concurrent_dequeue) (l : list T) (n : Z) : concurrent_dequeue :=
  {| fast_deque_ := fast_deque_ q;
     slow_access_elems_ := l;
     bottleneck_ := bottleneck_ q;
     num_elements_slow_ := n |}.

Definition with_bottleneck (q : concurrent_dequeue) (held : bool) : concurrent_dequeue :=
  {| fast_deque_ := fast_deque_ q;
     slow_access_elems_ := slow_access_elems_ q;
     bottleneck_ := held;
     num_elements_slow_ := num_elements_slow_ q |}.

(** [std::lock_guard<std::mutex> lock{bottleneck_}]: with one thread, taking
    a mutex that is held never returns. *)
Definition lock (q : concurrent_dequeue) : option concurrent_dequeue :=
  if bottleneck_ q then None else Some (with_bottleneck q true).

Definition unlock (q : concurrent_dequeue) : concurrent_dequeue :=
  with_bottleneck q false.

(** [concurrent_dequeue(size_t expected_size)] *)
Definition make_dequeue (expected_size : Z) : concurrent_dequeue :=
  {| fast_deque_ := make default_elem expected_size;
     slow_access_elems_ := [];
     bottleneck_ := false;
     num_elements_slow_ := 0 |}.

Definition push_back (fuel : nat) (q : concurrent_dequeue) (elem : T)
  : option concurrent_dequeue :=
  '(ok, pos, d) ← reserve_back fuel (fast_deque_ q) 0;
  if ok : bool then
    d' ← construct_in_fast fuel d pos elem;
    Some (with_fast q d')
  else
    q1 ← lock (with_fast q d);
    let q2 := with_slow q1 (slow_access_elems_ q1) (int32 (num_elements_slow_ q1 + 1)) in
    let q3 := with_slow q2 (slow_access_elems_ q2 ++ [elem]) (num_elements_slow_ q2) in
    Some (unlock q3).

Definition push_front (fuel : nat) (q : concurrent_dequeue) (elem : T)
  : option concurrent_dequeue :=
  '(ok, pos, d) ← reserve_front fuel (fast_deque_ q) 0;
  if ok : bool then
    d' ← construct_in_fast fuel d pos elem;
    Some (with_fast q d')
  else
    q1 ← lock (with_fast q d);
    let q2 := with_slow q1 (slow_access_elems_ q1) (int32 (num_elements_slow_ q1 + 1)) in
    let q3 := with_slow q2 (elem :: slow_access_elems_ q2) (num_elements_slow_ q2) in
    Some (unlock q3).

(** The result is the boolean returned, the caller's [elem] afterwards and the
    deque afterwards. *)
Definition try_pop_front (fuel : nat) (q : concurrent_dequeue) (elem : T)
  : option (bool * T * concurrent_dequeue) :=
  '(ok, pos, d) ← consume_front fuel (fast_deque_ q) 0;
  if ok : bool then
    '(elem', d') ← extract_from_fast moved_from fuel d pos elem;
    Some (true, elem', with_fast q d')
  else if num_elements_slow_ q >? 0 then
    q1 ← lock (with_fast q d);
    match slow_access_elems_ q1 with
    | [] => Some (false, elem, unlock q1)
    | x :: rest =>
        let q2 := with_slow q1 (slow_access_elems_ q1) (int32 (num_elements_slow_ q1 - 1)) in
        let q3 := with_slow q2 rest (num_elements_slow_ q2) in
        Some (true, x, unlock q3)
    end
  else Some (false, elem, with_fast q d).

Definition try_pop_back (fuel : nat) (q : concurrent_dequeue) (elem : T)
  : option (bool * T * concurrent_dequeue) :=
  '(ok, pos, d) ← consume_back fuel (fast_deque_ q) 0;
  if ok : bool then
    '(elem', d') ← extract_from_fast moved_from fuel d pos elem;
    Some (true, elem', with_fast q d')
  else if num_elements_slow_ q >? 0 then
    q1 ← lock (with_fast q d);
    match last (slow_access_elems_ q1) with
    | None => Some (false, elem, unlock q1)
    | Some x =>
        let q2 := with_slow q1 (slow_access_elems_ q1) (int32 (num_elements_slow_ q1 - 1)) in
        let q3 := with_slow q2 (removelast (slow_access_elems_ q2)) (num_elements_slow_ q2) in
        Some (true, x, unlock q3)
    end
  else Some (false, elem, with_fast q d).

Definition unsafe_clear (q : concurrent_dequeue) : concurrent_dequeue :=
  {| fast_deque_ := clear_fast (fast_deque_ q);
     slow_access_elems_ := [];
     bottleneck_ := bottleneck_ q;
     num_elements_slow_ := 0 |}.

(** A deque between two calls of its interface: the ring is well formed and
    the mutex is free. *)
Definition dequeue_wf (q : concurrent_dequeue) : Prop :=
  ring_wf (fast_deque_ q) /\ bottleneck_ q = false.

(** The elements the deque holds. *)
Definition resident (q : concurrent_dequeue) : list T :=
  ring_elems (fast_deque_ q) ++ slow_access_elems_ q.

(** A call of the public interface, and what the caller sees of it. *)
Inductive call :=
  | PushBack (elem : T)
  | PushFront (elem : T)
  | TryPopFront
  | TryPopBack
  | UnsafeClear.

Inductive outcome :=
  | Pushed (elem : T)
  | Popped (elem : T)
  | Empty
  | Cleared.

Definition pop_outcome (r : bool * T * concurrent_dequeue) : outcome * concurrent_dequeue :=
  let '(ok, elem, q) := r in ((if ok then Popped elem else Empty), q).

(** Pops are given [default_elem] as the caller's variable. *)
Definition run_call (fuel : nat) (q : concurrent_dequeue) (c : call)
  : option (outcome * concurrent_dequeue) :=
  match c with
  | PushBack elem => q' ← push_back fuel q elem; Some (Pushed elem, q')
  | PushFront elem => q' ← push_front fuel q elem; Some (Pushed elem, q')
  | TryPopFront => pop_outcome <$> try_pop_front fuel q default_elem
  | TryPopBack => pop_outcome <$> try_pop_back fuel q default_elem
  | UnsafeClear => Some (Cleared, unsafe_clear q)
  end.

Fixpoint run_calls (fuel : nat) (q : concurrent_dequeue) (cs : list call)
  : option (list outcome * concurrent_dequeue) :=
  match cs with
  | [] => Some ([], q)
  | c :: cs' =>
      '(o, q') ← run_call fuel q c;
      '(os, q'') ← run_calls fuel q' cs';
      Some (o :: os, q'')
  end.

Definition pushed_elems (os : list outcome) : list T :=
  omap (fun o => match o with Pushed x => Some x | _ => None end) os.

Definition popped_elems (os : list outcome) : list T :=
  omap (fun o => match o with Popped x => Some x | _ => None end) os.

(** One call of the public interface takes [q] to [q']. *)
Definition dequeue_step (q q' : concurrent_dequeue) : Prop :=
  exists fuel c o, run_call fuel q c = Some (o, q').

Definition dequeue_reachable (expected_size : Z) (q : concurrent_dequeue) : Prop :=
  rtc dequeue_step (make_dequeue expected_size) q.

End concurrent_dequeue.

End ConcurrentDequeue.
Import ConcurrentDequeue.

(** ** The spawn API *)

Module Spawn.

Section spawn.

(** [task_function], the functor type of the initializer lists. *)
Context {task_function : Type}.

(** Modelled from the spec: [task_group] and [task] (task.hpp is not part of
    the sources at hand). A task group handle is empty or names a group; a
    group has an optional parent link, fixed by [task_group::create]; a task
    carries its thunk and a group handle. *)
Definition task_group := option nat.

Record task := { task_fn : task_function; task_grp : task_group }.

(** Modelled from the spec: [detail::task_system] (task_system.hpp is not part
    of the sources at hand), seen through the calls made on it. *)
Inductive tsys_call :=
  | Spawn (t : task) (wake_workers : bool)
  | EnterWorker
  | BusyWaitOn (grp : task_group)
  | ExitWorker.

(** What the spawn functions read and change: the groups created so far (the
    group [n] has parent [group_parents !! n]), the calling thread's current
    task group, and the calls received by the task system. *)
Record world := {
  group_parents : list task_group;
  current_task_group : task_group;
  tsys_calls : list tsys_call
}.

Definition tsys (c : tsys_call) (w : world) : world :=
  {| group_parents := group_parents w;
     current_task_group := current_task_group w;
     tsys_calls := tsys_calls w ++ [c] |}.

(** The world after the task system has received the calls [cs]. *)
Definition add_calls (w : world) (cs : list tsys_call) : world :=
  {| group_parents := group_parents w;
     current_task_group := current_task_group w;
     tsys_calls := tsys_calls w ++ cs |}.

(** [task_group::create(parent)] *)
Definition create (parent : task_group) (w : world) : task_group * world :=
  (Some (length (group_parents w)),
   {| group_parents := group_parents w ++ [parent];
      current_task_group := current_task_group w;
      tsys_calls := tsys_calls w |}).

Definition parent_of (w : world) (g : task_group) : option task_group :=
  n ← g; group_parents w !! n.

(** [spawn(task&& t, bool wake_workers)] *)
Definition spawn_task (t : task) (wake_workers : bool) (w : world) : world :=
  tsys (Spawn t wake_workers) w.

(** [spawn(F&& ftor, bool wake_workers)] *)
Definition spawn (ftor : task_function) (wake_workers : bool) (w : world) : world :=
  let grp := current_task_group w in
  tsys (Spawn {| task_fn := ftor; task_grp := grp |} wake_workers) w.

(** The [for] loop of [spawn(std::initializer_list<task_function>&&, bool)];
    [count-- > 0 || wake_workers] reads [count], then decrements it. *)
Fixpoint spawn_loop (grp : task_group) (wake_workers : bool) (count : Z)
    (ftors : list task_function) (w : world) : world :=
  match ftors with
  | [] => w
  | ftor :: rest =>
      let cur_wake_workers := (count >? 0) || wake_workers in
      let count := int32 (count - 1) in
      spawn_loop grp wake_workers count rest
        (tsys (Spawn {| task_fn := ftor; task_grp := grp |} cur_wake_workers) w)
  end.

(** [spawn(std::initializer_list<task_function>&& ftors, bool wake_workers)] *)
Definition spawn_list (ftors : list task_function) (wake_workers : bool) (w : world)
  : world :=
  let grp := current_task_group w in
  let count := int32 (Z.of_nat (length ftors)) in
  spawn_loop grp wake_workers count ftors w.

(** [spawn_and_wait(F&& ftor)] *)
Definition spawn_and_wait (ftor : task_function) (w : world) : world :=
  let w := tsys EnterWorker w in
  let '(grp, w) := create (current_task_group w) w in
  let w := tsys (Spawn {| task_fn := ftor; task_grp := grp |} false) w in
  let w := tsys (BusyWaitOn grp) w in
  tsys ExitWorker w.

(** The [for] loop of the initializer-list [spawn_and_wait]. *)
Fixpoint spawn_and_wait_loop (grp : task_group) (count : Z)
    (ftors : list task_function) (w : world) : world :=
  match ftors with
  | [] => w
  | ftor :: rest =>
      let cur_wake_workers := count >? 0 in
      let count := int32 (count - 1) in
      spawn_and_wait_loop grp count rest
        (tsys (Spawn {| task_fn := ftor; task_grp := grp |} cur_wake_workers) w)
  end.

(** [spawn_and_wait(std::initializer_list<task_function>&& ftors, bool wake_workers)] *)
Definition spawn_and_wait_list (ftors : list task_function) (wake_workers : bool)
    (w : world) : world :=
  let w := tsys EnterWorker w in
  let '(grp, w) := create (current_task_group w) w in
  let count := int32 (Z.of_nat (length ftors)) in
  let w := spawn_and_wait_loop grp count ftors w in
  let w := tsys (BusyWaitOn grp) w in
  tsys ExitWorker w.

(** The tasks handed to the task system, with the [wake_workers] of each. *)
Definition spawned (cs : list tsys_call) : list (task * bool) :=
  omap (fun c => match c with Spawn t wake => Some (t, wake) | _ => None end) cs.

(** The calls a function adds to those already received. *)
Definition new_calls (w w' : world) : list tsys_call :=
  drop (length (tsys_calls w)) (tsys_calls w').

End spawn.

End Spawn.

(** ** The reader-writer serializer *)

Module RWSerializer.

Inductive kind := READ | WRITE.

Inductive executor := base_executor | cont_executor.

#[global] Instance kind_eq_dec : EqDecision kind.
Proof. solve_decision. Defined.

Section rw_serializer.

Context {task : Type}.

(** Modelled from the spec: [rw_serializer::impl] (rw_serializer.cpp is not
    part of the sources at hand). The packed triple, the two waiting lists,
    and the tasks handed to the two executors, oldest first. [running] lists
    the tasks handed to an executor that have not completed. *)
Record state := {
  writers_pending : nat;
  writers_running : nat;
  readers_running : nat;
  pending_writes : list task;
  pending_reads : list task;
  submitted : list (executor * kind * task);
  running : list (kind * task)
}.

Definition init : state :=
  {| writers_pending := 0; writers_running := 0; readers_running := 0;
     pending_writes := []; pending_reads := [];
     submitted := []; running := [] |}.

(** Modelled from the spec: "if [pending_writes] non-empty, pop one,
    [writers_pending--], [writers_running = 1], submit to
    [continuation_executor]". *)
Definition start_next_writer (s : state) : state :=
  match pending_writes s with
  | [] => s
  | t :: rest =>
      {| writers_pending := writers_pending s - 1;
         writers_running := 1;
         readers_running := readers_running s;
         pending_writes := rest;
         pending_reads := pending_reads s;
         submitted := submitted s ++ [(cont_executor, WRITE, t)];
         running := running s ++ [(WRITE, t)] |}
  end.

(** Modelled from the spec: "drain all of them to [base_executor],
    incrementing [readers_running] by the count drained". *)
Definition drain_reads (s : state) : state :=
  {| writers_pending := writers_pending s;
     writers_running := writers_running s;
     readers_running := readers_running s + length (pending_reads s);
     pending_writes := pending_writes s;
     pending_reads := [];
     submitted := submitted s ++ ((fun t => (base_executor, READ, t)) <$> pending_reads s);
     running := running s ++ ((fun t => (READ, t)) <$> pending_reads s) |}.

(** Modelled from the spec: writer enqueue, [writer_type::operator()]. *)
Definition enqueue_write (t : task) (s : state) : state :=
  let s1 :=
    {| writers_pending := writers_pending s + 1;
       writers_running := writers_running s;
       readers_running := readers_running s;
       pending_writes := pending_writes s ++ [t];
       pending_reads := pending_reads s;
       submitted := submitted s;
       running := running s |} in
  if (writers_running s1 =? 0)%nat && (readers_running s1 =? 0)%nat
  then start_next_writer s1 else s1.

(** Modelled from the spec: reader enqueue, [reader_type::operator()]. *)
Definition enqueue_read (t : task) (s : state) : state :=
  if (writers_running s =? 0)%nat && (writers_pending s =? 0)%nat then
    {| writers_pending := writers_pending s;
       writers_running := writers_running s;
       readers_running := readers_running s + 1;
       pending_writes := pending_writes s;
       pending_reads := pending_reads s;
       submitted := submitted s ++ [(base_executor, READ, t)];
       running := running s ++ [(READ, t)] |}
  else
    {| writers_pending := writers_pending s;
       writers_running := writers_running s;
       readers_running := readers_running s;
       pending_writes := pending_writes s;
       pending_reads := pending_reads s ++ [t];
       submitted := submitted s;
       running := running s |}.

(** Removes the first occurrence of a running task. *)
Fixpoint finish `{EqDecision task} (k : kind) (t : task) (l : list (kind * task))
  : option (list (kind * task)) :=
  match l with
  | [] => None
  | (k', t') :: l' =>
      match k, k' with
      | READ, READ | WRITE, WRITE =>
          if decide (t = t') then Some l' else cons (k', t') <$> finish k t l'
      | _, _ => cons (k', t') <$> finish k t l'
      end
  end.

(** Modelled from the spec: writer completion. Only a running WRITE task can
    complete. *)
Definition write_done `{EqDecision task} (t : task) (s : state) : option state :=
  r ← finish WRITE t (running s);
  let s1 :=
    {| writers_pending := writers_pending s;
       writers_running := writers_running s - 1;
       readers_running := readers_running s;
       pending_writes := pending_writes s;
       pending_reads := pending_reads s;
       submitted := submitted s;
       running := r |} in
  match pending_writes s1 with
  | _ :: _ => Some (start_next_writer s1)
  | [] =>
      match pending_reads s1 with
      | _ :: _ => Some (drain_reads s1)
      | [] => Some s1
      end
  end.

(** Modelled from the spec: reader completion. Only a running READ task can
    complete. *)
Definition read_done `{EqDecision task} (t : task) (s : state) : option state :=
  r ← finish READ t (running s);
  let s1 :=
    {| writers_pending := writers_pending s;
       writers_running := writers_running s;
       readers_running := readers_running s - 1;
       pending_writes := pending_writes s;
       pending_reads := pending_reads s;
       submitted := submitted s;
       running := r |} in
  if (readers_running s1 =? 0)%nat then Some (start_next_writer s1) else Some s1.

(** What happens to a serializer: the two enqueues, and the completion of a
    task it handed to an executor. *)
Inductive event :=
  | EnqueueWrite (t : task)
  | EnqueueRead (t : task)
  | WriteDone (t : task)
  | ReadDone (t : task).

Definition step `{EqDecision task} (s : state) (e : event) : option state :=
  match e with
  | EnqueueWrite t => Some (enqueue_write t s)
  | EnqueueRead t => Some (enqueue_read t s)
  | WriteDone t => write_done t s
  | ReadDone t => read_done t s
  end.

Fixpoint run `{EqDecision task} (s : state) (es : list event) : option state :=
  match es with
  | [] => Some s
  | e :: es' => s' ← step s e; run s' es'
  end.

(** The WRITE tasks in the order of their enqueueing, and in the order in
    which they were handed to an executor. *)
Definition writes_enqueued (es : list event) : list task :=
  omap (fun e => match e with EnqueueWrite t => Some t | _ => None end) es.

Definition writes_started (s : state) : list task :=
  omap (fun x => match x with (_, WRITE, t) => Some t | _ => None end) (submitted s).

(** The tasks of kind [k] among those running. *)
Definition of_kind (k : kind) (l : list (kind * task)) : list task :=
  omap (fun x => match x, k with
                 | (READ, t), READ | (WRITE, t), WRITE => Some t
                 | _, _ => None
                 end) l.

Definition running_of (k : kind) (s : state) : list task := of_kind k (running s).

(** The counters count what they stand for, and a writer runs alone. *)
Record consistent (s : state) : Prop := {
  pending_counted : writers_pending s = length (pending_writes s);
  writers_counted : writers_running s = length (running_of WRITE s);
  readers_counted : readers_running s = length (running_of READ s);
  one_writer : (writers_running s <= 1)%nat;
  writer_alone : writers_running s = 1%nat -> readers_running s = 0%nat
}.

End rw_serializer.

End RWSerializer.

(** ** The platform header *)

Module Platform.

(** A macro is undefined, or defined to an integer. *)
Definition macro := option Z.

(** In the condition of an [#if] an identifier that is not defined is 0, and
    the condition holds when it is not 0. *)
Definition holds (m : macro) : bool :=
  match m with
  | None => false
  | Some v => negb (v =? 0)
  end.

(** The macros of the compiler that the header reads. *)
Record compiler := {
  __APPLE__ : macro;
  __linux__ : macro;
  __FreeBSD__ : macro;
  __NetBSD__ : macro;
  __OpenBSD__ : macro;
  _MSC_VER : macro;
  __MINGW64__ : macro;
  __MINGW32__ : macro;
  __cplusplus : Z
}.

(** The macros the header reads and defines, as the command line or the file
    named by [CONCORE_PLATFORM_INCLUDE] left them. [CONCORE_PLATFORM] is a
    function-like macro: it is defined or it is not. *)
Record config := {
  CONCORE_PLATFORM : bool;
  CONCORE_PLATFORM_APPLE : macro;
  CONCORE_PLATFORM_LINUX : macro;
  CONCORE_PLATFORM_WINDOWS : macro;
  CONCORE_PLATFORM_UNKNOWN : macro;
  CONCORE_CPP_VERSION : macro;
  CONCORE_USE_PTHREADS : macro;
  CONCORE_USE_LIBDISPATCH : macro
}.

(** Nothing given on the command line. *)
Definition nothing_given : config :=
  {| CONCORE_PLATFORM := false;
     CONCORE_PLATFORM_APPLE := None; CONCORE_PLATFORM_LINUX := None;
     CONCORE_PLATFORM_WINDOWS := None; CONCORE_PLATFORM_UNKNOWN := None;
     CONCORE_CPP_VERSION := None;
     CONCORE_USE_PTHREADS := None; CONCORE_USE_LIBDISPATCH := None |}.

(** [#define M v]: a macro may be defined again only to what it is defined
    to; no result stands for a translation unit that is ill-formed. *)
Definition define (m : macro) (v : Z) : option macro :=
  match m with
  | None => Some (Some v)
  | Some v' => if v' =? v then Some (Some v) else None
  end.

(** [#ifndef CONCORE_PLATFORM ... #endif] *)
Definition detect_platform (cc : compiler) (c : config) : option config :=
  if CONCORE_PLATFORM c then Some c
  else
    c1 ←
      (if holds (__APPLE__ cc) then
         m ← define (CONCORE_PLATFORM_APPLE c) 1;
         Some {| CONCORE_PLATFORM := CONCORE_PLATFORM c;
                 CONCORE_PLATFORM_APPLE := m;
                 CONCORE_PLATFORM_LINUX := CONCORE_PLATFORM_LINUX c;
                 CONCORE_PLATFORM_WINDOWS := CONCORE_PLATFORM_WINDOWS c;
                 CONCORE_PLATFORM_UNKNOWN := CONCORE_PLATFORM_UNKNOWN c;
                 CONCORE_CPP_VERSION := CONCORE_CPP_VERSION c;
                 CONCORE_USE_PTHREADS := CONCORE_USE_PTHREADS c;
                 CONCORE_USE_LIBDISPATCH := CONCORE_USE_LIBDISPATCH c |}
       else if holds (__linux__ cc) || holds (__FreeBSD__ cc)
               || holds (__NetBSD__ cc) || holds (__OpenBSD__ cc) then
         m ← define (CONCORE_PLATFORM_LINUX c) 1;
         Some {| CONCORE_PLATFORM := CONCORE_PLATFORM c;
                 CONCORE_PLATFORM_APPLE := CONCORE_PLATFORM_APPLE c;
                 CONCORE_PLATFORM_LINUX := m;
                 CONCORE_PLATFORM_WINDOWS := CONCORE_PLATFORM_WINDOWS c;
                 CONCORE_PLATFORM_UNKNOWN := CONCORE_PLATFORM_UNKNOWN c;
                 CONCORE_CPP_VERSION := CONCORE_CPP_VERSION c;
                 CONCORE_USE_PTHREADS := CONCORE_USE_PTHREADS c;
                 CONCORE_USE_LIBDISPATCH := CONCORE_USE_LIBDISPATCH c |}
       else if holds (_MSC_VER cc) && holds (__MINGW64__ cc) || holds (__MINGW32__ cc) then
         m ← define (CONCORE_PLATFORM_WINDOWS c) 1;
         Some {| CONCORE_PLATFORM := CONCORE_PLATFORM c;
                 CONCORE_PLATFORM_APPLE := CONCORE_PLATFORM_APPLE c;
                 CONCORE_PLATFORM_LINUX := CONCORE_PLATFORM_LINUX c;
                 CONCORE_PLATFORM_WINDOWS := m;
                 CONCORE_PLATFORM_UNKNOWN := CONCORE_PLATFORM_UNKNOWN c;
                 CONCORE_CPP_VERSION := CONCORE_CPP_VERSION c;
                 CONCORE_USE_PTHREADS := CONCORE_USE_PTHREADS c;
                 CONCORE_USE_LIBDISPATCH := CONCORE_USE_LIBDISPATCH c |}
       else
         m ← define (CONCORE_PLATFORM_UNKNOWN c) 1;
         Some {| CONCORE_PLATFORM := CONCORE_PLATFORM c;
                 CONCORE_PLATFORM_APPLE := CONCORE_PLATFORM_APPLE c;
                 CONCORE_PLATFORM_LINUX := CONCORE_PLATFORM_LINUX c;
                 CONCORE_PLATFORM_WINDOWS := CONCORE_PLATFORM_WINDOWS c;
                 CONCORE_PLATFORM_UNKNOWN := m;
                 CONCORE_CPP_VERSION := CONCORE_CPP_VERSION c;
                 CONCORE_USE_PTHREADS := CONCORE_USE_PTHREADS c;
                 CONCORE_USE_LIBDISPATCH := CONCORE_USE_LIBDISPATCH c |});
    (* #define CONCORE_PLATFORM(X) (CONCORE_PLATFORM_##X) *)
    Some {| CONCORE_PLATFORM := true;
            CONCORE_PLATFORM_APPLE := CONCORE_PLATFORM_APPLE c1;
            CONCORE_PLATFORM_LINUX := CONCORE_PLATFORM_LINUX c1;
            CONCORE_PLATFORM_WINDOWS := CONCORE_PLATFORM_WINDOWS c1;
            CONCORE_PLATFORM_UNKNOWN := CONCORE_PLATFORM_UNKNOWN c1;
            CONCORE_CPP_VERSION := CONCORE_CPP_VERSION c1;
            CONCORE_USE_PTHREADS := CONCORE_USE_PTHREADS c1;
            CONCORE_USE_LIBDISPATCH := CONCORE_USE_LIBDISPATCH c1 |}.

(** The value [CONCORE_CPP_VERSION] is defined to. *)
Definition cpp_version (cplusplus : Z) : Z :=
  if cplusplus =? 201103 then 11
  else if cplusplus =? 201402 then 14
  else if cplusplus =? 201703 then 17
  else 20.

(** [#ifndef CONCORE_CPP_VERSION ... #endif]: the version, and inside the same
    block the choice of the threading library. *)
Definition detect_cpp_version (cc : compiler) (c : config) : option config :=
  match CONCORE_CPP_VERSION c with
  | Some _ => Some c
  | None =>
      let version := Some (cpp_version (__cplusplus cc)) in
      pthreads ←
        (if negb (holds (CONCORE_USE_PTHREADS c)) && holds (CONCORE_PLATFORM_LINUX c)
         then define (CONCORE_USE_PTHREADS c) 1
         else Some (CONCORE_USE_PTHREADS c));
      libdispatch ←
        (if negb (holds pthreads) && holds (CONCORE_PLATFORM_APPLE c)
         then define (CONCORE_USE_LIBDISPATCH c) 1
         else Some (CONCORE_USE_LIBDISPATCH c));
      Some {| CONCORE_PLATFORM := CONCORE_PLATFORM c;
              CONCORE_PLATFORM_APPLE := CONCORE_PLATFORM_APPLE c;
              CONCORE_PLATFORM_LINUX := CONCORE_PLATFORM_LINUX c;
              CONCORE_PLATFORM_WINDOWS := CONCORE_PLATFORM_WINDOWS c;
              CONCORE_PLATFORM_UNKNOWN := CONCORE_PLATFORM_UNKNOWN c;
              CONCORE_CPP_VERSION := version;
              CONCORE_USE_PTHREADS := pthreads;
              CONCORE_USE_LIBDISPATCH := libdispatch |}
  end.

(** The header, after the file named by [CONCORE_PLATFORM_INCLUDE] (if any)
    has been included. *)
Definition platform_hpp (cc : compiler) (c : config) : option config :=
  c1 ← detect_platform cc c; detect_cpp_version cc c1.

(** The platform flags that are defined. *)
Definition platform_flags (c : config) : list macro :=
  filter is_Some
    [CONCORE_PLATFORM_APPLE c; CONCORE_PLATFORM_LINUX c;
     CONCORE_PLATFORM_WINDOWS c; CONCORE_PLATFORM_UNKNOWN c].

End Platform.

(** ** The test data of the reduce benchmark *)

Module PerfData.

Section perf_data.

(** The values [rand()] returns after [srand(0)], in the order of the calls;
    each is between 0 and [RAND_MAX]. The state of the generator is the
    number of calls made since it was seeded. *)
Variable rand_value : nat -> Z.

Definition rand (calls : nat) : Z * nat := (rand_value calls, S calls).

(** [int rand_small_int() { return rand() % (200) - 100; }] *)
Definition rand_small_int (calls : nat) : Z * nat :=
  let '(r, calls) := rand calls in (Z.rem r 200 - 100, calls).

(** [static_cast<char>] of an [int]. *)
Definition char_of_int (z : Z) : ascii := ascii_of_N (Z.to_N (z `mod` 256)).

(** [rand_char], with [num = 'z' - 'a']. *)
Definition rand_char (calls : nat) : ascii * nat :=
  let num := 122 - 97 in
  let '(r, calls) := rand calls in (char_of_int (97 + Z.rem r num), calls).

(** [std::generate] over [count] elements: [gen] is called once for each, in
    order. *)
Fixpoint generate {A : Type} (gen : nat -> A * nat) (count : nat) (calls : nat)
  : list A * nat :=
  match count with
  | O => ([], calls)
  | S count' =>
      let '(x, calls) := gen calls in
      let '(rest, calls) := generate gen count' calls in
      (x :: rest, calls)
  end.

(** [rand_string]: a string of [rand() % 100] characters. *)
Definition rand_string (calls : nat) : list ascii * nat :=
  let '(r, calls) := rand calls in
  let size := Z.rem r 100 in
  generate rand_char (Z.to_nat size) calls.

(** [generate_test_data(int size)]: [srand(0)], then [size] small integers.
    A vector cannot be constructed with a negative [size]. *)
Definition generate_test_data (size : Z) : option (list Z) :=
  if size <? 0 then None
  else Some (fst (generate rand_small_int (Z.to_nat size) 0)).

(** [generate_string_test_data(int size)] *)
Definition generate_string_test_data (size : Z) : option (list (list ascii)) :=
  if size <? 0 then None
  else Some (fst (generate rand_string (Z.to_nat size) 0)).

(** [int64_t]: 64 bit two's complement. *)
Definition int64 (z : Z) : Z :=
  (z + 9223372036854775808) `mod` 18446744073709551616 - 9223372036854775808.

(** [std::accumulate(data.begin(), data.end(), int64_t(0))] *)
Definition accumulate (data : list Z) : Z :=
  foldl (fun acc x => int64 (acc + x)) 0 data.

End perf_data.

End PerfData.

(** ** The reader-writer serializer: READ tasks *)

Module RWReads.

Import RWSerializer.

Section rw_reads.

Context {task : Type}.

(** The READ tasks in the order of their enqueueing, and in the order in
    which they were handed to an executor. *)
Definition reads_enqueued (es : list (@event task)) : list task :=
  omap (fun e => match e with EnqueueRead t => Some t | _ => None end) es.

Definition reads_started (s : @state task) : list task :=
  omap (fun x => match x with (_, READ, t) => Some t | _ => None end) (submitted s).

(** Nothing waits without a reason: a task waits only while another one of
    the serializer runs, and a READ task waits only for a WRITE task that
    runs or waits. *)
Record waits_for_cause (s : @state task) : Prop := {
  something_runs :
    (0 < writers_pending s)%nat \/ pending_reads s <> [] ->
    writers_running s = 1%nat \/ (0 < readers_running s)%nat;
  reads_wait_for_writes :
    pending_reads s <> [] ->
    writers_running s = 1%nat \/ (0 < writers_pending s)%nat
}.

End rw_reads.

End RWReads.
(** ** Facts about the machine integers and the packed range *)

Lemma uint16_range z : 0 <= uint16 z < 65536.
Proof. unfold uint16. apply Z.mod_pos_bound. lia. Qed.

Lemma uint16_small z : 0 <= z < 65536 -> uint16 z = z.
Proof. intros. unfold uint16. apply Z.mod_small. lia. Qed.

Lemma int32_small z : -2147483648 <= z < 2147483648 -> int32 z = z.
Proof. intros. unfold int32. rewrite Z.mod_small; lia. Qed.

Lemma int32_int32_succ z : int32 (int32 z + 1) = int32 (z + 1).
Proof.
  unfold int32. f_equal.
  replace ((z + 2147483648) `mod` 4294967296 - 2147483648 + 1 + 2147483648)
    with ((z + 2147483648) `mod` 4294967296 + 1) by lia.
  rewrite Z.add_mod_idemp_l by lia. f_equal. lia.
Qed.

Lemma int32_int32_pred z : int32 (int32 z - 1) = int32 (z - 1).
Proof.
  unfold int32. f_equal.
  replace ((z + 2147483648) `mod` 4294967296 - 2147483648 - 1 + 2147483648)
    with ((z + 2147483648) `mod` 4294967296 + (-1)) by lia.
  rewrite Z.add_mod_idemp_l by lia. f_equal. lia.
Qed.

Lemma pack_sum s e : pack s e = uint16 s + 65536 * uint16 e.
Proof.
  unfold pack.
  pose proof (uint16_range s) as Hs. pose proof (uint16_range e) as He.
  rewrite Z.shiftl_mul_pow2 by lia.
  assert (Hd : Z.land (uint16 s) (uint16 e * 2 ^ 16) = 0).
  { apply Z.bits_inj'. intros n Hn. rewrite Z.land_spec, Z.bits_0.
    destruct (Z.lt_ge_cases n 16).
    - rewrite Z.mul_pow2_bits_low by lia. apply andb_false_r.
    - destruct (Z.eq_dec (uint16 s) 0) as [->|Hne].
      + rewrite Z.bits_0. reflexivity.
      + rewrite (Z.bits_above_log2 (uint16 s)); [reflexivity | lia |].
        apply Z.lt_le_trans with 16; [|lia].
        apply Z.log2_lt_pow2; [lia|]. change (2 ^ 16) with 65536. lia. }
  rewrite <- (Z.lxor_lor _ _ Hd), <- (Z.add_nocarry_lxor _ _ Hd).
  change (2 ^ 16) with 65536. lia.
Qed.

Lemma start_pack s e : start {| int_value := pack s e |} = uint16 s.
Proof.
  unfold start; simpl. rewrite pack_sum.
  change 65535 with (Z.ones 16). rewrite Z.land_ones by lia.
  change (2 ^ 16) with 65536.
  pose proof (uint16_range s).
  replace (uint16 s + 65536 * uint16 e) with (uint16 s + uint16 e * 65536) by lia.
  rewrite Z.mod_add by lia. apply Z.mod_small. lia.
Qed.

Lemma end_pack s e : end_ {| int_value := pack s e |} = uint16 e.
Proof.
  unfold end_; simpl. rewrite pack_sum.
  rewrite Z.shiftr_div_pow2 by lia.
  change 65535 with (Z.ones 16). rewrite Z.land_ones by lia.
  change (2 ^ 16) with 65536.
  pose proof (uint16_range s). pose proof (uint16_range e).
  replace (uint16 s + 65536 * uint16 e) with (uint16 s + uint16 e * 65536) by lia.
  rewrite Z.div_add by lia.
  rewrite (Z.div_small (uint16 s)) by lia.
  rewrite Z.add_0_l. apply Z.mod_small. lia.
Qed.

Lemma start_range r : 0 <= start r < 65536.
Proof.
  unfold start. change 65535 with (Z.ones 16). rewrite Z.land_ones by lia.
  apply Z.mod_pos_bound. lia.
Qed.

Lemma end_range r : 0 <= end_ r < 65536.
Proof.
  unfold end_. change 65535 with (Z.ones 16). rewrite Z.land_ones by lia.
  apply Z.mod_pos_bound. lia.
Qed.

(** Sixteen-bit differences. *)

Lemma occupancy_inc_end s e : uint16 (uint16 (e + 1) - s) = uint16 (uint16 (e - s) + 1).
Proof. unfold uint16. Z.div_mod_to_equations. lia. Qed.

Lemma occupancy_dec_start s e : uint16 (e - uint16 (s - 1)) = uint16 (uint16 (e - s) + 1).
Proof. unfold uint16. Z.div_mod_to_equations. lia. Qed.

Lemma occupancy_inc_start s e : uint16 (e - uint16 (s + 1)) = uint16 (uint16 (e - s) - 1).
Proof. unfold uint16. Z.div_mod_to_equations. lia. Qed.

Lemma occupancy_dec_end s e : uint16 (uint16 (e - 1) - s) = uint16 (uint16 (e - s) - 1).
Proof. unfold uint16. Z.div_mod_to_equations. lia. Qed.

Lemma occupancy_nonempty s e :
  0 <= s < 65536 -> 0 <= e < 65536 -> s <> e -> 1 <= uint16 (e - s) < 65536.
Proof. intros. unfold uint16. Z.div_mod_to_equations. lia. Qed.

(** ** Facts about the fast ring *)

Section ring_facts.

Context {T : Type}.
Variable moved_from : T -> T.
Variable default_elem : T.

Implicit Types d : @bounded_dequeue T.

Lemma with_fast_range_same d : with_fast_range d (fast_range_ d) = d.
Proof. destruct d; reflexivity. Qed.

(** With nobody else writing the atomic, the first exchange succeeds. *)
Lemma range_cas_loop_first full_or_empty desired yield fuel obj pos :
  range_cas_loop full_or_empty desired yield (S fuel) obj {| int_value := obj |} pos =
  let old := {| int_value := obj |} in
  if full_or_empty old then Some (false, pos, obj)
  else Some (true, yield old (desired old), int_value (desired old)).
Proof.
  simpl. destruct (full_or_empty _); [reflexivity|].
  unfold compare_exchange. rewrite Z.eqb_refl. reflexivity.
Qed.

Lemma max_dist_no_wrap d : 3 <= size_ d < 65536 -> max_dist d = size_ d - 3.
Proof. intros. unfold max_dist. apply uint16_small. lia. Qed.

Lemma occupancy_range d : 0 <= occupancy d < 65536.
Proof. apply uint16_range. Qed.

(** What the four index operations do to a ring that no other thread
    touches. *)
Lemma reserve_back_seq fuel d pos :
  reserve_back (S fuel) d pos =
  Some (if occupancy d >? max_dist d then (false, pos, d)
        else (true, end_ (range d),
              with_fast_range d (pack (start (range d)) (end_ (range d) + 1)))).
Proof.
  unfold reserve_back. rewrite range_cas_loop_first. cbv zeta.
  fold (range d). fold (occupancy d).
  destruct (occupancy d >? max_dist d); simpl;
    [rewrite with_fast_range_same|]; reflexivity.
Qed.

Lemma reserve_front_seq fuel d pos :
  reserve_front (S fuel) d pos =
  Some (if occupancy d >? max_dist d then (false, pos, d)
        else (true, uint16 (start (range d) - 1),
              with_fast_range d (pack (start (range d) - 1) (end_ (range d))))).
Proof.
  unfold reserve_front. rewrite range_cas_loop_first. cbv zeta.
  fold (range d). fold (occupancy d).
  destruct (occupancy d >? max_dist d); simpl;
    [rewrite with_fast_range_same; reflexivity|].
  unfold set_start. rewrite start_pack. reflexivity.
Qed.

Lemma consume_front_seq fuel d pos :
  consume_front (S fuel) d pos =
  Some (if start (range d) =? end_ (range d) then (false, pos, d)
        else (true, start (range d),
              with_fast_range d (pack (start (range d) + 1) (end_ (range d))))).
Proof.
  unfold consume_front. rewrite range_cas_loop_first. cbv zeta.
  fold (range d).
  destruct (start (range d) =? end_ (range d)); simpl;
    [rewrite with_fast_range_same|]; reflexivity.
Qed.

Lemma consume_back_seq fuel d pos :
  consume_back (S fuel) d pos =
  Some (if start (range d) =? end_ (range d) then (false, pos, d)
        else (true, uint16 (end_ (range d) - 1),
              with_fast_range d (pack (start (range d)) (end_ (range d) - 1)))).
Proof.
  unfold consume_back. rewrite range_cas_loop_first. cbv zeta.
  fold (range d).
  destruct (start (range d) =? end_ (range d)); simpl;
    [rewrite with_fast_range_same; reflexivity|].
  unfold set_end. rewrite end_pack. reflexivity.
Qed.

Lemma range_with_fast_range d v : range (with_fast_range d v) = {| int_value := v |}.
Proof. reflexivity. Qed.

Lemma occupancy_pack d s e :
  occupancy (with_fast_range d (pack s e)) = uint16 (uint16 e - uint16 s).
Proof. unfold occupancy. rewrite range_with_fast_range, start_pack, end_pack. reflexivity. Qed.

End ring_facts.

(** ** Properties of the fast ring *)

Section ring_claims.

Context {T : Type}.
Variable moved_from : T -> T.
Variable default_elem : T.

Implicit Types d : @bounded_dequeue T.

Lemma ring_step_occupancy d d' :
  3 <= size_ d < 65536 ->
  occupancy d <= size_ d - 2 ->
  ring_step moved_from d d' ->
  size_ d' = size_ d /\ occupancy d' <= size_ d' - 2.
Proof.
  intros Hsize Hocc Hstep.
  pose proof (max_dist_no_wrap d Hsize) as Hmax.
  pose proof (start_range (range d)) as Hs.
  pose proof (end_range (range d)) as He.
  pose proof (occupancy_range d) as Ho.
  destruct Hstep as [fuel d pos pos' d' H|fuel d pos pos' d' H|fuel d pos pos' d' H
                    |fuel d pos pos' d' H|fuel d pos elem d' H
                    |fuel d pos elem elem' d' H|d].
  - destruct fuel as [|fuel]; [discriminate|].
    rewrite reserve_back_seq in H.
    destruct (occupancy d >? max_dist d) eqn:Hfull; [discriminate|].
    injection H as _ <-. split; [reflexivity|].
    rewrite occupancy_pack; simpl.
    rewrite (uint16_small (start (range d))) by lia.
    rewrite occupancy_inc_end. fold (occupancy d).
    rewrite uint16_small; lia.
  - destruct fuel as [|fuel]; [discriminate|].
    rewrite reserve_front_seq in H.
    destruct (occupancy d >? max_dist d) eqn:Hfull; [discriminate|].
    injection H as _ <-. split; [reflexivity|].
    rewrite occupancy_pack; simpl.
    rewrite (uint16_small (end_ (range d))) by lia.
    rewrite occupancy_dec_start. fold (occupancy d).
    rewrite uint16_small; lia.
  - destruct fuel as [|fuel]; [discriminate|].
    rewrite consume_front_seq in H.
    destruct (start (range d) =? end_ (range d)) eqn:Hempty; [discriminate|].
    injection H as _ <-. split; [reflexivity|].
    apply Z.eqb_neq in Hempty.
    pose proof (occupancy_nonempty _ _ Hs He Hempty).
    rewrite occupancy_pack; simpl.
    rewrite (uint16_small (end_ (range d))) by lia.
    rewrite occupancy_inc_start. fold (occupancy d). unfold occupancy in *.
    rewrite uint16_small; lia.
  - destruct fuel as [|fuel]; [discriminate|].
    rewrite consume_back_seq in H.
    destruct (start (range d) =? end_ (range d)) eqn:Hempty; [discriminate|].
    injection H as _ <-. split; [reflexivity|].
    apply Z.eqb_neq in Hempty.
    pose proof (occupancy_nonempty _ _ Hs He Hempty).
    rewrite occupancy_pack; simpl.
    rewrite (uint16_small (start (range d))) by lia.
    rewrite occupancy_dec_end. fold (occupancy d). unfold occupancy in *.
    rewrite uint16_small; lia.
  - unfold construct_in_fast in H.
    destruct (slot_index d pos) as [i|]; [|discriminate]. simpl in H.
    destruct (circular_buffer_ d !! i) as [item|]; [|discriminate]. simpl in H.
    destruct (spin_exchange _ _ _ _); [|discriminate]. simpl in H.
    injection H as <-. split; [reflexivity|exact Hocc].
  - unfold extract_from_fast in H.
    destruct (slot_index d pos) as [i|]; [|discriminate]. simpl in H.
    destruct (circular_buffer_ d !! i) as [item|]; [|discriminate]. simpl in H.
    destruct (spin_exchange _ _ _ _); [|discriminate]. simpl in H.
    injection H as _ <-. split; [reflexivity|exact Hocc].
  - split; [reflexivity|].
    replace (occupancy (clear_fast d)) with 0 by reflexivity. simpl. lia.
Qed.

(** C2, with [size - 2] as the bound: in every state of the fast ring reachable from its
    construction with [size] slots ([3 <= size], as a 16-bit number), at most
    [size - 2] positions are reserved; a reservation falls back to the slow
    path exactly when more than [size - 3] are, so a ring holding [size - 3]
    elements accepts one more and a ring holding [size - 2] accepts none. *)
Theorem ring_occupancy_bound (size : Z) d :
  3 <= uint16 size ->
  ring_reachable moved_from default_elem size d ->
  size_ d = uint16 size /\
  occupancy d <= size_ d - 2 /\
  (forall fuel pos, (0 < fuel)%nat ->
     (occupancy d = size_ d - 2 ->
        reserve_back fuel d pos = Some (false, pos, d) /\
        reserve_front fuel d pos = Some (false, pos, d)) /\
     (occupancy d <= size_ d - 3 ->
        exists pb pf db df,
          reserve_back fuel d pos = Some (true, pb, db) /\
          reserve_front fuel d pos = Some (true, pf, df) /\
          occupancy db = occupancy d + 1 /\ occupancy df = occupancy d + 1)).
Proof.
  intros Hsize Hreach.
  pose proof (uint16_range size) as Hr.
  assert (Hinv : size_ d = uint16 size /\ occupancy d <= size_ d - 2).
  { unfold ring_reachable in Hreach. revert d Hreach.
    apply (rtc_ind_r (fun d => size_ d = uint16 size /\ occupancy d <= size_ d - 2)).
    - split; [reflexivity|].
      replace (occupancy (make default_elem size)) with 0 by reflexivity.
      simpl. lia.
    - intros d1 d2 Hrtc Hstep [IH1 IH2].
      destruct (ring_step_occupancy d1 d2) as [E1 E2]; [lia|exact IH2|exact Hstep|].
      split; [congruence|exact E2]. }
  destruct Hinv as [Hsz Hocc]. split; [exact Hsz|]. split; [exact Hocc|].
  intros fuel pos Hfuel. destruct fuel as [|fuel]; [lia|].
  pose proof (max_dist_no_wrap d ltac:(lia)) as Hmax.
  pose proof (start_range (range d)) as Hs.
  pose proof (end_range (range d)) as He.
  pose proof (occupancy_range d) as Ho.
  rewrite reserve_back_seq, reserve_front_seq. split.
  - intros Hfull. destruct (Z.gtb_spec (occupancy d) (max_dist d)); [|lia].
    split; reflexivity.
  - intros Hroom. destruct (Z.gtb_spec (occupancy d) (max_dist d)); [lia|].
    eexists _, _, _, _. split; [reflexivity|]. split; [reflexivity|].
    rewrite !occupancy_pack.
    rewrite (uint16_small (start (range d))), (uint16_small (end_ (range d))) by lia.
    rewrite occupancy_inc_end, occupancy_dec_start. fold (occupancy d).
    rewrite uint16_small; lia.
Qed.

(** C3: on a ring of [size_] slots ([3 <= size_]) that no other thread
    touches, [reserve_back] fails exactly when [uint16_t(end - start)] exceeds
    [size_ - 3], and otherwise stores [(start, end + 1)] and yields the old
    [end]; [consume_front] fails exactly when [start = end], and otherwise
    stores [(start + 1, end)] and yields the old [start]. A failing call
    leaves the ring and [pos] as they were. *)
Theorem reserve_back_consume_front_spec (fuel : nat) d (pos : Z) :
  (0 < fuel)%nat ->
  3 <= size_ d < 65536 ->
  let s := start (range d) in
  let e := end_ (range d) in
  reserve_back fuel d pos =
    Some (if uint16 (e - s) >? size_ d - 3 then (false, pos, d)
          else (true, e, with_fast_range d (pack s (e + 1)))) /\
  consume_front fuel d pos =
    Some (if s =? e then (false, pos, d)
          else (true, s, with_fast_range d (pack (s + 1) e))) /\
  start {| int_value := pack s (e + 1) |} = s /\
  end_ {| int_value := pack s (e + 1) |} = uint16 (e + 1) /\
  start {| int_value := pack (s + 1) e |} = uint16 (s + 1) /\
  end_ {| int_value := pack (s + 1) e |} = e.
Proof.
  intros Hfuel Hsize s e. destruct fuel as [|fuel]; [lia|].
  pose proof (start_range (range d)) as Hs.
  pose proof (end_range (range d)) as He.
  rewrite reserve_back_seq, consume_front_seq.
  rewrite (max_dist_no_wrap d Hsize). fold s e.
  rewrite !start_pack, !end_pack.
  rewrite (uint16_small s), (uint16_small e) by (subst s e; lia).
  repeat split.
Qed.

End ring_claims.

(** Two reservations at the back of a ring of four slots. *)
Lemma two_in_four :
  let d0 := make tt 4 in
  let d1 := with_fast_range d0 65536 in
  let d2 := with_fast_range d0 131072 in
  reserve_back 1 d0 0 = Some (true, 0, d1) /\
  reserve_back 1 d1 0 = Some (true, 1, d2) /\
  ring_reachable (fun x => x) tt 4 d2.
Proof.
  assert (H1 : reserve_back 1 (make tt 4) 0
               = Some (true, 0, with_fast_range (make tt 4) 65536))
    by (vm_compute; reflexivity).
  assert (H2 : reserve_back 1 (with_fast_range (make tt 4) 65536) 0
               = Some (true, 1, with_fast_range (make tt 4) 131072))
    by (vm_compute; reflexivity).
  cbv zeta. split; [exact H1|]. split; [exact H2|].
  eapply rtc_l; [eapply step_reserve_back; exact H1|].
  eapply rtc_l; [eapply step_reserve_back; exact H2|]. apply rtc_refl.
Qed.

(** C2 with the bound [size - 3] fails on a ring of four slots: two reservations at the
    back succeed, after which [2 > 4 - 3] positions are reserved. *)
Lemma ring_occupancy_counterexample :
  let d0 := make tt 4 in
  let d1 := with_fast_range d0 65536 in
  let d2 := with_fast_range d0 131072 in
  reserve_back 1 d0 0 = Some (true, 0, d1) /\
  reserve_back 1 d1 0 = Some (true, 1, d2) /\
  ring_reachable (fun x => x) tt 4 d2 /\
  size_ d2 = 4 /\ occupancy d2 = 2 /\
  ~ occupancy d2 <= size_ d2 - 3.
Proof.
  destruct two_in_four as (H1 & H2 & Hreach). cbv zeta.
  split; [exact H1|]. split; [exact H2|]. split; [exact Hreach|].
  split; [reflexivity|]. split; [reflexivity|].
  vm_compute. intros H; apply H; reflexivity.
Qed.

Lemma ring_occupancy_bound_witness :
  3 <= uint16 4 /\
  ring_reachable (fun x => x) tt 4 (with_fast_range (make tt 4) 131072) /\
  occupancy (with_fast_range (make tt 4) 131072) <= 4 - 2.
Proof.
  split; [vm_compute; discriminate|].
  destruct two_in_four as (_ & _ & Hreach). split; [exact Hreach|].
  destruct (ring_occupancy_bound (fun x => x) tt 4 _ ltac:(vm_compute; discriminate) Hreach)
    as (_ & H & _).
  exact H.
Defined.

Lemma reserve_back_consume_front_spec_witness :
  (0 < 1)%nat /\ 3 <= 8 < 65536 /\
  reserve_back 1 (make tt 8) 0 = Some (true, 0, with_fast_range (make tt 8) 65536) /\
  consume_front 1 (make tt 8) 7 = Some (false, 7, make tt 8).
Proof.
  split; [lia|]. split; [lia|].
  destruct (reserve_back_consume_front_spec 1 (make tt 8) 0 ltac:(lia) ltac:(change (3 <= 8 < 65536); lia))
    as (Hb & _).
  destruct (reserve_back_consume_front_spec 1 (make tt 8) 7 ltac:(lia) ltac:(change (3 <= 8 < 65536); lia))
    as (_ & Hf & _).
  split; [exact Hb | exact Hf].
Defined.

(** ** Facts about the deque *)

(** With nobody else writing the slot, the second exchange at the latest
    succeeds, whatever the slot's state was. *)
Lemma spin_exchange_seq fuel obj old desired :
  spin_exchange (S (S fuel)) obj old desired = Some desired.
Proof.
  simpl. unfold compare_exchange.
  destruct (obj =? old); [reflexivity|]. rewrite Z.eqb_refl. reflexivity.
Qed.

Section dequeue_facts.

Context {T : Type}.
Variable moved_from : T -> T.
Variable default_elem : T.

Implicit Types (d : @bounded_dequeue T) (q : @concurrent_dequeue T).

Lemma slot_index_wf d pos :
  ring_wf d ->
  exists i, slot_index d pos = Some i /\ (i < length (circular_buffer_ d))%nat /\
            Z.of_nat i = pos `mod` size_ d.
Proof.
  intros [Hpos Hlen]. unfold slot_index.
  destruct (Z.eqb_spec (size_ d) 0); [lia|].
  pose proof (Z.mod_pos_bound pos (size_ d) Hpos).
  destruct (decide _) as [Hlt|Hge]; [|lia].
  eexists; split; [reflexivity|]. split; [exact Hlt|lia].
Qed.

Lemma construct_in_fast_seq fuel d pos elem i :
  slot_index d pos = Some i ->
  (i < length (circular_buffer_ d))%nat ->
  construct_in_fast (S (S fuel)) d pos elem =
  Some (with_buffer d
          (<[i := {| state_ := state_int valid; elem_ := elem |}]> (circular_buffer_ d))).
Proof.
  intros Hi Hlt. unfold construct_in_fast. rewrite Hi. cbn -[spin_exchange].
  destruct (lookup_lt_is_Some_2 (circular_buffer_ d) i Hlt) as [item ->].
  cbn -[spin_exchange]. rewrite spin_exchange_seq. reflexivity.
Qed.

Lemma extract_from_fast_seq fuel d pos elem i item :
  slot_index d pos = Some i ->
  circular_buffer_ d !! i = Some item ->
  extract_from_fast moved_from (S (S fuel)) d pos elem =
  Some (elem_ item,
        with_buffer d
          (<[i := {| state_ := state_int freed; elem_ := moved_from (elem_ item) |}]>
             (circular_buffer_ d))).
Proof.
  intros Hi Hitem. unfold extract_from_fast. rewrite Hi. cbn -[spin_exchange].
  rewrite Hitem. cbn -[spin_exchange]. rewrite spin_exchange_seq. reflexivity.
Qed.

Lemma ring_wf_with_fast_range d v : ring_wf d -> ring_wf (with_fast_range d v).
Proof. intros H; exact H. Qed.

Lemma ring_wf_with_buffer d i x :
  ring_wf d -> ring_wf (with_buffer d (<[i := x]> (circular_buffer_ d))).
Proof. intros [H1 H2]. split; simpl; [exact H1|]. rewrite length_insert. exact H2. Qed.

Lemma ring_wf_clear d : ring_wf d -> ring_wf (clear_fast d).
Proof. intros [H1 H2]. split; simpl; [exact H1|]. rewrite length_fmap. exact H2. Qed.

Lemma with_fast_same q : with_fast q (fast_deque_ q) = q.
Proof. destruct q; reflexivity. Qed.

End dequeue_facts.

(** ** The deque, one call at a time *)

Section dequeue_seq.

Context {T : Type}.
Variable moved_from : T -> T.
Variable default_elem : T.

Implicit Types (d : @bounded_dequeue T) (q : @concurrent_dequeue T).

Lemma push_back_slow fuel q elem :
  (occupancy (fast_deque_ q) >? max_dist (fast_deque_ q)) = true ->
  bottleneck_ q = false ->
  push_back (S fuel) q elem =
  Some {| fast_deque_ := fast_deque_ q;
          slow_access_elems_ := slow_access_elems_ q ++ [elem];
          bottleneck_ := false;
          num_elements_slow_ := int32 (num_elements_slow_ q + 1) |}.
Proof.
  intros Hfull Hfree. unfold push_back. rewrite reserve_back_seq, Hfull.
  cbn. unfold lock. cbn. rewrite Hfree. reflexivity.
Qed.

Lemma push_front_slow fuel q elem :
  (occupancy (fast_deque_ q) >? max_dist (fast_deque_ q)) = true ->
  bottleneck_ q = false ->
  push_front (S fuel) q elem =
  Some {| fast_deque_ := fast_deque_ q;
          slow_access_elems_ := elem :: slow_access_elems_ q;
          bottleneck_ := false;
          num_elements_slow_ := int32 (num_elements_slow_ q + 1) |}.
Proof.
  intros Hfull Hfree. unfold push_front. rewrite reserve_front_seq, Hfull.
  cbn. unfold lock. cbn. rewrite Hfree. reflexivity.
Qed.

Lemma push_back_fast fuel q elem i :
  (occupancy (fast_deque_ q) >? max_dist (fast_deque_ q)) = false ->
  slot_index (fast_deque_ q) (end_ (range (fast_deque_ q))) = Some i ->
  (i < length (circular_buffer_ (fast_deque_ q)))%nat ->
  push_back (S (S fuel)) q elem =
  Some (with_fast q
          (with_buffer
             (with_fast_range (fast_deque_ q)
                (pack (start (range (fast_deque_ q))) (end_ (range (fast_deque_ q)) + 1)))
             (<[i := {| state_ := state_int valid; elem_ := elem |}]>
                (circular_buffer_ (fast_deque_ q))))).
Proof.
  intros Hroom Hi Hlt. unfold push_back. rewrite reserve_back_seq, Hroom.
  cbn -[construct_in_fast].
  rewrite (construct_in_fast_seq fuel _ _ elem i); [reflexivity|exact Hi|exact Hlt].
Qed.

Lemma push_front_fast fuel q elem i :
  (occupancy (fast_deque_ q) >? max_dist (fast_deque_ q)) = false ->
  slot_index (fast_deque_ q) (uint16 (start (range (fast_deque_ q)) - 1)) = Some i ->
  (i < length (circular_buffer_ (fast_deque_ q)))%nat ->
  push_front (S (S fuel)) q elem =
  Some (with_fast q
          (with_buffer
             (with_fast_range (fast_deque_ q)
                (pack (start (range (fast_deque_ q)) - 1) (end_ (range (fast_deque_ q)))))
             (<[i := {| state_ := state_int valid; elem_ := elem |}]>
                (circular_buffer_ (fast_deque_ q))))).
Proof.
  intros Hroom Hi Hlt. unfold push_front. rewrite reserve_front_seq, Hroom.
  cbn -[construct_in_fast].
  rewrite (construct_in_fast_seq fuel _ _ elem i); [reflexivity|exact Hi|exact Hlt].
Qed.

Lemma try_pop_front_fast fuel q elem i item :
  (start (range (fast_deque_ q)) =? end_ (range (fast_deque_ q))) = false ->
  slot_index (fast_deque_ q) (start (range (fast_deque_ q))) = Some i ->
  circular_buffer_ (fast_deque_ q) !! i = Some item ->
  try_pop_front moved_from (S (S fuel)) q elem =
  Some (true, elem_ item,
        with_fast q
          (with_buffer
             (with_fast_range (fast_deque_ q)
                (pack (start (range (fast_deque_ q)) + 1) (end_ (range (fast_deque_ q)))))
             (<[i := {| state_ := state_int freed; elem_ := moved_from (elem_ item) |}]>
                (circular_buffer_ (fast_deque_ q))))).
Proof.
  intros Hne Hi Hitem. unfold try_pop_front. rewrite consume_front_seq, Hne.
  cbn -[extract_from_fast].
  rewrite (extract_from_fast_seq moved_from fuel _ _ elem i item);
    [reflexivity|exact Hi|exact Hitem].
Qed.

Lemma try_pop_back_fast fuel q elem i item :
  (start (range (fast_deque_ q)) =? end_ (range (fast_deque_ q))) = false ->
  slot_index (fast_deque_ q) (uint16 (end_ (range (fast_deque_ q)) - 1)) = Some i ->
  circular_buffer_ (fast_deque_ q) !! i = Some item ->
  try_pop_back moved_from (S (S fuel)) q elem =
  Some (true, elem_ item,
        with_fast q
          (with_buffer
             (with_fast_range (fast_deque_ q)
                (pack (start (range (fast_deque_ q))) (end_ (range (fast_deque_ q)) - 1)))
             (<[i := {| state_ := state_int freed; elem_ := moved_from (elem_ item) |}]>
                (circular_buffer_ (fast_deque_ q))))).
Proof.
  intros Hne Hi Hitem. unfold try_pop_back. rewrite consume_back_seq, Hne.
  cbn -[extract_from_fast].
  rewrite (extract_from_fast_seq moved_from fuel _ _ elem i item);
    [reflexivity|exact Hi|exact Hitem].
Qed.

(** The three ways a pop goes when the ring is empty. *)
Lemma try_pop_front_slow fuel q elem :
  (start (range (fast_deque_ q)) =? end_ (range (fast_deque_ q))) = true ->
  try_pop_front moved_from (S fuel) q elem =
  if num_elements_slow_ q >? 0 then
    if bottleneck_ q then None
    else match slow_access_elems_ q with
         | [] => Some (false, elem, q)
         | x :: rest =>
             Some (true, x,
                   {| fast_deque_ := fast_deque_ q;
                      slow_access_elems_ := rest;
                      bottleneck_ := false;
                      num_elements_slow_ := int32 (num_elements_slow_ q - 1) |})
         end
  else Some (false, elem, q).
Proof.
  intros Hempty. unfold try_pop_front. rewrite consume_front_seq, Hempty.
  cbn. rewrite with_fast_same.
  destruct (num_elements_slow_ q >? 0); [|reflexivity].
  unfold lock. destruct (bottleneck_ q) eqn:Hb; [reflexivity|]. cbn.
  destruct (slow_access_elems_ q) eqn:Hs; [|reflexivity].
  destruct q; simpl in *; subst; reflexivity.
Qed.

Lemma try_pop_back_slow fuel q elem :
  (start (range (fast_deque_ q)) =? end_ (range (fast_deque_ q))) = true ->
  try_pop_back moved_from (S fuel) q elem =
  if num_elements_slow_ q >? 0 then
    if bottleneck_ q then None
    else match last (slow_access_elems_ q) with
         | None => Some (false, elem, q)
         | Some x =>
             Some (true, x,
                   {| fast_deque_ := fast_deque_ q;
                      slow_access_elems_ := removelast (slow_access_elems_ q);
                      bottleneck_ := false;
                      num_elements_slow_ := int32 (num_elements_slow_ q - 1) |})
         end
  else Some (false, elem, q).
Proof.
  intros Hempty. unfold try_pop_back. rewrite consume_back_seq, Hempty.
  cbn. rewrite with_fast_same.
  destruct (num_elements_slow_ q >? 0); [|reflexivity].
  unfold lock. destruct (bottleneck_ q) eqn:Hb; [reflexivity|]. cbn.
  destruct (last (slow_access_elems_ q)) eqn:Hs; [reflexivity|].
  destruct q; simpl in *; subst; reflexivity.
Qed.

End dequeue_seq.

(** ** Properties of the deque *)

Section dequeue_claims.

Context {T : Type}.
Variable moved_from : T -> T.
Variable default_elem : T.

Implicit Types (d : @bounded_dequeue T) (q : @concurrent_dequeue T).

Lemma slot_holds_insert d v i pos elem :
  slot_index d pos = Some i ->
  (i < length (circular_buffer_ d))%nat ->
  slot_holds
    (with_buffer (with_fast_range d v)
       (<[i := {| state_ := state_int valid; elem_ := elem |}]> (circular_buffer_ d)))
    pos elem.
Proof.
  intros Hi Hlt. exists i. split.
  - unfold slot_index in *. simpl. rewrite length_insert. exact Hi.
  - simpl. apply list_lookup_insert_eq. exact Hlt.
Qed.

Lemma occupancy_empty d :
  (start (range d) =? end_ (range d)) = true -> occupancy d = 0.
Proof.
  intros E. apply Z.eqb_eq in E. unfold occupancy. rewrite E, Z.sub_diag. reflexivity.
Qed.

Lemma push_back_returns fuel q (elem : T) :
  dequeue_wf q ->
  exists q', push_back (S (S fuel)) q elem = Some q' /\ dequeue_wf q' /\
    match reserve_back (S (S fuel)) (fast_deque_ q) 0 with
    | Some (true, pos, _) =>
        slot_holds (fast_deque_ q') pos elem /\
        slow_access_elems_ q' = slow_access_elems_ q
    | _ =>
        fast_deque_ q' = fast_deque_ q /\
        slow_access_elems_ q' = slow_access_elems_ q ++ [elem]
    end.
Proof.
  intros [Hring Hfree]. rewrite reserve_back_seq.
  destruct (occupancy (fast_deque_ q) >? max_dist (fast_deque_ q)) eqn:Hfull.
  - eexists. split; [apply push_back_slow; assumption|].
    split; [split; [exact Hring|reflexivity]|split; reflexivity].
  - destruct (slot_index_wf (fast_deque_ q) (end_ (range (fast_deque_ q))) Hring)
      as (i & Hi & Hlt & _).
    eexists. split; [apply (push_back_fast fuel q elem i); assumption|].
    split; [|split].
    + split; [|exact Hfree]. simpl.
      apply (ring_wf_with_buffer (with_fast_range _ _)). exact Hring.
    + simpl. apply slot_holds_insert; assumption.
    + reflexivity.
Qed.

Lemma push_front_returns fuel q (elem : T) :
  dequeue_wf q ->
  exists q', push_front (S (S fuel)) q elem = Some q' /\ dequeue_wf q' /\
    match reserve_front (S (S fuel)) (fast_deque_ q) 0 with
    | Some (true, pos, _) =>
        slot_holds (fast_deque_ q') pos elem /\
        slow_access_elems_ q' = slow_access_elems_ q
    | _ =>
        fast_deque_ q' = fast_deque_ q /\
        slow_access_elems_ q' = elem :: slow_access_elems_ q
    end.
Proof.
  intros [Hring Hfree]. rewrite reserve_front_seq.
  destruct (occupancy (fast_deque_ q) >? max_dist (fast_deque_ q)) eqn:Hfull.
  - eexists. split; [apply push_front_slow; assumption|].
    split; [split; [exact Hring|reflexivity]|split; reflexivity].
  - destruct (slot_index_wf (fast_deque_ q)
                (uint16 (start (range (fast_deque_ q)) - 1)) Hring)
      as (i & Hi & Hlt & _).
    eexists. split; [apply (push_front_fast fuel q elem i); assumption|].
    split; [|split].
    + split; [|exact Hfree]. simpl.
      apply (ring_wf_with_buffer (with_fast_range _ _)). exact Hring.
    + simpl. apply slot_holds_insert; assumption.
    + reflexivity.
Qed.

Lemma try_pop_front_returns fuel q (elem : T) :
  dequeue_wf q ->
  exists ok out q',
    try_pop_front moved_from (S (S fuel)) q elem = Some (ok, out, q') /\
    dequeue_wf q' /\
    (ok = false ->
       q' = q /\ out = elem /\ occupancy (fast_deque_ q) = 0 /\
       (slow_access_elems_ q = [] \/ num_elements_slow_ q <= 0)).
Proof.
  intros [Hring Hfree].
  destruct (start (range (fast_deque_ q)) =? end_ (range (fast_deque_ q))) eqn:Hempty.
  - pose proof (occupancy_empty _ Hempty) as Hocc0.
    rewrite try_pop_front_slow by exact Hempty. rewrite Hfree.
    destruct (Z.gtb_spec (num_elements_slow_ q) 0) as [Hpos|Hnpos].
    + destruct (slow_access_elems_ q) as [|x rest] eqn:Hslow.
      * eexists _, _, _. split; [reflexivity|].
        split; [split; [exact Hring|exact Hfree]|].
        intros _. repeat split; auto.
      * eexists _, _, _. split; [reflexivity|].
        split; [split; [exact Hring|reflexivity]|]. discriminate.
    + eexists _, _, _. split; [reflexivity|].
      split; [split; [exact Hring|exact Hfree]|].
      intros _. repeat split; auto.
  - destruct (slot_index_wf (fast_deque_ q) (start (range (fast_deque_ q))) Hring)
      as (i & Hi & Hlt & _).
    destruct (lookup_lt_is_Some_2 _ _ Hlt) as [item Hitem].
    eexists _, _, _.
    split; [apply (try_pop_front_fast moved_from fuel q elem i item); assumption|].
    split; [|discriminate].
    split; [|exact Hfree]. simpl.
    apply (ring_wf_with_buffer (with_fast_range _ _)). exact Hring.
Qed.

Lemma try_pop_back_returns fuel q (elem : T) :
  dequeue_wf q ->
  exists ok out q',
    try_pop_back moved_from (S (S fuel)) q elem = Some (ok, out, q') /\
    dequeue_wf q' /\
    (ok = false ->
       q' = q /\ out = elem /\ occupancy (fast_deque_ q) = 0 /\
       (slow_access_elems_ q = [] \/ num_elements_slow_ q <= 0)).
Proof.
  intros [Hring Hfree].
  destruct (start (range (fast_deque_ q)) =? end_ (range (fast_deque_ q))) eqn:Hempty.
  - pose proof (occupancy_empty _ Hempty) as Hocc0.
    rewrite try_pop_back_slow by exact Hempty. rewrite Hfree.
    destruct (Z.gtb_spec (num_elements_slow_ q) 0) as [Hpos|Hnpos].
    + destruct (last (slow_access_elems_ q)) as [x|] eqn:Hslow.
      * eexists _, _, _. split; [reflexivity|].
        split; [split; [exact Hring|reflexivity]|]. discriminate.
      * eexists _, _, _. split; [reflexivity|].
        split; [split; [exact Hring|exact Hfree]|].
        intros _. apply last_None in Hslow. repeat split; auto.
    + eexists _, _, _. split; [reflexivity|].
      split; [split; [exact Hring|exact Hfree]|].
      intros _. repeat split; auto.
  - destruct (slot_index_wf (fast_deque_ q)
                (uint16 (end_ (range (fast_deque_ q)) - 1)) Hring)
      as (i & Hi & Hlt & _).
    destruct (lookup_lt_is_Some_2 _ _ Hlt) as [item Hitem].
    eexists _, _, _.
    split; [apply (try_pop_back_fast moved_from fuel q elem i item); assumption|].
    split; [|discriminate].
    split; [|exact Hfree]. simpl.
    apply (ring_wf_with_buffer (with_fast_range _ _)). exact Hring.
Qed.

(** C4: on a well-formed deque a push returns, with the element stored: in
    the ring slot of the reserved position when the reservation succeeds, at
    the end of the slow deque it was pushed to when the reservation fails. A
    pop returns a boolean; [false] is returned only for an empty ring with an
    empty slow deque (or a count that is not positive), and then nothing has
    changed. *)
Theorem push_succeeds_pop_returns_bool (fuel : nat) q (elem : T) :
  (2 <= fuel)%nat ->
  dequeue_wf q ->
  (exists q', push_back fuel q elem = Some q' /\ dequeue_wf q' /\
     match reserve_back fuel (fast_deque_ q) 0 with
     | Some (true, pos, _) =>
         slot_holds (fast_deque_ q') pos elem /\
         slow_access_elems_ q' = slow_access_elems_ q
     | _ =>
         fast_deque_ q' = fast_deque_ q /\
         slow_access_elems_ q' = slow_access_elems_ q ++ [elem]
     end) /\
  (exists q', push_front fuel q elem = Some q' /\ dequeue_wf q' /\
     match reserve_front fuel (fast_deque_ q) 0 with
     | Some (true, pos, _) =>
         slot_holds (fast_deque_ q') pos elem /\
         slow_access_elems_ q' = slow_access_elems_ q
     | _ =>
         fast_deque_ q' = fast_deque_ q /\
         slow_access_elems_ q' = elem :: slow_access_elems_ q
     end) /\
  (exists ok out q', try_pop_front moved_from fuel q elem = Some (ok, out, q') /\
     dequeue_wf q' /\
     (ok = false ->
        q' = q /\ out = elem /\ occupancy (fast_deque_ q) = 0 /\
        (slow_access_elems_ q = [] \/ num_elements_slow_ q <= 0))) /\
  (exists ok out q', try_pop_back moved_from fuel q elem = Some (ok, out, q') /\
     dequeue_wf q' /\
     (ok = false ->
        q' = q /\ out = elem /\ occupancy (fast_deque_ q) = 0 /\
        (slow_access_elems_ q = [] \/ num_elements_slow_ q <= 0))).
Proof.
  intros Hfuel Hwf. destruct fuel as [|[|fuel]]; [lia|lia|].
  split; [exact (push_back_returns fuel q elem Hwf)|].
  split; [exact (push_front_returns fuel q elem Hwf)|].
  split; [exact (try_pop_front_returns fuel q elem Hwf)|].
  exact (try_pop_back_returns fuel q elem Hwf).
Qed.

(** C9: when the ring is empty ([start = end]) and the slow count is zero,
    both pops return [false] and leave the caller's [elem] and the whole
    deque as they were. *)
Theorem try_pop_empty (fuel : nat) q (elem : T) :
  (0 < fuel)%nat ->
  start (range (fast_deque_ q)) = end_ (range (fast_deque_ q)) ->
  num_elements_slow_ q = 0 ->
  try_pop_front moved_from fuel q elem = Some (false, elem, q) /\
  try_pop_back moved_from fuel q elem = Some (false, elem, q).
Proof.
  intros Hfuel Hempty Hnum. destruct fuel as [|fuel]; [lia|].
  apply Z.eqb_eq in Hempty.
  rewrite try_pop_front_slow, try_pop_back_slow by exact Hempty.
  rewrite Hnum. split; reflexivity.
Qed.

Lemma slow_count_push n : int32 (int32 (Z.of_nat n) + 1) = int32 (Z.of_nat (n + 1)).
Proof. rewrite int32_int32_succ. f_equal. lia. Qed.

Lemma slow_count_pop n : int32 (int32 (Z.of_nat (S n)) - 1) = int32 (Z.of_nat n).
Proof. rewrite int32_int32_pred. f_equal. lia. Qed.

(** Every call keeps the count equal to the length of the slow deque (as an
    [int]) and returns with the mutex released. *)
Lemma run_call_slow_count fuel q c o q' :
  run_call moved_from default_elem fuel q c = Some (o, q') ->
  bottleneck_ q = false ->
  num_elements_slow_ q = int32 (Z.of_nat (length (slow_access_elems_ q))) ->
  bottleneck_ q' = false /\
  num_elements_slow_ q' = int32 (Z.of_nat (length (slow_access_elems_ q'))).
Proof.
  intros Hrun Hfree Hnum.
  destruct fuel as [|fuel]; [destruct c; try discriminate; injection Hrun as _ <-; auto|].
  destruct c as [elem|elem| | |]; simpl in Hrun.
  - unfold push_back in Hrun. rewrite reserve_back_seq in Hrun.
    destruct (occupancy _ >? max_dist _); cbn -[construct_in_fast] in Hrun.
    + unfold lock in Hrun. cbn in Hrun. rewrite Hfree in Hrun.
      injection Hrun as _ <-. simpl. split; [reflexivity|].
      rewrite Hnum, length_app. simpl. apply slow_count_push.
    + destruct (construct_in_fast _ _ _ _) as [d'|]; [|discriminate].
      injection Hrun as _ <-. split; assumption.
  - unfold push_front in Hrun. rewrite reserve_front_seq in Hrun.
    destruct (occupancy _ >? max_dist _); cbn -[construct_in_fast] in Hrun.
    + unfold lock in Hrun. cbn in Hrun. rewrite Hfree in Hrun.
      injection Hrun as _ <-. simpl. split; [reflexivity|].
      rewrite Hnum. replace (S (length (slow_access_elems_ q)))
        with (length (slow_access_elems_ q) + 1)%nat by lia.
      apply slow_count_push.
    + destruct (construct_in_fast _ _ _ _) as [d'|]; [|discriminate].
      injection Hrun as _ <-. split; assumption.
  - destruct (start (range (fast_deque_ q)) =? end_ (range (fast_deque_ q))) eqn:Hempty.
    + rewrite try_pop_front_slow in Hrun by exact Hempty. rewrite Hfree in Hrun.
      destruct (num_elements_slow_ q >? 0).
      * destruct (slow_access_elems_ q) as [|x rest] eqn:Hslow;
          injection Hrun as _ <-; simpl.
        -- rewrite Hslow. split; assumption.
        -- split; [reflexivity|]. rewrite Hnum. apply slow_count_pop.
      * injection Hrun as _ <-. split; assumption.
    + unfold try_pop_front in Hrun. rewrite consume_front_seq, Hempty in Hrun.
      cbn -[extract_from_fast] in Hrun.
      destruct (extract_from_fast _ _ _ _ _) as [[elem' d']|]; [|discriminate].
      injection Hrun as _ <-. split; assumption.
  - destruct (start (range (fast_deque_ q)) =? end_ (range (fast_deque_ q))) eqn:Hempty.
    + rewrite try_pop_back_slow in Hrun by exact Hempty. rewrite Hfree in Hrun.
      destruct (num_elements_slow_ q >? 0).
      * destruct (last (slow_access_elems_ q)) as [x|] eqn:Hslow;
          injection Hrun as _ <-; simpl.
        -- split; [reflexivity|]. apply last_Some in Hslow as [l' Hl'].
           rewrite Hnum, Hl', removelast_last, length_app. simpl.
           replace (length l' + 1)%nat with (S (length l')) by lia.
           apply slow_count_pop.
        -- split; assumption.
      * injection Hrun as _ <-. split; assumption.
    + unfold try_pop_back in Hrun. rewrite consume_back_seq, Hempty in Hrun.
      cbn -[extract_from_fast] in Hrun.
      destruct (extract_from_fast _ _ _ _ _) as [[elem' d']|]; [|discriminate].
      injection Hrun as _ <-. split; assumption.
  - injection Hrun as _ <-. simpl. split; [exact Hfree|reflexivity].
Qed.

(** C10: in every state the deque reaches by calls of its interface, which
    are the states in which the mutex is free, [num_elements_slow_] is the
    number of elements of the slow deque, as an [int]; it is that number
    itself as long as it is below [2^31]. *)
Theorem slow_count_matches (expected_size : Z) q :
  dequeue_reachable moved_from default_elem expected_size q ->
  bottleneck_ q = false /\
  num_elements_slow_ q = int32 (Z.of_nat (length (slow_access_elems_ q))) /\
  (Z.of_nat (length (slow_access_elems_ q)) < 2147483648 ->
   num_elements_slow_ q = Z.of_nat (length (slow_access_elems_ q))).
Proof.
  intros Hreach.
  assert (Hinv : bottleneck_ q = false /\
                 num_elements_slow_ q = int32 (Z.of_nat (length (slow_access_elems_ q)))).
  { unfold dequeue_reachable in Hreach. revert q Hreach.
    apply (rtc_ind_r (fun q => bottleneck_ q = false /\
             num_elements_slow_ q = int32 (Z.of_nat (length (slow_access_elems_ q))))).
    - split; reflexivity.
    - intros q1 q2 _ (fuel & c & o & Hrun) [IH1 IH2].
      exact (run_call_slow_count fuel q1 c o q2 Hrun IH1 IH2). }
  destruct Hinv as [Hfree Hnum]. split; [exact Hfree|]. split; [exact Hnum|].
  intros Hsmall. rewrite Hnum. apply int32_small. lia.
Qed.

End dequeue_claims.

(** The constructor leaves a well-formed deque, unless the sixteen low bits
    of [expected_size] are all zero. *)
Lemma make_dequeue_wf {T : Type} (default_elem : T) (expected_size : Z) :
  0 <= expected_size -> 0 < uint16 expected_size ->
  dequeue_wf (make_dequeue default_elem expected_size).
Proof.
  intros Hnn Hpos. split; [|reflexivity]. split; simpl; [exact Hpos|].
  rewrite length_replicate. unfold uint16 in *.
  rewrite Z2Nat.id by lia. apply Z.mod_le; lia.
Qed.

Lemma push_succeeds_pop_returns_bool_witness :
  (2 <= 2)%nat /\ dequeue_wf (make_dequeue 0 8) /\
  exists q', push_back 2 (make_dequeue 0 8) 7 = Some q' /\ dequeue_wf q'.
Proof.
  split; [lia|].
  assert (Hwf : dequeue_wf (make_dequeue 0 8))
    by (apply make_dequeue_wf; [lia | vm_compute; reflexivity]).
  split; [exact Hwf|].
  destruct (push_succeeds_pop_returns_bool (fun x => x) 2 (make_dequeue 0 8) 7
              ltac:(lia) Hwf) as ((q' & Hpush & Hwf' & _) & _).
  exists q'. split; [exact Hpush | exact Hwf'].
Defined.

Lemma try_pop_empty_witness :
  (0 < 1)%nat /\
  start (range (fast_deque_ (make_dequeue 0 8))) = end_ (range (fast_deque_ (make_dequeue 0 8))) /\
  num_elements_slow_ (make_dequeue 0 8) = 0 /\
  try_pop_front (fun x => x) 1 (make_dequeue 0 8) 42 = Some (false, 42, make_dequeue 0 8) /\
  try_pop_back (fun x => x) 1 (make_dequeue 0 8) 42 = Some (false, 42, make_dequeue 0 8).
Proof.
  split; [lia|]. split; [reflexivity|]. split; [reflexivity|].
  exact (try_pop_empty (fun x => x) 1 (make_dequeue 0 8) 42
           ltac:(lia) eq_refl eq_refl).
Defined.

(** Three pushes at the back of a deque of three slots: the ring takes one,
    the slow deque two. *)
Lemma three_pushes_reachable :
  exists q,
    run_calls (fun x => x) 0 2 (make_dequeue 0 3) [PushBack 1; PushBack 2; PushBack 3]
      = Some ([Pushed 1; Pushed 2; Pushed 3], q) /\
    slow_access_elems_ q = [2; 3] /\
    dequeue_reachable (fun x => x) 0 3 q.
Proof.
  eexists. split; [vm_compute; reflexivity|]. split; [reflexivity|].
  eapply rtc_l; [exists 2%nat, (PushBack 1); eexists; vm_compute; reflexivity|].
  eapply rtc_l; [exists 2%nat, (PushBack 2); eexists; vm_compute; reflexivity|].
  eapply rtc_l; [exists 2%nat, (PushBack 3); eexists; vm_compute; reflexivity|].
  apply rtc_refl.
Qed.

Lemma slow_count_matches_witness :
  exists q : @concurrent_dequeue Z,
    dequeue_reachable (fun x => x) 0 3 q /\
    slow_access_elems_ q = [2; 3] /\ num_elements_slow_ q = 2.
Proof.
  destruct three_pushes_reachable as (q & _ & Hslow & Hreach).
  exists q. split; [exact Hreach|]. split; [exact Hslow|].
  destruct (slow_count_matches (fun x => x) 0 3 q Hreach) as (_ & _ & H).
  rewrite H; rewrite Hslow; simpl; lia.
Defined.

(** ** A ring whose size divides [2^16] keeps its elements *)

Lemma mod_uint16_divides n p : 0 < n -> (n | 65536) -> uint16 p `mod` n = p `mod` n.
Proof. intros Hn Hdiv. unfold uint16. apply Z.mod_mod_divide. exact Hdiv. Qed.

Lemma mod_distinct n a i j :
  0 < n -> 0 <= i < j -> j < n -> (a + i) `mod` n <> (a + j) `mod` n.
Proof.
  intros Hn Hij Hj Heq.
  assert (H : ((a + j) - (a + i)) `mod` n = 0).
  { rewrite Zminus_mod, Heq, Z.sub_diag. apply Z.mod_0_l. lia. }
  replace (a + j - (a + i)) with (j - i) in H by lia.
  rewrite Z.mod_small in H; lia.
Qed.

Lemma omap_seq_lookup {A} (l : list A) (f : nat -> option A) : forall k,
  (forall i x, l !! i = Some x -> f (k + i)%nat = Some x) ->
  omap f (seq k (length l)) = l.
Proof.
  induction l as [|x l IH]; intros k Hf; [reflexivity|].
  simpl. rewrite <- (Nat.add_0_r k) at 1. rewrite (Hf 0%nat x eq_refl).
  f_equal. apply IH. intros i y Hy.
  replace (S k + i)%nat with (k + S i)%nat by lia. apply Hf. exact Hy.
Qed.

Section ring_holds_facts.

Context {T : Type}.

Implicit Types (d : @bounded_dequeue T) (l : list T).

Lemma ring_holds_elems d l : ring_holds d l -> ring_elems d = l.
Proof.
  intros H. unfold ring_elems.
  rewrite <- (holds_length d l H), Nat2Z.id.
  apply omap_seq_lookup. intros i x Hx. apply (holds_elems d l H). exact Hx.
Qed.

Lemma slot_index_slot_of d pos :
  ring_wf d -> slot_index d pos = Some (slot_of d pos) /\
  (slot_of d pos < length (circular_buffer_ d))%nat.
Proof.
  intros Hwf. destruct (slot_index_wf d pos Hwf) as (i & Hi & Hlt & Hz).
  assert (i = slot_of d pos) as ->; [|split; assumption].
  unfold slot_of. rewrite <- Hz, Nat2Z.id. reflexivity.
Qed.

(** Two reserved positions, and the position a reservation would add at
    either end, have different slots. *)
Lemma slot_of_distinct d s (i j : Z) :
  3 <= size_ d < 65536 -> (size_ d | 65536) ->
  0 <= i < j -> j < size_ d ->
  slot_of d (uint16 (s + i)) <> slot_of d (uint16 (s + j)).
Proof.
  intros Hsize Hdiv Hij Hj. unfold slot_of.
  rewrite !mod_uint16_divides by (lia || exact Hdiv).
  pose proof (Z.mod_pos_bound (s + i) (size_ d) ltac:(lia)).
  pose proof (Z.mod_pos_bound (s + j) (size_ d) ltac:(lia)).
  pose proof (mod_distinct (size_ d) s i j ltac:(lia) Hij Hj).
  lia.
Qed.

Lemma end_from_occupancy d :
  end_ (range d) = uint16 (start (range d) + occupancy d).
Proof.
  pose proof (start_range (range d)). pose proof (end_range (range d)).
  unfold occupancy, uint16 in *. Z.div_mod_to_equations. lia.
Qed.

Lemma position_with d v b i :
  position (with_buffer (with_fast_range d v) b) i =
  uint16 (start {| int_value := v |} + Z.of_nat i).
Proof. reflexivity. Qed.

Lemma slot_of_with d v b pos :
  slot_of (with_buffer (with_fast_range d v) b) pos = slot_of d pos.
Proof. reflexivity. Qed.

Lemma occupancy_with d v b :
  occupancy (with_buffer (with_fast_range d v) b) = occupancy (with_fast_range d v).
Proof. reflexivity. Qed.

(** A reservation at the back, then the construction of [x] in its slot. *)
Lemma ring_holds_push_back d l x :
  ring_holds d l ->
  (occupancy d >? max_dist d) = false ->
  ring_holds
    (with_buffer
       (with_fast_range d (pack (start (range d)) (end_ (range d) + 1)))
       (<[slot_of d (end_ (range d)) := {| state_ := state_int valid; elem_ := x |}]>
          (circular_buffer_ d)))
    (l ++ [x]).
Proof.
  intros [Hwf Hsize Hdiv Hroom Hlen Hel] Hfree.
  pose proof (start_range (range d)) as Hs. pose proof (end_range (range d)) as He.
  pose proof (occupancy_range d) as Ho.
  rewrite (max_dist_no_wrap d Hsize), Z.gtb_ltb in Hfree. apply Z.ltb_ge in Hfree.
  destruct (slot_index_slot_of d (end_ (range d)) Hwf) as [_ Hlt].
  assert (Hocc : occupancy (with_fast_range d (pack (start (range d)) (end_ (range d) + 1)))
                 = occupancy d + 1).
  { rewrite occupancy_pack, (uint16_small (start (range d))) by lia.
    rewrite occupancy_inc_end. fold (occupancy d). apply uint16_small. lia. }
  split.
  - apply (ring_wf_with_buffer (with_fast_range _ _)). exact Hwf.
  - exact Hsize.
  - exact Hdiv.
  - rewrite occupancy_with, Hocc. simpl. lia.
  - rewrite occupancy_with, Hocc, length_app. simpl. lia.
  - intros i y Hy. rewrite position_with, slot_of_with, start_pack.
    rewrite (uint16_small (start (range d))) by lia. simpl.
    destruct (decide (i < length l)%nat) as [Hi|Hi].
    + rewrite lookup_app_l in Hy by exact Hi.
      rewrite list_lookup_insert_ne; [apply Hel; exact Hy|].
      rewrite (end_from_occupancy d). apply not_eq_sym.
      apply slot_of_distinct; try assumption; lia.
    + assert (i = length l) as ->.
      { apply lookup_lt_Some in Hy. rewrite length_app in Hy. simpl in Hy. lia. }
      rewrite lookup_app_r, Nat.sub_diag in Hy by lia. injection Hy as <-.
      rewrite Hlen, <- end_from_occupancy.
      rewrite list_lookup_insert_eq by exact Hlt. reflexivity.
Qed.

(** A reservation at the front, then the construction of [x] in its slot. *)
Lemma ring_holds_push_front d l x :
  ring_holds d l ->
  (occupancy d >? max_dist d) = false ->
  ring_holds
    (with_buffer
       (with_fast_range d (pack (start (range d) - 1) (end_ (range d))))
       (<[slot_of d (uint16 (start (range d) - 1)) :=
            {| state_ := state_int valid; elem_ := x |}]>
          (circular_buffer_ d)))
    (x :: l).
Proof.
  intros [Hwf Hsize Hdiv Hroom Hlen Hel] Hfree.
  pose proof (start_range (range d)) as Hs. pose proof (end_range (range d)) as He.
  pose proof (occupancy_range d) as Ho.
  rewrite (max_dist_no_wrap d Hsize), Z.gtb_ltb in Hfree. apply Z.ltb_ge in Hfree.
  destruct (slot_index_slot_of d (uint16 (start (range d) - 1)) Hwf) as [_ Hlt].
  assert (Hocc : occupancy (with_fast_range d (pack (start (range d) - 1) (end_ (range d))))
                 = occupancy d + 1).
  { rewrite occupancy_pack, (uint16_small (end_ (range d))) by lia.
    rewrite occupancy_dec_start. fold (occupancy d). apply uint16_small. lia. }
  split.
  - apply (ring_wf_with_buffer (with_fast_range _ _)). exact Hwf.
  - exact Hsize.
  - exact Hdiv.
  - rewrite occupancy_with, Hocc. simpl. lia.
  - rewrite occupancy_with, Hocc. simpl length. lia.
  - intros i y Hy. rewrite position_with, slot_of_with, start_pack. simpl.
    destruct i as [|i]; simpl in Hy.
    + injection Hy as <-. rewrite Z.add_0_r.
      replace (uint16 (uint16 (start (range d) - 1)))
        with (uint16 (start (range d) - 1))
        by (unfold uint16; Z.div_mod_to_equations; lia).
      rewrite list_lookup_insert_eq by exact Hlt. reflexivity.
    + pose proof (lookup_lt_Some _ _ _ Hy) as Hi.
      replace (uint16 (uint16 (start (range d) - 1) + Z.of_nat (S i)))
        with (uint16 ((start (range d) - 1) + (Z.of_nat i + 1)))
        by (unfold uint16; Z.div_mod_to_equations; lia).
      replace (uint16 (start (range d) - 1))
        with (uint16 ((start (range d) - 1) + 0)) by (f_equal; lia).
      rewrite list_lookup_insert_ne
        by (apply slot_of_distinct; try assumption; lia).
      replace (start (range d) - 1 + (Z.of_nat i + 1))
        with (start (range d) + Z.of_nat i) by lia.
      apply Hel. exact Hy.
Qed.

(** A consumption at the front, then the extraction from its slot: the
    element moved out is the first of [l]. *)
Lemma ring_holds_pop_front (moved_from : T -> T) d l :
  ring_holds d l ->
  (start (range d) =? end_ (range d)) = false ->
  exists item l',
    circular_buffer_ d !! slot_of d (start (range d)) = Some item /\
    l = elem_ item :: l' /\
    ring_holds
      (with_buffer
         (with_fast_range d (pack (start (range d) + 1) (end_ (range d))))
         (<[slot_of d (start (range d)) :=
              {| state_ := state_int freed; elem_ := moved_from (elem_ item) |}]>
            (circular_buffer_ d)))
      l'.
Proof.
  intros [Hwf Hsize Hdiv Hroom Hlen Hel] Hne.
  pose proof (start_range (range d)) as Hs. pose proof (end_range (range d)) as He.
  apply Z.eqb_neq in Hne.
  pose proof (occupancy_nonempty _ _ Hs He Hne) as Ho. fold (occupancy d) in Ho.
  destruct l as [|x l']; [simpl in Hlen; lia|].
  pose proof (Hel 0%nat x eq_refl) as H0.
  unfold position in H0. simpl in H0. rewrite Z.add_0_r, uint16_small in H0 by lia.
  destruct (circular_buffer_ d !! slot_of d (start (range d))) as [item|] eqn:Hitem;
    [|discriminate].
  injection H0 as <-.
  exists item, l'. split; [reflexivity|]. split; [reflexivity|].
  assert (Hocc : occupancy (with_fast_range d (pack (start (range d) + 1) (end_ (range d))))
                 = occupancy d - 1).
  { rewrite occupancy_pack, (uint16_small (end_ (range d))) by lia.
    rewrite occupancy_inc_start. fold (occupancy d). apply uint16_small. lia. }
  simpl in Hlen.
  split.
  - apply (ring_wf_with_buffer (with_fast_range _ _)). exact Hwf.
  - exact Hsize.
  - exact Hdiv.
  - rewrite occupancy_with, Hocc. simpl. lia.
  - rewrite occupancy_with, Hocc. lia.
  - intros i y Hy. rewrite position_with, slot_of_with, start_pack. simpl.
    pose proof (lookup_lt_Some _ _ _ Hy) as Hi.
    replace (uint16 (uint16 (start (range d) + 1) + Z.of_nat i))
      with (uint16 (start (range d) + Z.of_nat (S i)))
      by (unfold uint16; Z.div_mod_to_equations; lia).
    replace (slot_of d (start (range d)))
      with (slot_of d (uint16 (start (range d) + 0)))
      by (rewrite Z.add_0_r, uint16_small by lia; reflexivity).
    rewrite list_lookup_insert_ne
      by (apply slot_of_distinct; try assumption; lia).
    apply (Hel (S i)). exact Hy.
Qed.

(** A consumption at the back, then the extraction from its slot: the
    element moved out is the last of [l]. *)
Lemma ring_holds_pop_back (moved_from : T -> T) d l :
  ring_holds d l ->
  (start (range d) =? end_ (range d)) = false ->
  exists item l',
    circular_buffer_ d !! slot_of d (uint16 (end_ (range d) - 1)) = Some item /\
    l = l' ++ [elem_ item] /\
    ring_holds
      (with_buffer
         (with_fast_range d (pack (start (range d)) (end_ (range d) - 1)))
         (<[slot_of d (uint16 (end_ (range d) - 1)) :=
              {| state_ := state_int freed; elem_ := moved_from (elem_ item) |}]>
            (circular_buffer_ d)))
      l'.
Proof.
  intros [Hwf Hsize Hdiv Hroom Hlen Hel] Hne.
  pose proof (start_range (range d)) as Hs. pose proof (end_range (range d)) as He.
  apply Z.eqb_neq in Hne.
  pose proof (occupancy_nonempty _ _ Hs He Hne) as Ho. fold (occupancy d) in Ho.
  destruct l as [|x0 l0] using rev_ind; [simpl in Hlen; lia|].
  clear IHl0. rename l0 into l'. rename x0 into x.
  rewrite length_app in Hlen. simpl in Hlen.
  assert (Hlast : uint16 (end_ (range d) - 1) = position d (length l')).
  { unfold position. rewrite (end_from_occupancy d).
    unfold uint16. Z.div_mod_to_equations. lia. }
  pose proof (Hel (length l') x) as H0.
  rewrite lookup_app_r, Nat.sub_diag in H0 by lia. specialize (H0 eq_refl).
  rewrite <- Hlast in H0.
  destruct (circular_buffer_ d !! slot_of d (uint16 (end_ (range d) - 1)))
    as [item|] eqn:Hitem; [|discriminate].
  injection H0 as <-.
  exists item, l'. split; [reflexivity|]. split; [reflexivity|].
  assert (Hocc : occupancy (with_fast_range d (pack (start (range d)) (end_ (range d) - 1)))
                 = occupancy d - 1).
  { rewrite occupancy_pack, (uint16_small (start (range d))) by lia.
    rewrite occupancy_dec_end. fold (occupancy d). apply uint16_small. lia. }
  split.
  - apply (ring_wf_with_buffer (with_fast_range _ _)). exact Hwf.
  - exact Hsize.
  - exact Hdiv.
  - rewrite occupancy_with, Hocc. simpl. lia.
  - rewrite occupancy_with, Hocc. lia.
  - intros i y Hy. rewrite position_with, slot_of_with, start_pack.
    rewrite (uint16_small (start (range d))) by lia. simpl.
    pose proof (lookup_lt_Some _ _ _ Hy) as Hi.
    rewrite Hlast. unfold position.
    rewrite list_lookup_insert_ne
      by (apply not_eq_sym, slot_of_distinct; try assumption; lia).
    apply Hel. rewrite lookup_app_l by exact Hi. exact Hy.
Qed.

Lemma construct_in_fast_some fuel d pos elem d' :
  ring_wf d ->
  construct_in_fast fuel d pos elem = Some d' ->
  d' = with_buffer d
         (<[slot_of d pos := {| state_ := state_int valid; elem_ := elem |}]>
            (circular_buffer_ d)).
Proof.
  intros Hwf H. unfold construct_in_fast in H.
  destruct (slot_index_slot_of d pos Hwf) as [Hi _]. rewrite Hi in H.
  cbn -[spin_exchange] in H.
  destruct (circular_buffer_ d !! slot_of d pos); [|discriminate].
  cbn -[spin_exchange] in H.
  destruct (spin_exchange _ _ _ _); [|discriminate].
  injection H as <-. reflexivity.
Qed.

Lemma extract_from_fast_some (moved_from : T -> T) fuel d pos elem elem' d' :
  ring_wf d ->
  extract_from_fast moved_from fuel d pos elem = Some (elem', d') ->
  exists item,
    circular_buffer_ d !! slot_of d pos = Some item /\ elem' = elem_ item /\
    d' = with_buffer d
           (<[slot_of d pos :=
                {| state_ := state_int freed; elem_ := moved_from (elem_ item) |}]>
              (circular_buffer_ d)).
Proof.
  intros Hwf H. unfold extract_from_fast in H.
  destruct (slot_index_slot_of d pos Hwf) as [Hi _]. rewrite Hi in H.
  cbn -[spin_exchange] in H.
  destruct (circular_buffer_ d !! slot_of d pos) as [item|]; [|discriminate].
  cbn -[spin_exchange] in H.
  destruct (spin_exchange _ _ _ _); [|discriminate].
  injection H as <- <-. exists item. repeat split.
Qed.

End ring_holds_facts.

Section dequeue_keeps.

Context {T : Type}.
Variable moved_from : T -> T.
Variable default_elem : T.

Implicit Types (d : @bounded_dequeue T) (q : @concurrent_dequeue T) (l : list T).

(** A call other than [unsafe_clear] moves one element into the deque, or
    one out of it, or none. *)
Lemma run_call_holds fuel q c o q' l :
  ring_holds (fast_deque_ q) l ->
  bottleneck_ q = false ->
  c <> UnsafeClear ->
  run_call moved_from default_elem fuel q c = Some (o, q') ->
  exists l',
    ring_holds (fast_deque_ q') l' /\ bottleneck_ q' = false /\
    pushed_elems [o] ++ l ++ slow_access_elems_ q ≡ₚ
    popped_elems [o] ++ l' ++ slow_access_elems_ q'.
Proof.
  intros Hl Hfree Hc Hrun. pose proof (holds_wf _ _ Hl) as Hwf.
  destruct fuel as [|fuel]; [destruct c; try discriminate; congruence|].
  destruct c as [elem|elem| | |]; simpl in Hrun; [| | | |congruence].
  - unfold push_back in Hrun. rewrite reserve_back_seq in Hrun.
    destruct (occupancy _ >? max_dist _) eqn:Hfull; cbn -[construct_in_fast] in Hrun.
    + unfold lock in Hrun. cbn in Hrun. rewrite Hfree in Hrun.
      injection Hrun as <- <-. exists l. split; [exact Hl|]. split; [reflexivity|].
      simpl. rewrite app_assoc. apply Permutation_cons_append.
    + destruct (construct_in_fast _ _ _ _) as [d'|] eqn:Hcons; [|discriminate].
      injection Hrun as <- <-.
      apply construct_in_fast_some in Hcons; [|exact Hwf]. subst d'.
      exists (l ++ [elem]). split; [exact (ring_holds_push_back (fast_deque_ q) l elem Hl Hfull)|].
      split; [exact Hfree|]. simpl. rewrite <- app_assoc.
      apply Permutation_middle.
  - unfold push_front in Hrun. rewrite reserve_front_seq in Hrun.
    destruct (occupancy _ >? max_dist _) eqn:Hfull; cbn -[construct_in_fast] in Hrun.
    + unfold lock in Hrun. cbn in Hrun. rewrite Hfree in Hrun.
      injection Hrun as <- <-. exists l. split; [exact Hl|]. split; [reflexivity|].
      simpl. apply Permutation_middle.
    + destruct (construct_in_fast _ _ _ _) as [d'|] eqn:Hcons; [|discriminate].
      injection Hrun as <- <-.
      apply construct_in_fast_some in Hcons; [|exact Hwf]. subst d'.
      exists (elem :: l). split; [exact (ring_holds_push_front (fast_deque_ q) l elem Hl Hfull)|].
      split; [exact Hfree|]. reflexivity.
  - destruct (start (range (fast_deque_ q)) =? end_ (range (fast_deque_ q))) eqn:Hempty.
    + rewrite try_pop_front_slow in Hrun by exact Hempty. rewrite Hfree in Hrun.
      destruct (num_elements_slow_ q >? 0).
      * destruct (slow_access_elems_ q) as [|x rest] eqn:Hslow;
          injection Hrun as <- <-; exists l; simpl.
        -- rewrite ?Hslow. split; [exact Hl|]. split; [exact Hfree|]. reflexivity.
        -- split; [exact Hl|]. split; [reflexivity|].
           symmetry. apply Permutation_middle.
      * injection Hrun as <- <-. exists l. split; [exact Hl|]. split; [exact Hfree|]. reflexivity.
    + unfold try_pop_front in Hrun. rewrite consume_front_seq, Hempty in Hrun.
      cbn -[extract_from_fast] in Hrun.
      destruct (extract_from_fast _ _ _ _ _) as [[elem' d']|] eqn:Hext; [|discriminate].
      injection Hrun as <- <-.
      apply extract_from_fast_some in Hext as (item & Hitem & -> & ->); [|exact Hwf].
      destruct (ring_holds_pop_front moved_from _ l Hl Hempty)
        as (item' & l' & Hitem' & -> & Hl').
      change (circular_buffer_ (fast_deque_ q) !!
                slot_of (fast_deque_ q) (start (range (fast_deque_ q))) = Some item)
        in Hitem.
      rewrite Hitem in Hitem'. injection Hitem' as <-.
      exists l'. split; [exact Hl'|]. split; [exact Hfree|]. reflexivity.
  - destruct (start (range (fast_deque_ q)) =? end_ (range (fast_deque_ q))) eqn:Hempty.
    + rewrite try_pop_back_slow in Hrun by exact Hempty. rewrite Hfree in Hrun.
      destruct (num_elements_slow_ q >? 0).
      * destruct (last (slow_access_elems_ q)) as [x|] eqn:Hslow;
          injection Hrun as <- <-; exists l; simpl.
        -- split; [exact Hl|]. split; [reflexivity|].
           apply last_Some in Hslow as [sl ->]. rewrite removelast_last.
           rewrite app_assoc. symmetry. apply Permutation_cons_append.
        -- split; [exact Hl|]. split; [exact Hfree|]. reflexivity.
      * injection Hrun as <- <-. exists l. split; [exact Hl|]. split; [exact Hfree|]. reflexivity.
    + unfold try_pop_back in Hrun. rewrite consume_back_seq, Hempty in Hrun.
      cbn -[extract_from_fast] in Hrun.
      destruct (extract_from_fast _ _ _ _ _) as [[elem' d']|] eqn:Hext; [|discriminate].
      injection Hrun as <- <-.
      apply extract_from_fast_some in Hext as (item & Hitem & -> & ->); [|exact Hwf].
      destruct (ring_holds_pop_back moved_from _ l Hl Hempty)
        as (item' & l' & Hitem' & -> & Hl').
      change (circular_buffer_ (fast_deque_ q) !!
                slot_of (fast_deque_ q) (uint16 (end_ (range (fast_deque_ q)) - 1))
              = Some item) in Hitem.
      rewrite Hitem in Hitem'. injection Hitem' as <-.
      exists l'. split; [exact Hl'|]. split; [exact Hfree|].
      simpl. rewrite <- app_assoc. symmetry. apply Permutation_middle.
Qed.

(** Every call that returns leaves the deque well formed. *)
Lemma run_call_wf fuel q c o q' :
  dequeue_wf q ->
  run_call moved_from default_elem fuel q c = Some (o, q') ->
  dequeue_wf q'.
Proof.
  intros [Hwf Hfree] Hrun.
  destruct fuel as [|fuel];
    [destruct c; try discriminate; injection Hrun as _ <-;
     split; [apply ring_wf_clear; exact Hwf|exact Hfree]|].
  destruct c as [elem|elem| | |]; simpl in Hrun.
  - unfold push_back in Hrun. rewrite reserve_back_seq in Hrun.
    destruct (occupancy _ >? max_dist _); cbn -[construct_in_fast] in Hrun.
    + unfold lock in Hrun. cbn in Hrun. rewrite Hfree in Hrun.
      injection Hrun as _ <-. split; [exact Hwf|reflexivity].
    + destruct (construct_in_fast _ _ _ _) as [d'|] eqn:Hcons; [|discriminate].
      injection Hrun as _ <-.
      apply construct_in_fast_some in Hcons; [|exact Hwf]. subst d'.
      split; [|exact Hfree].
      apply (ring_wf_with_buffer (with_fast_range _ _)). exact Hwf.
  - unfold push_front in Hrun. rewrite reserve_front_seq in Hrun.
    destruct (occupancy _ >? max_dist _); cbn -[construct_in_fast] in Hrun.
    + unfold lock in Hrun. cbn in Hrun. rewrite Hfree in Hrun.
      injection Hrun as _ <-. split; [exact Hwf|reflexivity].
    + destruct (construct_in_fast _ _ _ _) as [d'|] eqn:Hcons; [|discriminate].
      injection Hrun as _ <-.
      apply construct_in_fast_some in Hcons; [|exact Hwf]. subst d'.
      split; [|exact Hfree].
      apply (ring_wf_with_buffer (with_fast_range _ _)). exact Hwf.
  - destruct (start (range (fast_deque_ q)) =? end_ (range (fast_deque_ q))) eqn:Hempty.
    + rewrite try_pop_front_slow in Hrun by exact Hempty. rewrite Hfree in Hrun.
      destruct (num_elements_slow_ q >? 0);
        [destruct (slow_access_elems_ q)|]; injection Hrun as _ <-;
        split; solve [exact Hwf | exact Hfree | reflexivity].
    + unfold try_pop_front in Hrun. rewrite consume_front_seq, Hempty in Hrun.
      cbn -[extract_from_fast] in Hrun.
      destruct (extract_from_fast _ _ _ _ _) as [[elem' d']|] eqn:Hext; [|discriminate].
      injection Hrun as _ <-.
      apply extract_from_fast_some in Hext as (item & _ & _ & ->); [|exact Hwf].
      split; [|exact Hfree].
      apply (ring_wf_with_buffer (with_fast_range _ _)). exact Hwf.
  - destruct (start (range (fast_deque_ q)) =? end_ (range (fast_deque_ q))) eqn:Hempty.
    + rewrite try_pop_back_slow in Hrun by exact Hempty. rewrite Hfree in Hrun.
      destruct (num_elements_slow_ q >? 0);
        [destruct (last (slow_access_elems_ q))|]; injection Hrun as _ <-;
        split; solve [exact Hwf | exact Hfree | reflexivity].
    + unfold try_pop_back in Hrun. rewrite consume_back_seq, Hempty in Hrun.
      cbn -[extract_from_fast] in Hrun.
      destruct (extract_from_fast _ _ _ _ _) as [[elem' d']|] eqn:Hext; [|discriminate].
      injection Hrun as _ <-.
      apply extract_from_fast_some in Hext as (item & _ & _ & ->); [|exact Hwf].
      split; [|exact Hfree].
      apply (ring_wf_with_buffer (with_fast_range _ _)). exact Hwf.
  - injection Hrun as _ <-. split; [apply ring_wf_clear; exact Hwf|exact Hfree].
Qed.

(** Every state a deque reaches is well formed, unless the sixteen low bits of
    the size it was constructed with are all zero. *)
Lemma dequeue_reachable_wf (expected_size : Z) q :
  0 <= expected_size -> 0 < uint16 expected_size ->
  dequeue_reachable moved_from default_elem expected_size q ->
  dequeue_wf q.
Proof.
  intros Hnn Hpos Hreach. unfold dequeue_reachable in Hreach. revert q Hreach.
  apply rtc_ind_r.
  - apply make_dequeue_wf; assumption.
  - intros q1 q2 _ (fuel & c & o & Hrun) IH. exact (run_call_wf fuel q1 c o q2 IH Hrun).
Qed.

Lemma pushed_elems_cons (o : @outcome T) os :
  pushed_elems (o :: os) = pushed_elems [o] ++ pushed_elems os.
Proof. destruct o; reflexivity. Qed.

Lemma popped_elems_cons (o : @outcome T) os :
  popped_elems (o :: os) = popped_elems [o] ++ popped_elems os.
Proof. destruct o; reflexivity. Qed.

Lemma run_calls_holds fuel cs : forall q l os q',
  ring_holds (fast_deque_ q) l ->
  bottleneck_ q = false ->
  UnsafeClear ∉ cs ->
  run_calls moved_from default_elem fuel q cs = Some (os, q') ->
  exists l',
    ring_holds (fast_deque_ q') l' /\ bottleneck_ q' = false /\
    pushed_elems os ++ l ++ slow_access_elems_ q ≡ₚ
    popped_elems os ++ l' ++ slow_access_elems_ q'.
Proof.
  induction cs as [|c cs IH]; intros q l os q' Hl Hfree Hclear Hrun; simpl in Hrun.
  - injection Hrun as <- <-. exists l. split; [exact Hl|]. split; [exact Hfree|].
    reflexivity.
  - destruct (run_call _ _ fuel q c) as [[o q1]|] eqn:Hcall; [|discriminate].
    simpl in Hrun.
    destruct (run_calls _ _ fuel q1 cs) as [[os1 q2]|] eqn:Hrest; [|discriminate].
    injection Hrun as <- <-.
    apply not_elem_of_cons in Hclear as [Hc Hcs].
    destruct (run_call_holds fuel q c o q1 l Hl Hfree (not_eq_sym Hc) Hcall)
      as (l1 & Hl1 & Hfree1 & Hperm1).
    destruct (IH q1 l1 os1 q2 Hl1 Hfree1 Hcs Hrest) as (l2 & Hl2 & Hfree2 & Hperm2).
    exists l2. split; [exact Hl2|]. split; [exact Hfree2|].
    rewrite pushed_elems_cons, popped_elems_cons, <- !app_assoc.
    rewrite Permutation_app_swap_app, Hperm1.
    rewrite Permutation_app_swap_app, Hperm2. reflexivity.
Qed.

Lemma make_dequeue_holds (expected_size : Z) :
  0 <= expected_size -> 3 <= uint16 expected_size ->
  (uint16 expected_size | 65536) ->
  ring_holds (fast_deque_ (make_dequeue default_elem expected_size)) [].
Proof.
  intros Hnn Hsize Hdiv. pose proof (uint16_range expected_size).
  destruct (make_dequeue_wf default_elem expected_size Hnn ltac:(lia)) as [Hwf _].
  split; try assumption.
  - simpl. lia.
  - replace (occupancy _) with 0 by reflexivity. simpl. lia.
  - reflexivity.
  - intros i x Hx. discriminate.
Qed.

Lemma run_call_returns fuel q c :
  dequeue_wf q ->
  exists o q', run_call moved_from default_elem (S (S fuel)) q c = Some (o, q') /\
               dequeue_wf q'.
Proof.
  intros Hwf. destruct c as [elem|elem| | |]; cbn [run_call].
  - destruct (push_back_returns fuel q elem Hwf) as (q' & -> & Hwf' & _).
    eexists _, _. split; [reflexivity|exact Hwf'].
  - destruct (push_front_returns fuel q elem Hwf) as (q' & -> & Hwf' & _).
    eexists _, _. split; [reflexivity|exact Hwf'].
  - destruct (try_pop_front_returns moved_from fuel q default_elem Hwf)
      as (ok & out & q' & -> & Hwf' & _).
    eexists _, _. split; [reflexivity|exact Hwf'].
  - destruct (try_pop_back_returns moved_from fuel q default_elem Hwf)
      as (ok & out & q' & -> & Hwf' & _).
    eexists _, _. split; [reflexivity|exact Hwf'].
  - eexists _, _. split; [reflexivity|].
    destruct Hwf as [Hring Hfree]. split; [apply ring_wf_clear; exact Hring|exact Hfree].
Qed.

Lemma run_calls_returns fuel cs : forall q,
  dequeue_wf q ->
  exists os q', run_calls moved_from default_elem (S (S fuel)) q cs = Some (os, q') /\
                dequeue_wf q'.
Proof.
  induction cs as [|c cs IH]; intros q Hwf.
  - exists [], q. split; [reflexivity|exact Hwf].
  - destruct (run_call_returns fuel q c Hwf) as (o & q1 & Hcall & Hwf1).
    destruct (IH q1 Hwf1) as (os & q2 & Hrest & Hwf2).
    exists (o :: os), q2. split; [|exact Hwf2].
    cbn [run_calls]. rewrite Hcall. cbn. rewrite Hrest. reflexivity.
Qed.

(** X11: a deque whose ring has a size that divides [2^16] (and at least
    three slots) answers every sequence of pushes and pops, and the elements
    popped together with those it still holds are the elements pushed. *)
Theorem dequeue_keeps_elements (expected_size : Z) (fuel : nat) (cs : list call) :
  0 <= expected_size -> 3 <= uint16 expected_size ->
  (uint16 expected_size | 65536) ->
  UnsafeClear ∉ cs ->
  (2 <= fuel)%nat ->
  exists os q,
    run_calls moved_from default_elem fuel (make_dequeue default_elem expected_size) cs
      = Some (os, q) /\
    pushed_elems os ≡ₚ popped_elems os ++ resident q.
Proof.
  intros Hnn Hsize Hdiv Hclear Hfuel. destruct fuel as [|[|fuel]]; [lia|lia|].
  pose proof (uint16_range expected_size).
  destruct (run_calls_returns fuel cs (make_dequeue default_elem expected_size))
    as (os & q & Hrun & _); [apply make_dequeue_wf; lia|].
  exists os, q. split; [exact Hrun|].
  destruct (run_calls_holds _ cs _ [] os q
              (make_dequeue_holds expected_size Hnn Hsize Hdiv) eq_refl Hclear Hrun)
    as (l & Hl & _ & Hperm).
  simpl in Hperm. rewrite app_nil_r in Hperm.
  unfold resident. rewrite (ring_holds_elems _ l Hl). exact Hperm.
Qed.

End dequeue_keeps.

(** The same calls as below, on a deque of four slots. *)
Lemma dequeue_of_four_keeps :
  exists q,
    run_calls (fun x => x) 0 2 (make_dequeue 0 4)
      [PushFront 1; PushBack 2; TryPopFront; TryPopFront; TryPopFront]
    = Some ([Pushed 1; Pushed 2; Popped 1; Popped 2; Empty], q) /\
    resident q = [].
Proof. eexists. split; vm_compute; reflexivity. Qed.

(** C5, the code at a deque of five slots: positions 65535 and 0 share slot
    0, so the element pushed at the front is overwritten by the one pushed at
    the back, which is then popped twice. *)
Theorem dequeue_of_five_pops_twice :
  exists q,
    run_calls (fun x => x) 0 2 (make_dequeue 0 5)
      [PushFront 1; PushBack 2; TryPopFront; TryPopFront; TryPopFront]
    = Some ([Pushed 1; Pushed 2; Popped 2; Popped 2; Empty], q) /\
    occupancy (fast_deque_ q) = 0 /\ slow_access_elems_ q = [] /\
    slot_index (fast_deque_ (make_dequeue 0 5)) 65535 = Some 0%nat /\
    slot_index (fast_deque_ (make_dequeue 0 5)) 0 = Some 0%nat.
Proof.
  eexists. split; [vm_compute; reflexivity|]. repeat split.
Qed.

(** ** Properties of the spawn API *)

Section spawn_claims.

Import Spawn.

Context {task_function : Type}.

Implicit Types (w : @world task_function) (ftors : list task_function).

Lemma add_calls_nil w : add_calls w [] = w.
Proof. destruct w. unfold add_calls. simpl. rewrite app_nil_r. reflexivity. Qed.

Lemma add_calls_tsys w c cs : add_calls (tsys c w) cs = add_calls w (c :: cs).
Proof. unfold add_calls, tsys. simpl. rewrite <- app_assoc. reflexivity. Qed.

Lemma new_calls_add_calls w cs : new_calls w (add_calls w cs) = cs.
Proof. unfold new_calls, add_calls. simpl. apply drop_app_length. Qed.

(** While [count] is at least the number of functors left, every round of
    either loop computes [true]. *)
Lemma spawn_loop_wakes grp wake ftors : forall count w,
  Z.of_nat (length ftors) <= count < 2147483648 ->
  spawn_loop grp wake count ftors w =
  add_calls w ((fun f => Spawn {| task_fn := f; task_grp := grp |} true) <$> ftors).
Proof.
  induction ftors as [|f rest IH]; intros count w Hcount; simpl in *.
  - symmetry. apply add_calls_nil.
  - destruct (Z.gtb_spec count 0) as [_|]; [|lia]. simpl.
    rewrite int32_small by lia. rewrite IH by lia. apply add_calls_tsys.
Qed.

Lemma spawn_and_wait_loop_wakes grp ftors : forall count w,
  Z.of_nat (length ftors) <= count < 2147483648 ->
  spawn_and_wait_loop grp count ftors w =
  add_calls w ((fun f => Spawn {| task_fn := f; task_grp := grp |} true) <$> ftors).
Proof.
  induction ftors as [|f rest IH]; intros count w Hcount; simpl in *.
  - symmetry. apply add_calls_nil.
  - destruct (Z.gtb_spec count 0) as [_|]; [|lia].
    rewrite int32_small by lia. rewrite IH by lia. apply add_calls_tsys.
Qed.

(** Whatever [count] is, the tasks of either loop are the functors in their
    order, all of the group [grp]. *)
Lemma spawn_loop_tasks grp wake ftors : forall count w,
  exists wakes, length wakes = length ftors /\
    spawn_loop grp wake count ftors w =
    add_calls w (zip_with (fun f b => Spawn {| task_fn := f; task_grp := grp |} b)
                   ftors wakes).
Proof.
  induction ftors as [|f rest IH]; intros count w; simpl.
  - exists []. split; [reflexivity|]. symmetry. apply add_calls_nil.
  - destruct (IH (int32 (count - 1))
                (tsys (Spawn {| task_fn := f; task_grp := grp |} ((count >? 0) || wake)) w))
      as (wakes & Hlen & ->).
    exists (((count >? 0) || wake) :: wakes). split; [simpl; congruence|].
    apply add_calls_tsys.
Qed.

Lemma spawn_and_wait_loop_tasks grp ftors : forall count w,
  exists wakes, length wakes = length ftors /\
    spawn_and_wait_loop grp count ftors w =
    add_calls w (zip_with (fun f b => Spawn {| task_fn := f; task_grp := grp |} b)
                   ftors wakes).
Proof.
  induction ftors as [|f rest IH]; intros count w; simpl.
  - exists []. split; [reflexivity|]. symmetry. apply add_calls_nil.
  - destruct (IH (int32 (count - 1))
                (tsys (Spawn {| task_fn := f; task_grp := grp |} (count >? 0)) w))
      as (wakes & Hlen & ->).
    exists ((count >? 0) :: wakes). split; [simpl; congruence|].
    apply add_calls_tsys.
Qed.

(** C6: [spawn({f1, ..., fn}, wake)] hands the n tasks to the task system in
    the order of the list, each with [wake_workers = true], whatever [wake]
    is; so the calls made do not depend on [wake]. *)
Theorem spawn_list_wakes_every_task ftors (wake : bool) w :
  Z.of_nat (length ftors) < 2147483648 ->
  new_calls w (spawn_list ftors wake w) =
    (fun f => Spawn {| task_fn := f; task_grp := current_task_group w |} true) <$> ftors /\
  spawn_list ftors wake w = spawn_list ftors (negb wake) w.
Proof.
  intros Hlen. unfold spawn_list.
  rewrite int32_small by lia.
  rewrite !spawn_loop_wakes by lia.
  split; [apply new_calls_add_calls|reflexivity].
Qed.

Lemma spawned_zip_with grp ftors : forall wakes : list bool,
  length wakes = length ftors ->
  fst <$> spawned (zip_with (fun f b => Spawn {| task_fn := f; task_grp := grp |} b)
                     ftors wakes) =
  (fun f => {| task_fn := f; task_grp := grp |}) <$> ftors.
Proof.
  induction ftors as [|f rest IH]; intros [|b wakes] Hlen; simpl in *;
    try reflexivity; try discriminate.
  f_equal. apply IH. congruence.
Qed.

Lemma spawn_and_wait_list_calls ftors (wake : bool) w :
  exists wakes, length wakes = length ftors /\
    spawn_and_wait_list ftors wake w =
    {| group_parents := group_parents w ++ [current_task_group w];
       current_task_group := current_task_group w;
       tsys_calls :=
         tsys_calls w ++
         EnterWorker ::
         zip_with (fun f b =>
                     Spawn {| task_fn := f;
                              task_grp := Some (length (group_parents w)) |} b)
           ftors wakes ++
         [BusyWaitOn (Some (length (group_parents w))); ExitWorker] |}.
Proof.
  unfold spawn_and_wait_list. cbn [create tsys group_parents current_task_group tsys_calls].
  match goal with
  | |- context [spawn_and_wait_loop ?g ?c ftors ?w0] =>
      destruct (spawn_and_wait_loop_tasks g ftors c w0) as (wakes & Hlen & ->)
  end.
  exists wakes. split; [exact Hlen|].
  unfold tsys, add_calls. simpl. f_equal.
  rewrite <- !app_assoc. reflexivity.
Qed.

(** [spawn_and_wait] on a list wakes workers for every task, the last
    included. *)
Lemma spawn_and_wait_list_wakes_all ftors (wake : bool) w :
  Z.of_nat (length ftors) < 2147483648 ->
  spawned (new_calls w (spawn_and_wait_list ftors wake w)) =
  (fun f => ({| task_fn := f; task_grp := Some (length (group_parents w)) |}, true))
    <$> ftors.
Proof.
  intros Hlen. unfold spawn_and_wait_list.
  cbn [create tsys group_parents current_task_group tsys_calls].
  rewrite int32_small by lia. rewrite spawn_and_wait_loop_wakes by (simpl; lia).
  unfold new_calls, tsys, add_calls. simpl.
  rewrite <- !app_assoc, drop_app_length. simpl.
  unfold spawned. rewrite omap_app. simpl. rewrite app_nil_r.
  clear Hlen. induction ftors as [|f rest IH]; [reflexivity|].
  simpl. f_equal. exact IH.
Qed.

(** C8: the task [spawn(ftor, wake)] hands to the task system is of the
    calling thread's current task group; the task of [spawn_and_wait(ftor)]
    is of a group that did not exist before the call and whose parent is the
    current task group. The same holds for every task of the initializer-list
    overloads. *)
Theorem spawned_tasks_inherit_group (ftor : task_function) ftors (wake : bool) w :
  let g := current_task_group w in
  let g' := Some (length (group_parents w)) in
  new_calls w (spawn ftor wake w) = [Spawn {| task_fn := ftor; task_grp := g |} wake] /\
  spawned (new_calls w (spawn_and_wait ftor w)) =
    [({| task_fn := ftor; task_grp := g' |}, false)] /\
  parent_of w g' = None /\
  parent_of (spawn_and_wait ftor w) g' = Some g /\
  fst <$> spawned (new_calls w (spawn_list ftors wake w)) =
    (fun f => {| task_fn := f; task_grp := g |}) <$> ftors /\
  fst <$> spawned (new_calls w (spawn_and_wait_list ftors wake w)) =
    (fun f => {| task_fn := f; task_grp := g' |}) <$> ftors /\
  parent_of (spawn_and_wait_list ftors wake w) g' = Some g.
Proof.
  intros g g'. repeat split.
  - unfold spawn, new_calls, tsys. simpl. apply drop_app_length.
  - unfold spawn_and_wait, new_calls, tsys. simpl.
    rewrite <- !app_assoc. rewrite drop_app_length. reflexivity.
  - unfold parent_of, g'. simpl. apply lookup_ge_None. lia.
  - unfold parent_of, g', spawn_and_wait, tsys. simpl.
    apply list_lookup_middle. reflexivity.
  - unfold spawn_list.
    match goal with
    | |- context [spawn_loop ?g0 ?wk ?c ftors ?w0] =>
        destruct (spawn_loop_tasks g0 wk ftors c w0) as (wakes & Hlen & ->)
    end.
    rewrite new_calls_add_calls. apply spawned_zip_with. exact Hlen.
  - destruct (spawn_and_wait_list_calls ftors wake w) as (wakes & Hlen & ->).
    unfold new_calls. simpl. rewrite drop_app_length. simpl.
    unfold spawned. rewrite omap_app. simpl. rewrite app_nil_r.
    apply spawned_zip_with. exact Hlen.
  - destruct (spawn_and_wait_list_calls ftors wake w) as (wakes & Hlen & ->).
    unfold parent_of, g'. simpl. apply list_lookup_middle. reflexivity.
Qed.

End spawn_claims.

(** C7, the code on a list of three functors: the last task is handed over
    with [wake_workers = true], like the two before it. *)
Theorem spawn_and_wait_list_wakes_last :
  let w := {| Spawn.group_parents := []; Spawn.current_task_group := None;
              Spawn.tsys_calls := [] |} in
  Spawn.spawned (Spawn.tsys_calls (Spawn.spawn_and_wait_list [1; 2; 3]%nat true w)) =
    [({| Spawn.task_fn := 1%nat; Spawn.task_grp := Some 0%nat |}, true);
     ({| Spawn.task_fn := 2%nat; Spawn.task_grp := Some 0%nat |}, true);
     ({| Spawn.task_fn := 3%nat; Spawn.task_grp := Some 0%nat |}, true)].
Proof. reflexivity. Qed.

Lemma spawn_list_wakes_every_task_witness :
  Z.of_nat (length [1; 2]%nat) < 2147483648 /\
  let w := {| Spawn.group_parents := []; Spawn.current_task_group := None;
              Spawn.tsys_calls := [] |} in
  Spawn.new_calls w (Spawn.spawn_list [1; 2]%nat false w) =
    [Spawn.Spawn {| Spawn.task_fn := 1%nat; Spawn.task_grp := None |} true;
     Spawn.Spawn {| Spawn.task_fn := 2%nat; Spawn.task_grp := None |} true].
Proof.
  split; [simpl; lia|].
  exact (proj1 (spawn_list_wakes_every_task [1; 2]%nat false
                  {| Spawn.group_parents := []; Spawn.current_task_group := None;
                     Spawn.tsys_calls := [] |} ltac:(simpl; lia))).
Defined.

(** ** Properties of the rw_serializer *)

Section rw_serializer_claims.

Import RWSerializer.

Context {task : Type} `{EqDecision task}.

Implicit Types (s : @state task) (l : list (kind * task)) (t : task).

Local Open Scope nat_scope.

Lemma of_kind_app k l1 l2 : of_kind k (l1 ++ l2) = of_kind k l1 ++ of_kind k l2.
Proof. apply omap_app. Qed.

Lemma of_kind_reads k (ts : list task) :
  of_kind k ((fun t => (READ, t)) <$> ts) = match k with READ => ts | WRITE => [] end.
Proof.
  destruct k; induction ts as [|t ts IH]; try reflexivity.
  - change (t :: of_kind READ ((fun t => (READ, t)) <$> ts) = t :: ts). f_equal. exact IH.
  - exact IH.
Qed.

(** A task that completes was running, and only it leaves. *)
Lemma of_kind_cons_same k t l : of_kind k ((k, t) :: l) = t :: of_kind k l.
Proof. destruct k; reflexivity. Qed.

Lemma of_kind_cons_other k k1 t l : k <> k1 -> of_kind k ((k1, t) :: l) = of_kind k l.
Proof. destruct k, k1; intros Hne; try congruence; reflexivity. Qed.

Lemma finish_of_kind k t l r :
  finish k t l = Some r ->
  length (of_kind k l) = S (length (of_kind k r)) /\
  forall k', k' <> k -> of_kind k' r = of_kind k' l.
Proof.
  revert r. induction l as [|[k1 t1] l IH]; intros r Hfin; [discriminate|].
  assert (Hrec : forall r', finish k t l = Some r' -> r = (k1, t1) :: r' ->
            length (of_kind k ((k1, t1) :: l)) = S (length (of_kind k r)) /\
            forall k', k' <> k -> of_kind k' r = of_kind k' ((k1, t1) :: l)).
  { intros r' Hr' ->. destruct (IH r' Hr') as [IH1 IH2]. split.
    - destruct (decide (k = k1)) as [<-|Hk1].
      + rewrite !of_kind_cons_same. simpl. lia.
      + rewrite !of_kind_cons_other by exact Hk1. exact IH1.
    - intros k' Hk. specialize (IH2 k' Hk).
      destruct (decide (k' = k1)) as [<-|Hk1].
      + rewrite !of_kind_cons_same. congruence.
      + rewrite !of_kind_cons_other by exact Hk1. exact IH2. }
  simpl in Hfin.
  destruct k, k1; try destruct (decide (t = t1)) as [Heq|Hne];
    try (injection Hfin as <-; split;
         [rewrite of_kind_cons_same; reflexivity
         | intros k' Hk; apply eq_sym, of_kind_cons_other; exact Hk]);
    destruct (finish _ t l) as [r'|]; try discriminate;
    injection Hfin as <-; exact (Hrec r' eq_refl eq_refl).
Qed.

Lemma consistent_init : consistent (@init task).
Proof. split; simpl; try reflexivity; lia. Qed.

Lemma length_zero_nil {A} (l : list A) : length l = 0 -> l = [].
Proof. destruct l; [reflexivity|discriminate]. Qed.

Lemma started_reads (ts : list task) :
  omap (fun x : executor * kind * task =>
          match x with (_, WRITE, t) => Some t | _ => None end)
       ((fun t => (base_executor, READ, t)) <$> ts) = [].
Proof. induction ts as [|t ts IH]; [reflexivity|exact IH]. Qed.

(** Starting the next writer when nothing runs. *)
Lemma start_next_writer_idle s :
  writers_pending s = length (pending_writes s) ->
  writers_running s = 0 -> readers_running s = 0 ->
  running_of WRITE s = [] -> running_of READ s = [] ->
  consistent (start_next_writer s) /\
  writes_started (start_next_writer s) ++ pending_writes (start_next_writer s) =
  writes_started s ++ pending_writes s.
Proof.
  intros Hp Hw Hr Hrw Hrr. unfold start_next_writer.
  destruct (pending_writes s) as [|t rest] eqn:Hpend.
  - split; [|rewrite Hpend; reflexivity].
    split; rewrite ?Hrw, ?Hrr, ?Hpend; simpl in *; lia.
  - split.
    + unfold running_of in *.
      split; unfold running_of; simpl; rewrite ?of_kind_app, ?Hrw, ?Hrr;
        simpl in *; lia.
    + unfold writes_started. simpl. rewrite omap_app. simpl.
      rewrite <- app_assoc. reflexivity.
Qed.

(** Every step keeps the state consistent, and moves a WRITE task from the
    waiting list to the executor only from the head of the list. *)
Lemma step_consistent s e s' :
  consistent s -> step s e = Some s' ->
  consistent s' /\
  writes_started s' ++ pending_writes s' =
  (writes_started s ++ pending_writes s) ++ writes_enqueued [e].
Proof.
  intros [Hp Hw Hr H1 Ha] Hstep. destruct e as [t|t|t|t]; simpl in Hstep.
  - injection Hstep as <-. unfold enqueue_write. cbn [writers_running readers_running].
    destruct (Nat.eqb_spec (writers_running s) 0) as [Hw0|Hw0];
      [destruct (Nat.eqb_spec (readers_running s) 0) as [Hr0|Hr0]|]; cbn [andb].
    + match goal with
      | |- context [start_next_writer ?s1] =>
          destruct (start_next_writer_idle s1) as [Hc Ho]
      end;
        try solve [ simpl; unfold running_of in *; simpl;
                    first [ rewrite ?length_app; simpl in *; lia
                          | apply length_zero_nil; lia ] ].
      split; [exact Hc|]. rewrite Ho. unfold writes_started. simpl.
      rewrite <- app_assoc. reflexivity.
    + split; [split; unfold running_of in *; simpl; rewrite ?length_app; simpl in *; lia|].
      unfold writes_started. simpl. rewrite <- app_assoc. reflexivity.
    + split; [split; unfold running_of in *; simpl; rewrite ?length_app; simpl in *; lia|].
      unfold writes_started. simpl. rewrite <- app_assoc. reflexivity.
  - injection Hstep as <-. unfold enqueue_read.
    destruct (_ && _) eqn:Hcond.
    + apply andb_true_iff in Hcond as [Hw0 Hp0].
      apply Nat.eqb_eq in Hw0. apply Nat.eqb_eq in Hp0.
      split.
      * split; unfold running_of in *; simpl; rewrite ?of_kind_app; simpl;
          rewrite ?length_app; simpl in *; lia.
      * unfold writes_started. simpl. rewrite omap_app. simpl.
        rewrite !app_nil_r. reflexivity.
    + split; [split; unfold running_of in *; simpl in *; lia|].
      unfold writes_started. simpl. rewrite app_nil_r. reflexivity.
  - unfold write_done in Hstep.
    destruct (finish WRITE t (running s)) as [r|] eqn:Hfin; [|discriminate].
    simpl in Hstep. apply finish_of_kind in Hfin as [Hlen Hother].
    specialize (Hother READ ltac:(discriminate)).
    unfold running_of in *.
    assert (Hwr : of_kind WRITE r = []) by (apply length_zero_nil; lia).
    assert (Hrr : of_kind READ r = []) by (apply length_zero_nil; rewrite Hother; lia).
    rewrite app_nil_r.
    destruct (pending_writes s) as [|t0 rest] eqn:Hpend.
    + destruct (pending_reads s) as [|t1 reads] eqn:Hreads; injection Hstep as <-.
      * split; [|unfold writes_started; simpl; rewrite ?Hpend; reflexivity].
        split; unfold running_of; simpl; rewrite ?Hwr, ?Hrr, ?Hpend; simpl in *; lia.
      * split.
        -- split; unfold running_of, drain_reads;
             cbn [running writers_running readers_running writers_pending
                  pending_writes pending_reads];
             rewrite ?of_kind_app, ?of_kind_reads, ?Hwr, ?Hrr, ?Hpend, ?Hreads;
             simpl in *; lia.
        -- unfold writes_started, drain_reads. cbn [submitted pending_writes pending_reads].
           rewrite ?Hpend, ?Hreads, omap_app, (started_reads (t1 :: reads)).
           rewrite !app_nil_r. reflexivity.
    + injection Hstep as <-.
      match goal with
      | |- context [start_next_writer ?s1] =>
          destruct (start_next_writer_idle s1) as [Hc Ho]
      end;
        try solve [ simpl; unfold running_of; simpl;
                    first [ assumption | simpl in *; lia ] ].
      split; [exact Hc|]. rewrite Ho. unfold writes_started. simpl.
      rewrite ?Hpend. reflexivity.
  - unfold read_done in Hstep.
    destruct (finish READ t (running s)) as [r|] eqn:Hfin; [|discriminate].
    simpl in Hstep. apply finish_of_kind in Hfin as [Hlen Hother].
    specialize (Hother WRITE ltac:(discriminate)).
    unfold running_of in *. rewrite app_nil_r.
    destruct (Nat.eqb_spec (readers_running s - 1) 0) as [Hr0|Hr0];
      injection Hstep as <-.
    + match goal with
      | |- context [start_next_writer ?s1] =>
          destruct (start_next_writer_idle s1) as [Hc Ho]
      end;
        try solve [ simpl; unfold running_of; simpl;
                    first [ assumption | simpl in *; lia
                          | apply length_zero_nil; rewrite ?Hother; lia ] ].
      split; [exact Hc|]. rewrite Ho. reflexivity.
    + split; [|reflexivity].
      split; unfold running_of; simpl; rewrite ?Hother; lia.
Qed.

Lemma run_consistent es : forall s s',
  consistent s -> run s es = Some s' ->
  consistent s' /\
  writes_started s' ++ pending_writes s' =
  (writes_started s ++ pending_writes s) ++ writes_enqueued es.
Proof.
  induction es as [|e es IH]; intros s s' Hc Hrun; simpl in Hrun.
  - injection Hrun as <-. split; [exact Hc|]. simpl. rewrite app_nil_r. reflexivity.
  - destruct (step s e) as [s1|] eqn:Hstep; [|discriminate]. simpl in Hrun.
    destruct (step_consistent s e s1 Hc Hstep) as [Hc1 Ho1].
    destruct (IH s1 s' Hc1 Hrun) as [Hc' Ho']. split; [exact Hc'|].
    rewrite Ho', Ho1, <- !app_assoc. f_equal. f_equal.
    unfold writes_enqueued. destruct e; reflexivity.
Qed.

(** C1: whatever is enqueued on the two executors and whichever running
    tasks complete, in whatever order, at most one WRITE task is running, no
    READ task is running while a WRITE task is, and the WRITE tasks have been
    handed to the executor in the order of their enqueueing: those started so
    far, followed by those still waiting, are the WRITE tasks enqueued. *)
Theorem rw_serializer_guarantees (es : list event) s :
  run init es = Some s ->
  length (running_of WRITE s) <= 1 /\
  (running_of WRITE s <> [] -> running_of READ s = []) /\
  writes_started s ++ pending_writes s = writes_enqueued es.
Proof.
  intros Hrun.
  destruct (run_consistent es init s consistent_init Hrun) as [[Hp Hw Hr H1 Ha] Ho].
  split; [lia|]. split; [|exact Ho].
  intros Hne. apply length_zero_nil.
  destruct (running_of WRITE s) eqn:E; [congruence|]. simpl in *. lia.
Qed.

End rw_serializer_claims.

Lemma rw_serializer_guarantees_witness :
  let es := [RWSerializer.EnqueueRead 0; RWSerializer.EnqueueWrite 1;
             RWSerializer.EnqueueRead 2; RWSerializer.ReadDone 0;
             RWSerializer.EnqueueWrite 3; RWSerializer.WriteDone 1]%nat in
  exists s, RWSerializer.run RWSerializer.init es = Some s /\
    RWSerializer.running_of RWSerializer.WRITE s = [3%nat] /\
    RWSerializer.running_of RWSerializer.READ s = [] /\
    RWSerializer.pending_reads s = [2%nat] /\
    RWSerializer.writes_started s = [1; 3]%nat.
Proof.
  eexists. split; [reflexivity|].
  pose proof (rw_serializer_guarantees
                [RWSerializer.EnqueueRead 0; RWSerializer.EnqueueWrite 1;
                 RWSerializer.EnqueueRead 2; RWSerializer.ReadDone 0;
                 RWSerializer.EnqueueWrite 3; RWSerializer.WriteDone 1]%nat
                _ eq_refl) as (_ & Hreads & Horder).
  split; [reflexivity|]. split; [apply Hreads; discriminate|].
  split; [reflexivity|].
  rewrite app_nil_r in Horder. exact Horder.
Defined.

(** Below three slots the threshold of the reservations wraps around. *)
Lemma max_dist_wraps {T : Type} (d : @bounded_dequeue T) :
  0 <= size_ d < 3 -> max_dist d = size_ d + 65533.
Proof. intros H. unfold max_dist, uint16. Z.div_mod_to_equations. lia. Qed.

(** ** More about the index operations *)

Lemma pack_congr s e s' e' :
  uint16 s = uint16 s' -> uint16 e = uint16 e' -> pack s e = pack s' e'.
Proof. intros Hs He. unfold pack. rewrite Hs, He. reflexivity. Qed.

Lemma pack_range s e : 0 <= pack s e < 4294967296.
Proof.
  rewrite pack_sum. pose proof (uint16_range s). pose proof (uint16_range e). lia.
Qed.

(** A 32-bit value is the pair of its two halves. *)
Lemma pack_start_end v :
  0 <= v < 4294967296 ->
  pack (start {| int_value := v |}) (end_ {| int_value := v |}) = v.
Proof.
  intros Hv. rewrite pack_sum. unfold start, end_; simpl.
  rewrite Z.shiftr_div_pow2 by lia.
  change 65535 with (Z.ones 16). rewrite !Z.land_ones by lia.
  change (2 ^ 16) with 65536. unfold uint16.
  Z.div_mod_to_equations. lia.
Qed.

Section index_extras.

Context {T : Type}.

Implicit Types d : @bounded_dequeue T.

Lemma with_fast_range_twice d v v' :
  with_fast_range (with_fast_range d v) v' = with_fast_range d v'.
Proof. reflexivity. Qed.

(** X1: on a ring of [size_] slots ([3 <= size_]) that no other thread
    touches, [reserve_front] fails exactly when [uint16_t(end - start)]
    exceeds [size_ - 3], and otherwise stores [(start - 1, end)] and yields
    the new [start]; [consume_back] fails exactly when [start = end], and
    otherwise stores [(start, end - 1)] and yields the new [end]. Both wrap
    around modulo [2^16]; a failing call leaves the ring and [pos] alone. *)
Theorem reserve_front_consume_back_spec (fuel : nat) d (pos : Z) :
  (0 < fuel)%nat ->
  3 <= size_ d < 65536 ->
  let s := start (range d) in
  let e := end_ (range d) in
  reserve_front fuel d pos =
    Some (if uint16 (e - s) >? size_ d - 3 then (false, pos, d)
          else (true, uint16 (s - 1), with_fast_range d (pack (s - 1) e))) /\
  consume_back fuel d pos =
    Some (if s =? e then (false, pos, d)
          else (true, uint16 (e - 1), with_fast_range d (pack s (e - 1)))) /\
  start {| int_value := pack (s - 1) e |} = uint16 (s - 1) /\
  end_ {| int_value := pack (s - 1) e |} = e /\
  start {| int_value := pack s (e - 1) |} = s /\
  end_ {| int_value := pack s (e - 1) |} = uint16 (e - 1).
Proof.
  intros Hfuel Hsize s e. destruct fuel as [|fuel]; [lia|].
  pose proof (start_range (range d)) as Hs.
  pose proof (end_range (range d)) as He.
  rewrite reserve_front_seq, consume_back_seq.
  rewrite (max_dist_no_wrap d Hsize). fold s e.
  rewrite !start_pack, !end_pack.
  rewrite (uint16_small s), (uint16_small e) by (subst s e; lia).
  repeat split.
Qed.

(** X2: a reservation that succeeds is undone by the consumption at the same
    end: [reserve_back] then [consume_back], and [reserve_front] then
    [consume_front], yield the same position twice and leave the ring as it
    was. *)
Theorem reserve_then_consume_restores (fuel : nat) d (pos : Z) :
  (0 < fuel)%nat ->
  3 <= size_ d < 65536 ->
  0 <= fast_range_ d < 4294967296 ->
  occupancy d <= size_ d - 3 ->
  (exists p d1,
     reserve_back fuel d pos = Some (true, p, d1) /\
     consume_back fuel d1 pos = Some (true, p, d)) /\
  (exists p d1,
     reserve_front fuel d pos = Some (true, p, d1) /\
     consume_front fuel d1 pos = Some (true, p, d)).
Proof.
  intros Hfuel Hsize Hrange Hroom. destruct fuel as [|fuel]; [lia|].
  pose proof (start_range (range d)) as Hs.
  pose proof (end_range (range d)) as He.
  pose proof (occupancy_range d) as Ho.
  pose proof (max_dist_no_wrap d Hsize) as Hmax.
  assert (Hgt : (occupancy d >? max_dist d) = false).
  { rewrite Z.gtb_ltb. apply Z.ltb_ge. lia. }
  split.
  - rewrite reserve_back_seq, Hgt. eexists _, _. split; [reflexivity|].
    rewrite consume_back_seq, range_with_fast_range, start_pack, end_pack.
    rewrite (uint16_small (start (range d))) by lia.
    assert (Hne : (start (range d) =? uint16 (end_ (range d) + 1)) = false).
    { apply Z.eqb_neq. intros Heq.
      assert (H1 : uint16 (uint16 (end_ (range d) + 1) - start (range d)) = 0)
        by (rewrite <- Heq, Z.sub_diag; reflexivity).
      rewrite occupancy_inc_end in H1. fold (occupancy d) in H1.
      rewrite uint16_small in H1; lia. }
    rewrite Hne. f_equal. f_equal; [f_equal|].
    + unfold uint16. Z.div_mod_to_equations. lia.
    + rewrite with_fast_range_twice.
      rewrite (pack_congr _ _ (start (range d)) (end_ (range d)));
        [|reflexivity|unfold uint16; Z.div_mod_to_equations; lia].
      unfold range. rewrite pack_start_end by exact Hrange.
      apply with_fast_range_same.
  - rewrite reserve_front_seq, Hgt. eexists _, _. split; [reflexivity|].
    rewrite consume_front_seq, range_with_fast_range, start_pack, end_pack.
    rewrite (uint16_small (end_ (range d))) by lia.
    assert (Hne : (uint16 (start (range d) - 1) =? end_ (range d)) = false).
    { apply Z.eqb_neq. intros Heq.
      assert (H1 : uint16 (end_ (range d) - uint16 (start (range d) - 1)) = 0)
        by (rewrite Heq, Z.sub_diag; reflexivity).
      rewrite occupancy_dec_start in H1. fold (occupancy d) in H1.
      rewrite uint16_small in H1; lia. }
    rewrite Hne. f_equal. f_equal.
    rewrite with_fast_range_twice.
    rewrite (pack_congr _ _ (start (range d)) (end_ (range d)));
      [|unfold uint16; Z.div_mod_to_equations; lia|reflexivity].
    unfold range. rewrite pack_start_end by exact Hrange.
    apply with_fast_range_same.
Qed.

(** Every value the ring stores in [fast_range_] fits its 32 bits. *)
Lemma ring_step_range (moved_from : T -> T) d d' :
  0 <= fast_range_ d < 4294967296 ->
  ring_step moved_from d d' ->
  0 <= fast_range_ d' < 4294967296.
Proof.
  intros Hr Hstep.
  destruct Hstep as [fuel d pos pos' d' H|fuel d pos pos' d' H|fuel d pos pos' d' H
                    |fuel d pos pos' d' H|fuel d pos elem d' H
                    |fuel d pos elem elem' d' H|d].
  - destruct fuel; [discriminate|]. rewrite reserve_back_seq in H.
    destruct (_ >? _); [discriminate|]. injection H as _ <-. apply pack_range.
  - destruct fuel; [discriminate|]. rewrite reserve_front_seq in H.
    destruct (_ >? _); [discriminate|]. injection H as _ <-. apply pack_range.
  - destruct fuel; [discriminate|]. rewrite consume_front_seq in H.
    destruct (_ =? _); [discriminate|]. injection H as _ <-. apply pack_range.
  - destruct fuel; [discriminate|]. rewrite consume_back_seq in H.
    destruct (_ =? _); [discriminate|]. injection H as _ <-. apply pack_range.
  - unfold construct_in_fast in H.
    destruct (slot_index d pos) as [i|]; [|discriminate]. simpl in H.
    destruct (circular_buffer_ d !! i) as [item|]; [|discriminate]. simpl in H.
    destruct (spin_exchange _ _ _ _); [|discriminate]. simpl in H.
    injection H as <-. exact Hr.
  - unfold extract_from_fast in H.
    destruct (slot_index d pos) as [i|]; [|discriminate]. simpl in H.
    destruct (circular_buffer_ d !! i) as [item|]; [|discriminate]. simpl in H.
    destruct (spin_exchange _ _ _ _); [|discriminate]. simpl in H.
    injection H as _ <-. exact Hr.
  - simpl. lia.
Qed.

End index_extras.

(** ** More about the slots *)

(** One round of the spin loop is enough exactly when the atomic holds the
    state expected. *)
Lemma spin_exchange_once obj old desired :
  spin_exchange 1 obj old desired = if obj =? old then Some desired else None.
Proof. simpl. unfold compare_exchange. destruct (obj =? old); reflexivity. Qed.

Section slot_extras.

Context {T : Type}.
Variable moved_from : T -> T.

Implicit Types (d : @bounded_dequeue T) (q : @concurrent_dequeue T).

(** X3: [construct_in_fast] and [extract_from_fast] do not wait for the slot:
    whatever state the slot of [pos] is in, the second round of the exchange
    at the latest succeeds (its [old] is the state the first round read), so
    [construct_in_fast] overwrites the element of a slot that is not [freed]
    and [extract_from_fast] moves out the element of a slot that is not
    [valid]. Only when the slot is in the state expected does one round
    do. *)
Theorem slot_spin_does_not_wait (fuel : nat) d (pos : Z) (elem out : T) :
  (2 <= fuel)%nat ->
  ring_wf d ->
  exists item,
    circular_buffer_ d !! slot_of d pos = Some item /\
    construct_in_fast fuel d pos elem =
      Some (with_buffer d
              (<[slot_of d pos := {| state_ := state_int valid; elem_ := elem |}]>
                 (circular_buffer_ d))) /\
    extract_from_fast moved_from fuel d pos out =
      Some (elem_ item,
            with_buffer d
              (<[slot_of d pos :=
                   {| state_ := state_int freed; elem_ := moved_from (elem_ item) |}]>
                 (circular_buffer_ d))) /\
    (construct_in_fast 1 d pos elem = None <-> state_ item <> state_int freed) /\
    (extract_from_fast moved_from 1 d pos out = None <-> state_ item <> state_int valid).
Proof.
  intros Hfuel Hwf. destruct fuel as [|[|fuel]]; [lia|lia|].
  destruct (slot_index_slot_of d pos Hwf) as [Hi Hlt].
  destruct (lookup_lt_is_Some_2 _ _ Hlt) as [item Hitem].
  exists item. split; [exact Hitem|].
  split; [apply construct_in_fast_seq; assumption|].
  split; [apply extract_from_fast_seq; assumption|].
  unfold construct_in_fast, extract_from_fast. rewrite Hi.
  cbn -[spin_exchange]. rewrite Hitem. cbn -[spin_exchange].
  rewrite !spin_exchange_once.
  split.
  - destruct (Z.eqb_spec (state_ item) 0) as [E|E]; cbn.
    + split; [discriminate|intros H; destruct (H E)].
    + split; [intros _; exact E|reflexivity].
  - destruct (Z.eqb_spec (state_ item) 2) as [E|E]; cbn.
    + split; [discriminate|intros H; destruct (H E)].
    + split; [intros _; exact E|reflexivity].
Qed.

(** X4: an element constructed in the slot of a position is the one extracted
    from it; the slot is then [freed], holds what the move left behind, and
    no other slot has changed. *)
Theorem construct_then_extract (fuel : nat) d (pos : Z) (elem out : T) :
  (2 <= fuel)%nat ->
  ring_wf d ->
  exists d1 d2,
    construct_in_fast fuel d pos elem = Some d1 /\
    extract_from_fast moved_from fuel d1 pos out = Some (elem, d2) /\
    fast_range_ d2 = fast_range_ d /\ size_ d2 = size_ d /\
    circular_buffer_ d2 =
      <[slot_of d pos := {| state_ := state_int freed; elem_ := moved_from elem |}]>
        (circular_buffer_ d).
Proof.
  intros Hfuel Hwf. destruct fuel as [|[|fuel]]; [lia|lia|].
  destruct (slot_index_slot_of d pos Hwf) as [Hi Hlt].
  set (d1 := with_buffer d
                (<[slot_of d pos := {| state_ := state_int valid; elem_ := elem |}]>
                   (circular_buffer_ d))).
  assert (Hi1 : slot_index d1 pos = Some (slot_of d pos)).
  { unfold slot_index in *. simpl. rewrite length_insert. exact Hi. }
  assert (Hitem1 : circular_buffer_ d1 !! slot_of d pos
                   = Some {| state_ := state_int valid; elem_ := elem |}).
  { simpl. apply list_lookup_insert_eq. exact Hlt. }
  exists d1. eexists. split; [apply construct_in_fast_seq; assumption|].
  split; [exact (extract_from_fast_seq moved_from fuel d1 pos out _ _ Hi1 Hitem1)|].
  simpl. repeat split. apply list_insert_insert_eq.
Qed.

(** X5: [unsafe_clear] leaves a deque from which both pops return [false]:
    the ring is empty, every slot is [freed], the slow deque is empty and its
    count is zero. The size, the number of slots and the mutex are as before,
    and so are the elements sitting in the slots: they are not destroyed. *)
Theorem unsafe_clear_empties (fuel : nat) q (elem : T) :
  (0 < fuel)%nat ->
  let q' := unsafe_clear q in
  try_pop_front moved_from fuel q' elem = Some (false, elem, q') /\
  try_pop_back moved_from fuel q' elem = Some (false, elem, q') /\
  resident q' = [] /\
  occupancy (fast_deque_ q') = 0 /\
  Forall (fun el => state_ el = state_int freed) (circular_buffer_ (fast_deque_ q')) /\
  elem_ <$> circular_buffer_ (fast_deque_ q') = elem_ <$> circular_buffer_ (fast_deque_ q) /\
  size_ (fast_deque_ q') = size_ (fast_deque_ q) /\
  bottleneck_ q' = bottleneck_ q /\
  unsafe_clear q' = q'.
Proof.
  intros Hfuel q'. destruct fuel as [|fuel]; [lia|].
  rewrite try_pop_front_slow, try_pop_back_slow by reflexivity.
  split; [reflexivity|]. split; [reflexivity|]. split; [reflexivity|].
  split; [reflexivity|]. split; [|split]; [| |split; [reflexivity|split; [reflexivity|]]].
  - subst q'. simpl. apply Forall_fmap, Forall_true. intros el. reflexivity.
  - subst q'. simpl. rewrite <- list_fmap_compose. reflexivity.
  - subst q'. unfold unsafe_clear, clear_fast. simpl. f_equal. f_equal.
    rewrite <- list_fmap_compose. reflexivity.
Qed.

End slot_extras.

(** ** The deque as its users see it *)

Section dequeue_extras.

Context {T : Type}.
Variable moved_from : T -> T.
Variable default_elem : T.

Implicit Types (d : @bounded_dequeue T) (q : @concurrent_dequeue T) (l : list T).

Lemma ring_holds_room d l :
  ring_holds d l ->
  (occupancy d >? max_dist d) = false <-> Z.of_nat (length l) <= size_ d - 3.
Proof.
  intros H. rewrite (max_dist_no_wrap d (holds_size d l H)), (holds_length d l H).
  rewrite Z.gtb_ltb, Z.ltb_ge. reflexivity.
Qed.

Lemma ring_holds_nonempty d l :
  ring_holds d l ->
  (start (range d) =? end_ (range d)) = false <-> l <> [].
Proof.
  intros H. pose proof (holds_length d l H) as Hlen.
  pose proof (start_range (range d)) as Hs. pose proof (end_range (range d)) as He.
  split.
  - intros Hne ->. apply Z.eqb_neq in Hne.
    pose proof (occupancy_nonempty _ _ Hs He Hne) as Ho. fold (occupancy d) in Ho.
    simpl in Hlen. lia.
  - intros Hl. apply Z.eqb_neq. intros Heq.
    apply Z.eqb_eq, occupancy_empty in Heq. destruct l; [congruence|].
    simpl in Hlen. lia.
Qed.

(** X6: while its elements fit the ring, the deque is a double-ended queue:
    on a ring whose size divides [2^16] and that holds [l], front to back,
    [push_back] and [push_front] (with room left: fewer than [size_ - 2]
    elements) add at the back and at the front of [l], [try_pop_front]
    returns its first element and [try_pop_back] its last; none of them
    touches the slow deque. *)
Theorem fast_path_is_a_deque (fuel : nat) q l (x out : T) :
  (2 <= fuel)%nat ->
  ring_holds (fast_deque_ q) l ->
  (Z.of_nat (length l) <= size_ (fast_deque_ q) - 3 ->
     (exists q', push_back fuel q x = Some q' /\
        ring_holds (fast_deque_ q') (l ++ [x]) /\
        slow_access_elems_ q' = slow_access_elems_ q /\
        num_elements_slow_ q' = num_elements_slow_ q) /\
     (exists q', push_front fuel q x = Some q' /\
        ring_holds (fast_deque_ q') (x :: l) /\
        slow_access_elems_ q' = slow_access_elems_ q /\
        num_elements_slow_ q' = num_elements_slow_ q)) /\
  (forall y l', l = y :: l' ->
     exists q', try_pop_front moved_from fuel q out = Some (true, y, q') /\
       ring_holds (fast_deque_ q') l' /\
       slow_access_elems_ q' = slow_access_elems_ q /\
       num_elements_slow_ q' = num_elements_slow_ q) /\
  (forall y l', l = l' ++ [y] ->
     exists q', try_pop_back moved_from fuel q out = Some (true, y, q') /\
       ring_holds (fast_deque_ q') l' /\
       slow_access_elems_ q' = slow_access_elems_ q /\
       num_elements_slow_ q' = num_elements_slow_ q).
Proof.
  intros Hfuel Hl. destruct fuel as [|[|fuel]]; [lia|lia|].
  pose proof (holds_wf _ _ Hl) as Hwf.
  split; [|split].
  - intros Hroom. apply (ring_holds_room _ _ Hl) in Hroom. split.
    + destruct (slot_index_slot_of (fast_deque_ q)
                  (end_ (range (fast_deque_ q))) Hwf) as [Hi Hlt].
      eexists. split; [apply (push_back_fast fuel q x _ Hroom Hi Hlt)|].
      split; [exact (ring_holds_push_back (fast_deque_ q) l x Hl Hroom)|].
      split; reflexivity.
    + destruct (slot_index_slot_of (fast_deque_ q)
                  (uint16 (start (range (fast_deque_ q)) - 1)) Hwf) as [Hi Hlt].
      eexists. split; [apply (push_front_fast fuel q x _ Hroom Hi Hlt)|].
      split; [exact (ring_holds_push_front (fast_deque_ q) l x Hl Hroom)|].
      split; reflexivity.
  - intros y l' ->.
    assert (Hne : (start (range (fast_deque_ q)) =? end_ (range (fast_deque_ q))) = false)
      by (apply (ring_holds_nonempty _ _ Hl); discriminate).
    destruct (ring_holds_pop_front moved_from _ _ Hl Hne)
      as (item & l1 & Hitem & Heq & Hl1).
    injection Heq as -> <-.
    destruct (slot_index_slot_of (fast_deque_ q)
                (start (range (fast_deque_ q))) Hwf) as [Hi _].
    eexists. split; [apply (try_pop_front_fast moved_from fuel q out _ item Hne Hi Hitem)|].
    split; [exact Hl1|]. split; reflexivity.
  - intros y l' ->.
    assert (Hne : (start (range (fast_deque_ q)) =? end_ (range (fast_deque_ q))) = false).
    { apply (ring_holds_nonempty _ _ Hl). intros H. destruct l'; discriminate H. }
    destruct (ring_holds_pop_back moved_from _ _ Hl Hne)
      as (item & l1 & Hitem & Heq & Hl1).
    apply app_inj_tail in Heq as [<- ->].
    destruct (slot_index_slot_of (fast_deque_ q)
                (uint16 (end_ (range (fast_deque_ q)) - 1)) Hwf) as [Hi _].
    eexists. split; [apply (try_pop_back_fast moved_from fuel q out _ item Hne Hi Hitem)|].
    split; [exact Hl1|]. split; reflexivity.
Qed.

(** X7: the order is lost where the ring is full. On a ring that holds
    [size_ - 2] elements a [push_back] goes to the back of the slow deque and
    leaves the ring alone, and the [try_pop_back] that follows returns the
    last element of the ring, not the element just pushed. *)
Theorem full_ring_loses_order (fuel : nat) q l (x out : T) :
  (2 <= fuel)%nat ->
  ring_holds (fast_deque_ q) l ->
  bottleneck_ q = false ->
  Z.of_nat (length l) = size_ (fast_deque_ q) - 2 ->
  exists q1 y l' q2,
    push_back fuel q x = Some q1 /\
    fast_deque_ q1 = fast_deque_ q /\
    slow_access_elems_ q1 = slow_access_elems_ q ++ [x] /\
    l = l' ++ [y] /\
    try_pop_back moved_from fuel q1 out = Some (true, y, q2) /\
    ring_holds (fast_deque_ q2) l' /\
    slow_access_elems_ q2 = slow_access_elems_ q ++ [x].
Proof.
  intros Hfuel Hl Hfree Hfull. destruct fuel as [|[|fuel]]; [lia|lia|].
  pose proof (holds_wf _ _ Hl) as Hwf. pose proof (holds_size _ _ Hl) as Hsize.
  assert (Hgt : (occupancy (fast_deque_ q) >? max_dist (fast_deque_ q)) = true).
  { rewrite (max_dist_no_wrap _ Hsize), <- (holds_length _ _ Hl), Z.gtb_ltb.
    apply Z.ltb_lt. lia. }
  destruct l as [|y0 l0 _] using rev_ind; [simpl in Hfull; lia|].
  rename l0 into l'. rename y0 into y.
  set (q1 := {| fast_deque_ := fast_deque_ q;
                slow_access_elems_ := slow_access_elems_ q ++ [x];
                bottleneck_ := false;
                num_elements_slow_ := int32 (num_elements_slow_ q + 1) |}).
  assert (Hne : (start (range (fast_deque_ q1)) =? end_ (range (fast_deque_ q1))) = false).
  { apply (ring_holds_nonempty _ _ Hl). intros H. destruct l'; discriminate H. }
  destruct (ring_holds_pop_back moved_from (fast_deque_ q1) _ Hl Hne)
    as (item & l1 & Hitem & Heq & Hl1).
  apply app_inj_tail in Heq as [<- ->].
  destruct (slot_index_slot_of (fast_deque_ q1)
              (uint16 (end_ (range (fast_deque_ q1)) - 1)) Hwf) as [Hi _].
  exists q1, (elem_ item), l'. eexists.
  split; [apply push_back_slow; assumption|].
  split; [reflexivity|]. split; [reflexivity|]. split; [reflexivity|].
  split; [apply (try_pop_back_fast moved_from fuel q1 out _ item Hne Hi Hitem)|].
  split; [exact Hl1|reflexivity].
Qed.

(** X8: a deque constructed with a size whose sixteen low bits are all zero
    (0, 65536, ...) has [size_ = 0]: it is empty for the pops, but a push
    reserves position 0 and then computes [pos % size_] with [size_ = 0], so
    it yields no result. *)
Theorem zero_size_push_has_no_result (fuel : nat) (expected_size : Z) (elem : T) :
  uint16 expected_size = 0 ->
  let q := make_dequeue default_elem expected_size in
  push_back fuel q elem = None /\
  push_front fuel q elem = None /\
  slot_index (fast_deque_ q) 0 = None /\
  (exists d, reserve_back (S fuel) (fast_deque_ q) 0 = Some (true, 0, d)) /\
  (exists d, reserve_front (S fuel) (fast_deque_ q) 0 = Some (true, 65535, d)) /\
  try_pop_front moved_from (S fuel) q elem = Some (false, elem, q) /\
  try_pop_back moved_from (S fuel) q elem = Some (false, elem, q).
Proof.
  intros Hzero q.
  assert (Hsize : size_ (fast_deque_ q) = 0) by exact Hzero.
  assert (Hgt : (occupancy (fast_deque_ q) >? max_dist (fast_deque_ q)) = false).
  { rewrite (max_dist_wraps (fast_deque_ q)) by lia. rewrite Hsize. reflexivity. }
  assert (Hslot : forall d pos, size_ d = 0 -> @slot_index T d pos = None).
  { intros d pos Hd. unfold slot_index. rewrite Hd. reflexivity. }
  split; [|split]; [| |split; [|split; [|split; [|split]]]].
  - destruct fuel as [|fuel]; [reflexivity|].
    unfold push_back. rewrite reserve_back_seq, Hgt. cbn -[construct_in_fast].
    unfold construct_in_fast. rewrite Hslot by exact Hsize. reflexivity.
  - destruct fuel as [|fuel]; [reflexivity|].
    unfold push_front. rewrite reserve_front_seq, Hgt. cbn -[construct_in_fast].
    unfold construct_in_fast. rewrite Hslot by exact Hsize. reflexivity.
  - apply Hslot. exact Hsize.
  - rewrite reserve_back_seq, Hgt. eexists. reflexivity.
  - rewrite reserve_front_seq, Hgt. eexists. reflexivity.
  - rewrite try_pop_front_slow by reflexivity. reflexivity.
  - rewrite try_pop_back_slow by reflexivity. reflexivity.
Qed.

(** X9: below three slots the threshold [uint16_t(size_ - 3)] wraps around to
    [size_ + 65533], so a ring of one or two slots accepts reservations far
    beyond the number of its slots: as long as fewer than 65535 positions are
    reserved, [reserve_back] and [reserve_front] succeed. *)
Theorem small_ring_reserves_beyond_its_slots (fuel : nat) d (pos : Z) :
  (0 < fuel)%nat ->
  1 <= size_ d <= 2 ->
  occupancy d <= 65534 ->
  exists pb db pf df,
    reserve_back fuel d pos = Some (true, pb, db) /\
    reserve_front fuel d pos = Some (true, pf, df) /\
    occupancy db = occupancy d + 1 /\ occupancy df = occupancy d + 1.
Proof.
  intros Hfuel Hsize Hocc. destruct fuel as [|fuel]; [lia|].
  pose proof (start_range (range d)) as Hs. pose proof (end_range (range d)) as He.
  pose proof (occupancy_range d) as Ho.
  assert (Hgt : (occupancy d >? max_dist d) = false).
  { rewrite (max_dist_wraps d) by lia. rewrite Z.gtb_ltb. apply Z.ltb_ge. lia. }
  rewrite reserve_back_seq, reserve_front_seq, Hgt.
  eexists _, _, _, _. split; [reflexivity|]. split; [reflexivity|].
  rewrite !occupancy_pack.
  rewrite (uint16_small (start (range d))), (uint16_small (end_ (range d))) by lia.
  rewrite occupancy_inc_end, occupancy_dec_start. fold (occupancy d).
  rewrite uint16_small; lia.
Qed.

(** X10: in every state a deque reaches from its construction (with a size
    whose sixteen low bits are not all zero), every call of the interface
    returns: none divides by zero, indexes outside the vector or finds the
    mutex held. *)
Theorem reachable_calls_return (expected_size : Z) (fuel : nat) q (c : call) :
  0 <= expected_size -> 0 < uint16 expected_size ->
  (2 <= fuel)%nat ->
  dequeue_reachable moved_from default_elem expected_size q ->
  exists o q',
    run_call moved_from default_elem fuel q c = Some (o, q') /\
    dequeue_reachable moved_from default_elem expected_size q'.
Proof.
  intros Hnn Hpos Hfuel Hreach. destruct fuel as [|[|fuel]]; [lia|lia|].
  pose proof (dequeue_reachable_wf moved_from default_elem expected_size q Hnn Hpos Hreach)
    as Hwf.
  destruct (run_call_returns moved_from default_elem fuel q c Hwf) as (o & q' & Hrun & _).
  exists o, q'. split; [exact Hrun|].
  eapply rtc_r; [exact Hreach|]. exists (S (S fuel)), c, o. exact Hrun.
Qed.

End dequeue_extras.

(** ** Where the ring wraps around *)

Section wrap_extras.

Context {T : Type}.
Variable moved_from : T -> T.

Implicit Types (d : @bounded_dequeue T) (q : @concurrent_dequeue T).

(** X12: positions wrap around at [2^16] but slots at [size_]. When [size_]
    does not divide [2^16], say [2^16 = k * size_ + r] with
    [1 <= r <= size_ - 3], a ring with [start = 2^16 - r] and [end = 0] holds
    [r] elements, and the slot of its first position is slot 0, which is also
    the slot of position 0: a [push_back] constructs its element over the
    first element of the ring, and the [try_pop_front] that follows returns
    the element just pushed at the back. *)
Theorem wrapped_ring_aliases (fuel : nat) q (x out : T) :
  (2 <= fuel)%nat ->
  dequeue_wf q ->
  let d := fast_deque_ q in
  let r := 65536 `mod` size_ d in
  3 <= size_ d < 65536 ->
  1 <= r <= size_ d - 3 ->
  start (range d) = 65536 - r ->
  end_ (range d) = 0 ->
  occupancy d = r /\
  slot_of d (start (range d)) = slot_of d (end_ (range d)) /\
  exists q1 q2,
    push_back fuel q x = Some q1 /\
    slow_access_elems_ q1 = slow_access_elems_ q /\
    occupancy (fast_deque_ q1) = r + 1 /\
    try_pop_front moved_from fuel q1 out = Some (true, x, q2).
Proof.
  intros Hfuel [Hwf Hfree] d r Hsize Hr Hstart Hend.
  destruct fuel as [|[|fuel]]; [lia|lia|].
  assert (Hocc : occupancy d = r).
  { unfold occupancy. rewrite Hstart, Hend. unfold uint16.
    replace (0 - (65536 - r)) with (r + (-1) * 65536) by lia.
    rewrite Z.mod_add by lia. apply Z.mod_small. lia. }
  assert (Hslot : slot_of d (65536 - r) = slot_of d 0).
  { unfold slot_of. f_equal. subst r.
    pose proof (Z.div_mod 65536 (size_ d) ltac:(lia)) as Hdm.
    replace (65536 - 65536 `mod` size_ d) with (0 + (65536 `div` size_ d) * size_ d) by lia.
    rewrite Z.mod_add by lia. reflexivity. }
  split; [exact Hocc|]. split; [rewrite Hstart, Hend; exact Hslot|].
  assert (Hroom : (occupancy d >? max_dist d) = false).
  { rewrite (max_dist_no_wrap d Hsize), Hocc, Z.gtb_ltb. apply Z.ltb_ge. lia. }
  destruct (slot_index_slot_of d (end_ (range d)) Hwf) as [Hi Hlt].
  set (d1 := with_buffer
               (with_fast_range d (pack (start (range d)) (end_ (range d) + 1)))
               (<[slot_of d (end_ (range d)) :=
                    {| state_ := state_int valid; elem_ := x |}]> (circular_buffer_ d))).
  assert (Hs1 : start (range d1) = 65536 - r).
  { change (start {| int_value := pack (start (range d)) (end_ (range d) + 1) |}
            = 65536 - r).
    rewrite start_pack, Hstart. apply uint16_small. lia. }
  assert (He1 : end_ (range d1) = 1).
  { change (end_ {| int_value := pack (start (range d)) (end_ (range d) + 1) |} = 1).
    rewrite end_pack, Hend. reflexivity. }
  exists (with_fast q d1). eexists.
  split; [exact (push_back_fast fuel q x _ Hroom Hi Hlt)|].
  split; [reflexivity|]. split.
  - change (occupancy d1 = r + 1). unfold d1. rewrite occupancy_with, occupancy_pack.
    rewrite Hstart, Hend. unfold uint16.
    replace (((0 + 1) `mod` 65536) - ((65536 - r) `mod` 65536))
      with ((r + 1) + (-1) * 65536) by (rewrite !Z.mod_small by lia; lia).
    rewrite Z.mod_add by lia. apply Z.mod_small. lia.
  - assert (Hne : (start (range (fast_deque_ (with_fast q d1)))
                   =? end_ (range (fast_deque_ (with_fast q d1)))) = false).
    { change ((start (range d1) =? end_ (range d1)) = false).
      rewrite Hs1, He1. apply Z.eqb_neq. lia. }
    assert (Hi1 : slot_index (fast_deque_ (with_fast q d1))
                    (start (range (fast_deque_ (with_fast q d1))))
                  = Some (slot_of d (end_ (range d)))).
    { change (slot_index d1 (start (range d1)) = Some (slot_of d (end_ (range d)))).
      rewrite Hs1.
      destruct (slot_index_slot_of d1 (65536 - r)) as [H1 _].
      { apply (ring_wf_with_buffer (with_fast_range _ _)). exact Hwf. }
      rewrite H1. f_equal. change (slot_of d (65536 - r) = slot_of d (end_ (range d))).
      rewrite Hend. exact Hslot. }
    assert (Hitem1 : circular_buffer_ (fast_deque_ (with_fast q d1))
                       !! slot_of d (end_ (range d))
                     = Some {| state_ := state_int valid; elem_ := x |}).
    { change (<[slot_of d (end_ (range d)) :=
                  {| state_ := state_int valid; elem_ := x |}]> (circular_buffer_ d)
              !! slot_of d (end_ (range d))
              = Some {| state_ := state_int valid; elem_ := x |}).
      apply list_lookup_insert_eq. exact Hlt. }
    exact (try_pop_front_fast moved_from fuel (with_fast q d1) out _ _ Hne Hi1 Hitem1).
Qed.

End wrap_extras.

(** ** More about the spawn API *)

Section spawn_extras.

Import Spawn.

Context {task_function : Type}.

Implicit Types (w : @world task_function) (ftors : list task_function).

Lemma foldl_spawn_true ftors : forall w,
  foldl (fun w f => spawn f true w) w ftors =
  add_calls w ((fun f => Spawn {| task_fn := f; task_grp := current_task_group w |} true)
                 <$> ftors).
Proof.
  induction ftors as [|f rest IH]; intros w; simpl.
  - symmetry. apply add_calls_nil.
  - rewrite IH. unfold spawn. simpl. apply add_calls_tsys.
Qed.

(** X13: [spawn({f1, ..., fn}, wake)] is [spawn(f1, true); ...;
    spawn(fn, true)]: the same calls reach the task system in the same
    order, whatever [wake] is; for the empty list nothing happens. *)
Theorem spawn_list_is_iterated_spawn ftors (wake : bool) w :
  Z.of_nat (length ftors) < 2147483648 ->
  spawn_list ftors wake w = foldl (fun w f => spawn f true w) w ftors.
Proof.
  intros Hlen. unfold spawn_list. rewrite int32_small by lia.
  rewrite spawn_loop_wakes by lia. symmetry. apply foldl_spawn_true.
Qed.

(** X14: [spawn_and_wait({f1, ..., fn})] enters the worker, creates one group
    under the current one, spawns the n tasks into that group in the order of
    the list, waits on that same group and exits the worker; it makes no
    other call and leaves the current task group as it was. With an empty
    list it still enters, creates the group, waits on it and exits. *)
Theorem spawn_and_wait_list_brackets ftors (wake : bool) w :
  Z.of_nat (length ftors) < 2147483648 ->
  let g := Some (length (group_parents w)) in
  spawn_and_wait_list ftors wake w =
  {| group_parents := group_parents w ++ [current_task_group w];
     current_task_group := current_task_group w;
     tsys_calls :=
       tsys_calls w ++
       EnterWorker ::
       ((fun f => Spawn {| task_fn := f; task_grp := g |} true) <$> ftors) ++
       [BusyWaitOn g; ExitWorker] |}.
Proof.
  intros Hlen g. unfold spawn_and_wait_list.
  cbn [create tsys group_parents current_task_group tsys_calls].
  rewrite int32_small by lia. rewrite spawn_and_wait_loop_wakes by (simpl; lia).
  unfold tsys, add_calls. simpl. f_equal.
  rewrite <- !app_assoc. reflexivity.
Qed.

(** X15: the two overloads of [spawn_and_wait] disagree on a single functor:
    [spawn_and_wait(f)] spawns its task without waking workers,
    [spawn_and_wait({f})] spawns it waking them; in everything else (the
    group created, the calls around the spawn) they are the same. *)
Theorem spawn_and_wait_overloads_differ (ftor : task_function) (wake : bool) w :
  let g := Some (length (group_parents w)) in
  let t := {| task_fn := ftor; task_grp := g |} in
  new_calls w (spawn_and_wait ftor w) =
    [EnterWorker; Spawn t false; BusyWaitOn g; ExitWorker] /\
  new_calls w (spawn_and_wait_list [ftor] wake w) =
    [EnterWorker; Spawn t true; BusyWaitOn g; ExitWorker] /\
  group_parents (spawn_and_wait ftor w) = group_parents (spawn_and_wait_list [ftor] wake w) /\
  current_task_group (spawn_and_wait ftor w) = current_task_group w /\
  current_task_group (spawn_and_wait_list [ftor] wake w) = current_task_group w.
Proof.
  intros g t. unfold spawn_and_wait, spawn_and_wait_list, new_calls, tsys. simpl.
  rewrite <- !app_assoc. simpl. rewrite !drop_app_length. repeat split.
Qed.


End spawn_extras.

(** ** Properties of the platform header *)

Section platform_extras.

Import Platform.

(** X17: with nothing given on the command line the header defines exactly
    one of the four platform flags, to 1: APPLE when [__APPLE__] holds; else
    LINUX when one of [__linux__], [__FreeBSD__], [__NetBSD__], [__OpenBSD__]
    holds; else WINDOWS when [_MSC_VER && __MINGW64__ || __MINGW32__] holds;
    else UNKNOWN. So [_MSC_VER] without MinGW gives UNKNOWN, not WINDOWS. *)
Theorem platform_exactly_one_flag (cc : compiler) :
  let apple := holds (__APPLE__ cc) in
  let unix := holds (__linux__ cc) || holds (__FreeBSD__ cc)
              || holds (__NetBSD__ cc) || holds (__OpenBSD__ cc) in
  let mingw := holds (_MSC_VER cc) && holds (__MINGW64__ cc) || holds (__MINGW32__ cc) in
  exists c,
    platform_hpp cc nothing_given = Some c /\
    CONCORE_PLATFORM c = true /\
    platform_flags c = [Some 1] /\
    CONCORE_PLATFORM_APPLE c = (if apple then Some 1 else None) /\
    CONCORE_PLATFORM_LINUX c = (if negb apple && unix then Some 1 else None) /\
    CONCORE_PLATFORM_WINDOWS c =
      (if negb apple && negb unix && mingw then Some 1 else None) /\
    CONCORE_PLATFORM_UNKNOWN c =
      (if negb apple && negb unix && negb mingw then Some 1 else None) /\
    (holds (_MSC_VER cc) = true -> apple = false -> unix = false ->
     holds (__MINGW64__ cc) = false -> holds (__MINGW32__ cc) = false ->
     CONCORE_PLATFORM_WINDOWS c = None /\ CONCORE_PLATFORM_UNKNOWN c = Some 1).
Proof.
  intros apple unix mingw. subst apple unix mingw.
  unfold platform_hpp, detect_platform, detect_cpp_version, platform_flags.
  destruct (holds (__APPLE__ cc)); [eexists; repeat split; discriminate|].
  destruct (holds (__linux__ cc) || holds (__FreeBSD__ cc)
            || holds (__NetBSD__ cc) || holds (__OpenBSD__ cc));
    [eexists; repeat split; discriminate|].
  destruct (holds (_MSC_VER cc)), (holds (__MINGW64__ cc)), (holds (__MINGW32__ cc));
    eexists; repeat split; discriminate.
Qed.

(** X18: [CONCORE_CPP_VERSION], when not given, is defined to 11, 14 or 17
    for the three values of [__cplusplus] the header names, and to 20 for
    every other value, those of the standards before C++11 included; when
    given, it is left as it is. *)
Theorem cpp_version_detected (cc : compiler) (c c' : config) :
  platform_hpp cc c = Some c' ->
  match CONCORE_CPP_VERSION c with
  | Some v => CONCORE_CPP_VERSION c' = Some v
  | None =>
      exists v, CONCORE_CPP_VERSION c' = Some v /\
        (v = 11 \/ v = 14 \/ v = 17 \/ v = 20) /\
        (v = 11 <-> __cplusplus cc = 201103) /\
        (v = 14 <-> __cplusplus cc = 201402) /\
        (v = 17 <-> __cplusplus cc = 201703) /\
        (__cplusplus cc < 201103 \/ 201703 < __cplusplus cc -> v = 20)
  end.
Proof.
  intros H. unfold platform_hpp in H.
  destruct (detect_platform cc c) as [c1|] eqn:H1; [|discriminate]. simpl in H.
  assert (Hv : CONCORE_CPP_VERSION c1 = CONCORE_CPP_VERSION c).
  { unfold detect_platform in H1. destruct (CONCORE_PLATFORM c); [congruence|].
    repeat match type of H1 with
           | context [if ?b then _ else _] => destruct b
           end;
      simpl in H1;
      match type of H1 with
      | context [define ?m ?v] => destruct (define m v); simpl in H1
      end; try discriminate; injection H1 as <-; reflexivity. }
  unfold detect_cpp_version in H. rewrite Hv in H.
  destruct (CONCORE_CPP_VERSION c) as [v|]; [injection H as <-; exact Hv|].
  destruct (if negb (holds (CONCORE_USE_PTHREADS c1)) && holds (CONCORE_PLATFORM_LINUX c1)
            then define (CONCORE_USE_PTHREADS c1) 1
            else Some (CONCORE_USE_PTHREADS c1)) as [p|]; [|discriminate].
  simpl in H.
  destruct (if negb (holds p) && holds (CONCORE_PLATFORM_APPLE c1)
            then define (CONCORE_USE_LIBDISPATCH c1) 1
            else Some (CONCORE_USE_LIBDISPATCH c1)) as [l|]; [|discriminate].
  simpl in H. injection H as <-. simpl.
  exists (cpp_version (__cplusplus cc)). split; [reflexivity|]. unfold cpp_version.
  destruct (Z.eqb_spec (__cplusplus cc) 201103) as [->|];
    [repeat split; try tauto; try lia; intros; lia|].
  destruct (Z.eqb_spec (__cplusplus cc) 201402) as [->|];
    [repeat split; try tauto; try lia; intros; lia|].
  destruct (Z.eqb_spec (__cplusplus cc) 201703) as [->|];
    [repeat split; try tauto; try lia; intros; lia|].
  repeat split; try tauto; try lia; intros; lia.
Qed.

(** X19: with nothing given, the header selects pthreads exactly on the
    LINUX platform and libdispatch exactly on the APPLE platform, never
    both. The selection stands in the block that is skipped when
    [CONCORE_CPP_VERSION] is given: then neither is defined, whatever the
    platform. *)
Theorem threading_library_detected (cc : compiler) (v : Z) :
  (exists c,
     platform_hpp cc nothing_given = Some c /\
     CONCORE_USE_PTHREADS c = CONCORE_PLATFORM_LINUX c /\
     CONCORE_USE_LIBDISPATCH c = CONCORE_PLATFORM_APPLE c /\
     holds (CONCORE_USE_PTHREADS c) && holds (CONCORE_USE_LIBDISPATCH c) = false) /\
  (exists c,
     platform_hpp cc
       {| CONCORE_PLATFORM := false;
          CONCORE_PLATFORM_APPLE := None; CONCORE_PLATFORM_LINUX := None;
          CONCORE_PLATFORM_WINDOWS := None; CONCORE_PLATFORM_UNKNOWN := None;
          CONCORE_CPP_VERSION := Some v;
          CONCORE_USE_PTHREADS := None; CONCORE_USE_LIBDISPATCH := None |}
     = Some c /\
     CONCORE_CPP_VERSION c = Some v /\
     CONCORE_USE_PTHREADS c = None /\ CONCORE_USE_LIBDISPATCH c = None /\
     platform_flags c = [Some 1]).
Proof.
  unfold platform_hpp, detect_platform, detect_cpp_version, platform_flags.
  split.
  - destruct (holds (__APPLE__ cc)); [eexists; repeat split|].
    destruct (holds (__linux__ cc) || holds (__FreeBSD__ cc)
              || holds (__NetBSD__ cc) || holds (__OpenBSD__ cc));
      [eexists; repeat split|].
    destruct (holds (_MSC_VER cc) && holds (__MINGW64__ cc) || holds (__MINGW32__ cc));
      eexists; repeat split.
  - destruct (holds (__APPLE__ cc)); [eexists; repeat split|].
    destruct (holds (__linux__ cc) || holds (__FreeBSD__ cc)
              || holds (__NetBSD__ cc) || holds (__OpenBSD__ cc));
      [eexists; repeat split|].
    destruct (holds (_MSC_VER cc) && holds (__MINGW64__ cc) || holds (__MINGW32__ cc));
      eexists; repeat split.
Qed.

End platform_extras.

(** ** Properties of the benchmark data *)

Lemma char_of_int_code (z : Z) :
  0 <= z < 256 -> Z.of_nat (nat_of_ascii (PerfData.char_of_int z)) = z.
Proof.
  intros Hz. unfold PerfData.char_of_int, nat_of_ascii.
  rewrite N_ascii_embedding by (rewrite Z.mod_small by lia; lia).
    rewrite N_nat_Z, Z2N.id; rewrite Z.mod_small; lia.
Qed.

Section perf_data_extras.

Import PerfData.

Variable rand_value : nat -> Z.
Hypothesis rand_value_nonneg : forall n, 0 <= rand_value n.

Lemma generate_spec {A : Type} (P : A -> Prop) (gen : nat -> A * nat) :
  (forall calls, P (fst (gen calls))) ->
  forall count calls,
    length (fst (generate gen count calls)) = count /\
    Forall P (fst (generate gen count calls)).
Proof.
  intros Hgen. induction count as [|count IH]; intros calls; simpl.
  - split; [reflexivity|constructor].
  - pose proof (Hgen calls) as Hx. destruct (gen calls) as [x calls1].
    destruct (IH calls1) as [IH1 IH2].
    destruct (generate gen count calls1) as [rest calls2]. simpl in *.
    split; [congruence|constructor; assumption].
Qed.

Lemma generate_take {A : Type} (gen : nat -> A * nat) :
  forall (n m calls : nat), (n <= m)%nat ->
    fst (generate gen n calls) = take n (fst (generate gen m calls)).
Proof.
  induction n as [|n IH]; intros m calls Hnm; [reflexivity|].
  destruct m as [|m]; [lia|]. simpl.
  destruct (gen calls) as [x calls1].
  specialize (IH m calls1 ltac:(lia)).
  destruct (generate gen n calls1) as [r1 c1].
  destruct (generate gen m calls1) as [r2 c2]. simpl in *. congruence.
Qed.

Lemma rand_small_int_range calls :
  -100 <= fst (rand_small_int rand_value calls) <= 99.
Proof.
  unfold rand_small_int, rand. simpl.
  pose proof (Z.rem_bound_pos (rand_value calls) 200 (rand_value_nonneg calls) ltac:(lia)).
  lia.
Qed.

Lemma rand_char_range calls :
  (97 <= nat_of_ascii (fst (rand_char rand_value calls)) <= 121)%nat.
Proof.
  unfold rand_char, rand. cbn [fst]. change (122 - 97) with 25.
  pose proof (Z.rem_bound_pos (rand_value calls) 25 (rand_value_nonneg calls) ltac:(lia)).
  pose proof (char_of_int_code (97 + Z.rem (rand_value calls) 25) ltac:(lia)). lia.
Qed.

Lemma accumulate_bounds (data : list Z) : forall acc,
  Forall (fun x => -100 <= x <= 99) data ->
  -9223372036854775808 <= acc - 100 * Z.of_nat (length data) ->
  acc + 99 * Z.of_nat (length data) < 9223372036854775808 ->
  let r := foldl (fun acc x => int64 (acc + x)) acc data in
  r = foldl Z.add acc data /\
  acc - 100 * Z.of_nat (length data) <= r <= acc + 99 * Z.of_nat (length data).
Proof.
  induction data as [|x data IH]; intros acc Hall Hlo Hhi; simpl.
  - lia.
  - inversion Hall as [|? ? Hx Hrest]; subst.
    assert (Hint : int64 (acc + x) = acc + x).
    { unfold int64. simpl length in *. rewrite Z.mod_small; lia. }
    rewrite Hint. simpl length in *.
    destruct (IH (acc + x) Hrest ltac:(lia) ltac:(lia)) as [IH1 IH2].
    split; [exact IH1|lia].
Qed.

(** X20: for a [size] that is not negative, [generate_test_data(size)] is a
    vector of [size] integers, each between -100 and 99 (100 is never
    produced); the data for a smaller size are a prefix of the data for a
    larger one, the generator being seeded anew each time; and the sum
    [std::accumulate] computes in [int64_t] does not wrap around and stays
    between [-100 * size] and [99 * size]. For a negative [size] no vector
    is made. *)
Theorem generate_test_data_spec (size size' negative : Z) :
  0 <= size' <= size -> size < 2147483648 -> negative < 0 ->
  generate_test_data rand_value negative = None /\
  exists data data',
    generate_test_data rand_value size = Some data /\
    generate_test_data rand_value size' = Some data' /\
    Z.of_nat (length data) = size /\
    Forall (fun x => -100 <= x <= 99) data /\
    data' = take (Z.to_nat size') data /\
    accumulate data = foldl Z.add 0 data /\
    -100 * size <= accumulate data <= 99 * size.
Proof.
  intros Hsize Hint Hneg. unfold generate_test_data.
  destruct (Z.ltb_spec negative 0); [|lia]. split; [reflexivity|].
  destruct (Z.ltb_spec size 0); [lia|]. destruct (Z.ltb_spec size' 0); [lia|].
  destruct (generate_spec (fun x => -100 <= x <= 99) (rand_small_int rand_value)
              rand_small_int_range (Z.to_nat size) 0%nat) as [Hlen Hall].
  eexists _, _. split; [reflexivity|]. split; [reflexivity|].
  split; [rewrite Hlen; lia|]. split; [exact Hall|].
  split; [apply generate_take; lia|].
  destruct (accumulate_bounds _ 0 Hall) as [Hsum Hbound];
    [rewrite Hlen; lia|rewrite Hlen; lia|].
  rewrite Hlen in Hbound. unfold accumulate. split; [exact Hsum|lia].
Qed.

(** X21: [rand_string] makes a string of at most 99 characters, all between
    ['a'] and ['y'] (['z'] is never produced, [num] being ['z' - 'a']), and
    calls [rand] once for the length and once for each character. *)
Theorem rand_string_spec (calls : nat) :
  let s := fst (rand_string rand_value calls) in
  (length s <= 99)%nat /\
  Z.of_nat (length s) = Z.rem (rand_value calls) 100 /\
  Forall (fun c => (97 <= nat_of_ascii c <= 121)%nat) s /\
  snd (rand_string rand_value calls) = (calls + 1 + length s)%nat.
Proof.
  unfold rand_string, rand. simpl.
  pose proof (Z.rem_bound_pos (rand_value calls) 100 (rand_value_nonneg calls) ltac:(lia))
    as Hsize.
  destruct (generate_spec (fun c => (97 <= nat_of_ascii c <= 121)%nat)
              (rand_char rand_value) rand_char_range
              (Z.to_nat (Z.rem (rand_value calls) 100)) (S calls)) as [Hlen Hall].
  rewrite Hlen. split; [lia|]. split; [lia|]. split; [exact Hall|].
  assert (Hcalls : forall count c,
            snd (generate (rand_char rand_value) count c) = (c + count)%nat).
  { induction count as [|count IH]; intros c; simpl; [lia|].
    specialize (IH (S c)). destruct (generate _ count (S c)). simpl in *. lia. }
  rewrite Hcalls. lia.
Qed.

End perf_data_extras.

(** ** Progress and priority in the rw_serializer *)

Section rw_serializer_extras.

Import RWSerializer RWReads.

Context {task : Type} `{EqDecision task}.

Implicit Types (s : @state task) (t : task).

Local Open Scope nat_scope.

Lemma reads_started_app s (l : list (executor * kind * task)) :
  omap (fun x : executor * kind * task =>
          match x with (_, READ, t) => Some t | _ => None end) (submitted s ++ l) =
  reads_started s ++
  omap (fun x : executor * kind * task =>
          match x with (_, READ, t) => Some t | _ => None end) l.
Proof. apply omap_app. Qed.

Lemma reads_of_reads (ts : list task) :
  omap (fun x : executor * kind * task =>
          match x with (_, READ, t) => Some t | _ => None end)
       ((fun t => (base_executor, READ, t)) <$> ts) = ts.
Proof. induction ts as [|t ts IH]; [reflexivity|]. simpl. f_equal. exact IH. Qed.

Lemma start_next_writer_reads s :
  reads_started (start_next_writer s) = reads_started s /\
  pending_reads (start_next_writer s) = pending_reads s /\
  readers_running (start_next_writer s) = readers_running s.
Proof.
  unfold start_next_writer. destruct (pending_writes s); [repeat split|].
  unfold reads_started. simpl. rewrite omap_app. simpl. rewrite app_nil_r.
  repeat split.
Qed.

Lemma start_next_writer_writers s :
  pending_writes s <> [] ->
  writers_running (start_next_writer s) = 1 /\
  writers_pending (start_next_writer s) = writers_pending s - 1.
Proof.
  unfold start_next_writer. destruct (pending_writes s); [congruence|].
  intros _. split; reflexivity.
Qed.

(** Every step keeps the reasons for waiting, hands READ tasks over in the
    order of their enqueueing, and hands one over only when no WRITE task
    runs or waits. *)
Lemma step_waits s e s' :
  consistent s -> waits_for_cause s -> step s e = Some s' ->
  waits_for_cause s' /\
  reads_started s' ++ pending_reads s' =
    (reads_started s ++ pending_reads s) ++ reads_enqueued [e] /\
  (reads_started s' <> reads_started s ->
   writers_running s' = 0 /\ writers_pending s' = 0 /\ pending_writes s' = []).
Proof.
  intros [Hp Hw Hr H1 Ha] [Hrun Hrw] Hstep.
  destruct e as [t|t|t|t]; simpl in Hstep.
  - injection Hstep as <-. unfold enqueue_write. cbn [writers_running readers_running].
    destruct (Nat.eqb_spec (writers_running s) 0) as [Hw0|Hw0];
      [destruct (Nat.eqb_spec (readers_running s) 0) as [Hr0|Hr0]|]; cbn [andb].
    + match goal with
      | |- context [start_next_writer ?s1] =>
          destruct (start_next_writer_reads s1) as (E1 & E2 & E3);
          destruct (start_next_writer_writers s1) as (E4 & E5);
          [simpl; intros H; destruct (pending_writes s); discriminate H|]
      end.
      rewrite E1, E2. simpl in E2, E3, E4, E5. split; [|split].
      * split; rewrite ?E2, ?E3, ?E4; intros _; left; reflexivity.
      * simpl. rewrite app_nil_r. reflexivity.
      * intros Hne. exfalso. apply Hne. reflexivity.
    + split; [|split].
      * split; simpl; intros Hc; [right; lia|].
        destruct (Hrw Hc) as [?|?]; [left; assumption|right; lia].
      * simpl. rewrite app_nil_r. reflexivity.
      * intros Hne. exfalso. apply Hne. reflexivity.
    + split; [|split].
      * split; simpl; intros Hc; [left; lia|left; lia].
      * simpl. rewrite app_nil_r. reflexivity.
      * intros Hne. exfalso. apply Hne. reflexivity.
  - injection Hstep as <-. unfold enqueue_read.
    destruct (_ && _) eqn:Hcond.
    + apply andb_true_iff in Hcond as [Hw0 Hp0].
      apply Nat.eqb_eq in Hw0. apply Nat.eqb_eq in Hp0.
      assert (Hnone : pending_reads s = []).
      { destruct (pending_reads s) eqn:E; [reflexivity|].
        destruct Hrw as [?|?]; [discriminate| |]; lia. }
      split; [|split].
      * split; simpl; intros Hc; [right; lia|].
        rewrite Hnone in Hc. congruence.
      * unfold reads_started. simpl. rewrite omap_app. simpl.
        rewrite Hnone, !app_nil_r. reflexivity.
      * intros _. simpl. split; [exact Hw0|]. split; [exact Hp0|].
        destruct (pending_writes s); [reflexivity|]. simpl in Hp. lia.
    + apply andb_false_iff in Hcond.
      split; [|split].
      * split; simpl; intros Hc.
        -- destruct (Nat.eqb_spec (writers_running s) 0) as [Hw0|Hw0]; [|left; lia].
           destruct (Nat.eqb_spec (writers_pending s) 0) as [Hp0|Hp0];
             [destruct Hcond; discriminate|].
           apply Hrun. left. lia.
        -- destruct (Nat.eqb_spec (writers_running s) 0) as [Hw0|Hw0]; [|left; lia].
           destruct (Nat.eqb_spec (writers_pending s) 0) as [Hp0|Hp0];
             [destruct Hcond; discriminate|]. right. lia.
      * simpl. rewrite app_assoc. reflexivity.
      * intros Hne. exfalso. apply Hne. reflexivity.
  - unfold write_done in Hstep.
    destruct (finish WRITE t (running s)) as [r|] eqn:Hfin; [|discriminate].
    simpl in Hstep. apply finish_of_kind in Hfin as [Hlen Hother].
    unfold running_of in *.
    assert (Hw1 : writers_running s = 1) by lia.
    pose proof (Ha Hw1) as Hr0. rewrite app_nil_r.
    destruct (pending_writes s) as [|t0 rest] eqn:Hpend.
    + destruct (pending_reads s) as [|t1 reads] eqn:Hreads; injection Hstep as <-.
      * split; [|split].
        -- split; simpl; intros Hc; [destruct Hc as [?|?]; [simpl in *; lia|]|];
             rewrite ?Hreads in *; congruence.
        -- reflexivity.
        -- intros Hne. exfalso. apply Hne. reflexivity.
      * split; [|split].
        -- split; unfold drain_reads; cbn [pending_reads writers_pending
                                          writers_running readers_running];
             intros Hc; [right; rewrite ?Hreads; simpl; lia|congruence].
        -- unfold reads_started, drain_reads. cbn [submitted pending_reads].
           rewrite ?Hreads, omap_app, (reads_of_reads (t1 :: reads)).
           rewrite !app_nil_r. reflexivity.
        -- intros _. unfold drain_reads.
           cbn [writers_running writers_pending pending_writes].
           rewrite ?Hpend. simpl in Hp. split; [lia|]. split; [lia|reflexivity].
    + injection Hstep as <-.
      match goal with
      | |- context [start_next_writer ?s1] =>
          destruct (start_next_writer_reads s1) as (E1 & E2 & E3);
          destruct (start_next_writer_writers s1) as (E4 & E5);
          [simpl; rewrite ?Hpend; discriminate|]
      end.
      rewrite E1, E2. simpl in E2, E3, E4, E5. split; [|split].
      * split; rewrite ?E2, ?E3, ?E4; intros _; left; reflexivity.
      * reflexivity.
      * intros Hne. exfalso. apply Hne. reflexivity.
  - unfold read_done in Hstep.
    destruct (finish READ t (running s)) as [r|] eqn:Hfin; [|discriminate].
    simpl in Hstep. apply finish_of_kind in Hfin as [Hlen Hother].
    unfold running_of in *. rewrite app_nil_r.
    assert (Hr1 : 1 <= readers_running s) by lia.
    assert (Hw0 : writers_running s = 0).
    { destruct (Nat.eq_dec (writers_running s) 1) as [E|E]; [apply Ha in E|]; lia. }
    destruct (Nat.eqb_spec (readers_running s - 1) 0) as [Hr0|Hr0];
      injection Hstep as <-.
    + destruct (pending_writes s) as [|t0 rest] eqn:Hpend.
      * assert (Hnone : pending_reads s = []).
        { destruct (pending_reads s) eqn:E; [reflexivity|].
          destruct Hrw as [?|?]; [discriminate| |]; simpl in Hp; lia. }
        unfold start_next_writer. cbn [pending_writes]. rewrite ?Hpend.
        split; [|split].
        -- split; simpl; intros Hc; [destruct Hc as [?|?]; [simpl in *; lia|]|];
             rewrite ?Hnone in *; congruence.
        -- reflexivity.
        -- intros Hne. exfalso. apply Hne. reflexivity.
      * match goal with
        | |- context [start_next_writer ?s1] =>
            destruct (start_next_writer_reads s1) as (E1 & E2 & E3);
            destruct (start_next_writer_writers s1) as (E4 & E5);
            [simpl; rewrite ?Hpend; discriminate|]
        end.
        rewrite E1, E2. simpl in E2, E3, E4, E5. split; [|split].
        -- split; rewrite ?E2, ?E3, ?E4; intros _; left; reflexivity.
        -- reflexivity.
        -- intros Hne. exfalso. apply Hne. reflexivity.
    + split; [|split].
      * split; simpl; intros Hc; [right; lia|]. apply Hrw in Hc.
        destruct Hc; [lia|right; assumption].
      * reflexivity.
      * intros Hne. exfalso. apply Hne. reflexivity.
Qed.

Lemma waits_for_cause_init : waits_for_cause (@init task).
Proof. split; simpl; intros H; [destruct H as [H|H]; [lia|congruence]|congruence]. Qed.

Lemma run_waits es : forall s s',
  consistent s -> waits_for_cause s -> run s es = Some s' ->
  consistent s' /\ waits_for_cause s' /\
  reads_started s' ++ pending_reads s' =
    (reads_started s ++ pending_reads s) ++ reads_enqueued es.
Proof.
  induction es as [|e es IH]; intros s s' Hc Hw Hrun; simpl in Hrun.
  - injection Hrun as <-. split; [exact Hc|]. split; [exact Hw|].
    simpl. rewrite app_nil_r. reflexivity.
  - destruct (step s e) as [s1|] eqn:Hstep; [|discriminate]. simpl in Hrun.
    destruct (step_consistent s e s1 Hc Hstep) as [Hc1 _].
    destruct (step_waits s e s1 Hc Hw Hstep) as (Hw1 & Ho1 & _).
    destruct (IH s1 s' Hc1 Hw1 Hrun) as (Hc' & Hw' & Ho').
    split; [exact Hc'|]. split; [exact Hw'|].
    rewrite Ho', Ho1, <- !app_assoc. f_equal. f_equal.
    unfold reads_enqueued. destruct e; reflexivity.
Qed.

(** X22: the serializer loses no task and leaves none behind. After any
    sequence of enqueues and completions the READ tasks handed to the
    executor, followed by those waiting, are the READ tasks enqueued, in
    their order; and when no task of the serializer is running, none is
    waiting: every task enqueued has been handed to an executor. *)
Theorem rw_serializer_leaves_nothing_waiting (es : list event) s :
  run init es = Some s ->
  reads_started s ++ pending_reads s = reads_enqueued es /\
  (running s = [] ->
   pending_writes s = [] /\ pending_reads s = [] /\
   writes_started s = writes_enqueued es /\
   reads_started s = reads_enqueued es).
Proof.
  intros Hrun.
  destruct (run_waits es init s consistent_init waits_for_cause_init Hrun)
    as ([Hp Hw Hr H1 Ha] & [Hsome Hrw] & Hreads).
  destruct (run_consistent es init s consistent_init Hrun) as [_ Hwrites].
  simpl in Hreads, Hwrites. split; [exact Hreads|].
  intros Hidle. unfold running_of in *. rewrite Hidle in *. simpl in *.
  assert (Hnone : ~ (0 < writers_pending s \/ pending_reads s <> [])).
  { intros Hc. destruct (Hsome Hc); lia. }
  assert (Hpw : pending_writes s = []).
  { destruct (pending_writes s); [reflexivity|]. simpl in Hp.
    exfalso. apply Hnone. left. lia. }
  assert (Hpr : pending_reads s = []).
  { destruct (pending_reads s); [reflexivity|].
    exfalso. apply Hnone. right. discriminate. }
  rewrite Hpw, Hpr, !app_nil_r in *. repeat split; assumption.
Qed.

(** X23: WRITE tasks have priority. In any state the serializer reaches, a
    step hands a READ task to the executor only if afterwards no WRITE task
    runs and none waits; and a READ task enqueued while a WRITE task runs or
    waits is put at the end of the waiting list. *)
Theorem rw_serializer_writes_first (es : list event) s :
  run init es = Some s ->
  (forall e s', step s e = Some s' ->
     reads_started s' <> reads_started s ->
     writers_running s' = 0 /\ writers_pending s' = 0 /\ pending_writes s' = []) /\
  (forall t, running_of WRITE s <> [] \/ pending_writes s <> [] ->
     reads_started (enqueue_read t s) = reads_started s /\
     pending_reads (enqueue_read t s) = pending_reads s ++ [t]).
Proof.
  intros Hrun.
  destruct (run_waits es init s consistent_init waits_for_cause_init Hrun)
    as (Hc & Hw & _).
  split.
  - intros e s' Hstep. exact (proj2 (proj2 (step_waits s e s' Hc Hw Hstep))).
  - intros t Hbusy. destruct Hc as [Hp Hwr Hr H1 Ha]. unfold enqueue_read.
    destruct (_ && _) eqn:Hcond; [|split; reflexivity].
    apply andb_true_iff in Hcond as [Hw0 Hp0].
    apply Nat.eqb_eq in Hw0. apply Nat.eqb_eq in Hp0.
    exfalso. destruct Hbusy as [Hb|Hb]; apply Hb.
    + apply length_zero_nil. lia.
    + apply length_zero_nil. lia.
Qed.

End rw_serializer_extras.

(** ** The properties above at concrete inputs *)

Lemma reserve_front_consume_back_spec_witness :
  (0 < 1)%nat /\ 3 <= 8 < 65536 /\
  reserve_front 1 (make tt 8) 0 =
    Some (true, 65535, with_fast_range (make tt 8) 65535) /\
  consume_back 1 (make tt 8) 7 = Some (false, 7, make tt 8).
Proof.
  split; [lia|]. split; [lia|].
  destruct (reserve_front_consume_back_spec 1 (make tt 8) 0
              ltac:(lia) ltac:(change (3 <= 8 < 65536); lia)) as (Hf & _).
  destruct (reserve_front_consume_back_spec 1 (make tt 8) 7
              ltac:(lia) ltac:(change (3 <= 8 < 65536); lia)) as (_ & Hb & _).
  split; [exact Hf | exact Hb].
Defined.

Lemma reserve_then_consume_restores_witness :
  (0 < 1)%nat /\ 3 <= 8 < 65536 /\ 0 <= 0 < 4294967296 /\
  occupancy (make tt 8) <= 8 - 3 /\
  exists p d1,
    reserve_front 1 (make tt 8) 0 = Some (true, p, d1) /\
    consume_front 1 d1 0 = Some (true, p, make tt 8).
Proof.
  split; [lia|]. split; [lia|]. split; [lia|].
  split; [vm_compute; discriminate|].
  exact (proj2 (reserve_then_consume_restores 1 (make tt 8) 0
                  ltac:(lia) ltac:(change (3 <= 8 < 65536); lia)
                  ltac:(change (0 <= 0 < 4294967296); lia)
                  ltac:(vm_compute; discriminate))).
Defined.

Lemma make_ring_wf {T : Type} (default_elem : T) (size : Z) :
  0 <= size -> 0 < uint16 size -> ring_wf (make default_elem size).
Proof.
  intros Hnn Hpos. exact (proj1 (make_dequeue_wf default_elem size Hnn Hpos)).
Qed.

Lemma slot_spin_does_not_wait_witness :
  (2 <= 2)%nat /\ ring_wf (make 0 4) /\
  construct_in_fast 2 (make 0 4) 65535 7 =
    Some (with_buffer (make 0 4)
            (<[3%nat := {| state_ := 2; elem_ := 7 |}]> (circular_buffer_ (make 0 4)))).
Proof.
  split; [lia|].
  assert (Hwf : ring_wf (make 0 4)) by (apply make_ring_wf; [lia|vm_compute; reflexivity]).
  split; [exact Hwf|].
  destruct (slot_spin_does_not_wait (fun x => x) 2 (make 0 4) 65535 7 0 ltac:(lia) Hwf)
    as (item & _ & Hc & _).
  exact Hc.
Defined.

Lemma construct_then_extract_witness :
  (2 <= 2)%nat /\ ring_wf (make 0 4) /\
  exists d1 d2,
    construct_in_fast 2 (make 0 4) 5 7 = Some d1 /\
    extract_from_fast (fun x => x) 2 d1 5 0 = Some (7, d2).
Proof.
  split; [lia|].
  assert (Hwf : ring_wf (make 0 4)) by (apply make_ring_wf; [lia|vm_compute; reflexivity]).
  split; [exact Hwf|].
  destruct (construct_then_extract (fun x => x) 2 (make 0 4) 5 7 0 ltac:(lia) Hwf)
    as (d1 & d2 & H1 & H2 & _).
  exists d1, d2. split; [exact H1 | exact H2].
Defined.

Lemma unsafe_clear_empties_witness :
  (0 < 1)%nat /\
  try_pop_front (fun x => x) 1 (unsafe_clear (make_dequeue 0 4)) 9 =
    Some (false, 9, unsafe_clear (make_dequeue 0 4)).
Proof.
  split; [lia|].
  exact (proj1 (unsafe_clear_empties (fun x => x) 1 (make_dequeue 0 4) 9 ltac:(lia))).
Defined.

(** A ring of four slots that holds 1 and 2. *)
Lemma ring_of_four_holds_two :
  ring_holds
    {| size_ := 4;
       circular_buffer_ :=
         [{| state_ := 2; elem_ := 1 |}; {| state_ := 2; elem_ := 2 |};
          {| state_ := 0; elem_ := 0 |}; {| state_ := 0; elem_ := 0 |}];
       fast_range_ := 131072 |}
    [1; 2].
Proof.
  split.
  - split; simpl; lia.
  - simpl. lia.
  - simpl. exists 16384. reflexivity.
  - vm_compute. discriminate.
  - reflexivity.
  - intros [|[|i]] x Hx; simpl in Hx; try discriminate; injection Hx as <-; reflexivity.
Qed.

Lemma fast_path_is_a_deque_witness :
  (2 <= 2)%nat /\
  ring_holds (fast_deque_ (make_dequeue 0 4)) [] /\
  exists q', push_back 2 (make_dequeue 0 4) 7 = Some q' /\
             ring_holds (fast_deque_ q') [7].
Proof.
  split; [lia|].
  assert (Hl : ring_holds (fast_deque_ (make_dequeue 0 4)) []).
  { apply make_dequeue_holds; [lia|vm_compute; discriminate|].
    exists 16384. reflexivity. }
  split; [exact Hl|].
  destruct (fast_path_is_a_deque (fun x => x) 2 (make_dequeue 0 4) [] 7 0 ltac:(lia) Hl)
    as (Hpush & _).
  destruct (Hpush ltac:(vm_compute; discriminate)) as ((q' & H1 & H2 & _) & _).
  exists q'. split; [exact H1 | exact H2].
Defined.

Lemma full_ring_loses_order_witness :
  let q := {| fast_deque_ :=
                {| size_ := 4;
                   circular_buffer_ :=
                     [{| state_ := 2; elem_ := 1 |}; {| state_ := 2; elem_ := 2 |};
                      {| state_ := 0; elem_ := 0 |}; {| state_ := 0; elem_ := 0 |}];
                   fast_range_ := 131072 |};
              slow_access_elems_ := [];
              bottleneck_ := false;
              num_elements_slow_ := 0 |} in
  (2 <= 2)%nat /\ ring_holds (fast_deque_ q) [1; 2] /\ bottleneck_ q = false /\
  Z.of_nat (length [1; 2]) = size_ (fast_deque_ q) - 2 /\
  exists q1 q2,
    push_back 2 q 3 = Some q1 /\ slow_access_elems_ q1 = [3] /\
    try_pop_back (fun x => x) 2 q1 0 = Some (true, 2, q2).
Proof.
  intros q. split; [lia|]. split; [exact ring_of_four_holds_two|].
  split; [reflexivity|]. split; [reflexivity|].
  destruct (full_ring_loses_order (fun x => x) 2 q [1; 2] 3 0 ltac:(lia)
              ring_of_four_holds_two eq_refl eq_refl)
    as (q1 & y & l' & q2 & H1 & _ & H3 & H4 & H5 & _).
  exists q1, q2. split; [exact H1|]. split; [exact H3|].
  apply (app_inj_tail [1] l' 2 y) in H4 as [_ <-]. exact H5.
Defined.

Lemma zero_size_push_has_no_result_witness :
  uint16 65536 = 0 /\
  push_back 2 (make_dequeue 0 65536) 7 = None /\
  try_pop_front (fun x => x) 1 (make_dequeue 0 65536) 7
    = Some (false, 7, make_dequeue 0 65536).
Proof.
  split; [reflexivity|].
  destruct (zero_size_push_has_no_result (fun x => x) 0 2 65536 7 eq_refl)
    as (H1 & _).
  destruct (zero_size_push_has_no_result (fun x => x) 0 0 65536 7 eq_refl)
    as (_ & _ & _ & _ & _ & H6 & _).
  split; [exact H1 | exact H6].
Defined.

Lemma small_ring_reserves_beyond_its_slots_witness :
  let d := with_fast_range (make tt 2) 131072 in
  (0 < 1)%nat /\ 1 <= size_ d <= 2 /\ occupancy d <= 65534 /\
  occupancy d = 2 /\
  exists pb db, reserve_back 1 d 0 = Some (true, pb, db) /\ occupancy db = 3.
Proof.
  intros d. split; [lia|]. split; [vm_compute; split; discriminate|].
  split; [vm_compute; discriminate|]. split; [reflexivity|].
  destruct (small_ring_reserves_beyond_its_slots 1 d 0 ltac:(lia)
              ltac:(vm_compute; split; discriminate) ltac:(vm_compute; discriminate))
    as (pb & db & _ & _ & Hb & _ & Hob & _).
  exists pb, db. split; [exact Hb|]. rewrite Hob. reflexivity.
Defined.

Lemma reachable_calls_return_witness :
  0 <= 3 /\ 0 < uint16 3 /\ (2 <= 2)%nat /\
  exists q : @concurrent_dequeue Z,
    dequeue_reachable (fun x => x) 0 3 q /\
    exists o q', run_call (fun x => x) 0 2 q TryPopBack = Some (o, q').
Proof.
  split; [lia|]. split; [reflexivity|]. split; [lia|].
  destruct three_pushes_reachable as (q & _ & _ & Hreach).
  exists q. split; [exact Hreach|].
  destruct (reachable_calls_return (fun x => x) 0 3 2 q TryPopBack
              ltac:(lia) eq_refl ltac:(lia) Hreach) as (o & q' & Hrun & _).
  exists o, q'. exact Hrun.
Defined.

Lemma dequeue_keeps_elements_witness :
  0 <= 4 /\ 3 <= uint16 4 /\ (uint16 4 | 65536) /\ (2 <= 2)%nat /\
  (UnsafeClear ∉ [PushFront 1; PushBack 2; TryPopFront]) /\
  exists os q,
    run_calls (fun x => x) 0 2 (make_dequeue 0 4) [PushFront 1; PushBack 2; TryPopFront]
      = Some (os, q) /\
    pushed_elems os ≡ₚ popped_elems os ++ resident q.
Proof.
  assert (Hdiv : (uint16 4 | 65536)) by (exists 16384; reflexivity).
  assert (Hclear : @UnsafeClear Z ∉ [PushFront 1; PushBack 2; TryPopFront]).
  { intros H. repeat (apply elem_of_cons in H as [H|H]; [discriminate H|]).
    apply elem_of_nil in H. exact H. }
  split; [lia|]. split; [vm_compute; discriminate|]. split; [exact Hdiv|].
  split; [lia|]. split; [exact Hclear|].
  exact (dequeue_keeps_elements (fun x => x) 0 4 2 _
           ltac:(lia) ltac:(vm_compute; discriminate) Hdiv Hclear ltac:(lia)).
Defined.

Lemma wrapped_ring_aliases_witness :
  let q := {| fast_deque_ :=
                {| size_ := 5;
                   circular_buffer_ :=
                     [{| state_ := 2; elem_ := 1 |}; {| state_ := 0; elem_ := 0 |};
                      {| state_ := 0; elem_ := 0 |}; {| state_ := 0; elem_ := 0 |};
                      {| state_ := 0; elem_ := 0 |}];
                   fast_range_ := 65535 |};
              slow_access_elems_ := [];
              bottleneck_ := false;
              num_elements_slow_ := 0 |} in
  (2 <= 2)%nat /\ dequeue_wf q /\
  push_front 2 (make_dequeue 0 5) 1 = Some q /\
  exists q1 q2,
    push_back 2 q 2 = Some q1 /\
    try_pop_front (fun x => x) 2 q1 0 = Some (true, 2, q2).
Proof.
  intros q. split; [lia|].
  assert (Hwf : dequeue_wf q) by (split; [split; simpl; lia|reflexivity]).
  split; [exact Hwf|]. split; [vm_compute; reflexivity|].
  destruct (wrapped_ring_aliases (fun x => x) 2 q 2 0 ltac:(lia) Hwf
              ltac:(simpl; lia) ltac:(vm_compute; split; discriminate)
              eq_refl eq_refl)
    as (_ & _ & q1 & q2 & H1 & _ & _ & H2).
  exists q1, q2. split; [exact H1 | exact H2].
Defined.

Lemma spawn_list_is_iterated_spawn_witness :
  let w := {| Spawn.group_parents := []; Spawn.current_task_group := None;
              Spawn.tsys_calls := [] |} in
  Z.of_nat (length [10; 20]) < 2147483648 /\
  Spawn.spawn_list [10; 20] false w = Spawn.spawn 20 true (Spawn.spawn 10 true w).
Proof.
  intros w. split; [simpl; lia|].
  exact (spawn_list_is_iterated_spawn [10; 20] false w ltac:(simpl; lia)).
Defined.

Lemma spawn_and_wait_list_brackets_witness :
  let w := {| Spawn.group_parents := []; Spawn.current_task_group := None;
              Spawn.tsys_calls := [] |} in
  Z.of_nat (length [10; 20]) < 2147483648 /\
  Spawn.tsys_calls (Spawn.spawn_and_wait_list [10; 20] true w) =
    [Spawn.EnterWorker;
     Spawn.Spawn {| Spawn.task_fn := 10; Spawn.task_grp := Some 0%nat |} true;
     Spawn.Spawn {| Spawn.task_fn := 20; Spawn.task_grp := Some 0%nat |} true;
     Spawn.BusyWaitOn (Some 0%nat); Spawn.ExitWorker].
Proof.
  intros w. split; [simpl; lia|].
  rewrite (spawn_and_wait_list_brackets [10; 20] true w ltac:(simpl; lia)).
  reflexivity.
Defined.

Lemma cpp_version_detected_witness :
  let cc := {| Platform.__APPLE__ := None; Platform.__linux__ := Some 1;
               Platform.__FreeBSD__ := None; Platform.__NetBSD__ := None;
               Platform.__OpenBSD__ := None; Platform._MSC_VER := None;
               Platform.__MINGW64__ := None; Platform.__MINGW32__ := None;
               Platform.__cplusplus := 199711 |} in
  exists c',
    Platform.platform_hpp cc Platform.nothing_given = Some c' /\
    Platform.CONCORE_CPP_VERSION c' = Some 20.
Proof.
  intros cc. eexists. split; [reflexivity|].
  destruct (cpp_version_detected cc Platform.nothing_given _ eq_refl)
    as (v & Hv & _ & _ & _ & _ & Hold).
  rewrite Hv. f_equal. apply Hold. left. simpl. lia.
Defined.

Lemma generate_test_data_spec_witness :
  let rand_value := fun n : nat => 7919 * Z.of_nat n + 5 in
  (forall n, 0 <= rand_value n) /\ 0 <= 2 <= 3 /\ 3 < 2147483648 /\ -1 < 0 /\
  PerfData.generate_test_data rand_value (-1) = None /\
  PerfData.generate_test_data rand_value 3 = Some [-95; 24; -57] /\
  PerfData.generate_test_data rand_value 2 = Some [-95; 24] /\
  -300 <= PerfData.accumulate [-95; 24; -57] <= 297.
Proof.
  intros rand_value.
  assert (Hnn : forall n, 0 <= rand_value n) by (intros n; unfold rand_value; lia).
  split; [exact Hnn|]. split; [lia|]. split; [lia|]. split; [lia|].
  destruct (generate_test_data_spec rand_value Hnn 3 2 (-1)
              ltac:(lia) ltac:(lia) ltac:(lia))
    as (Hneg & data & data' & Hd & Hd' & _ & _ & _ & _ & Hsum).
  split; [exact Hneg|].
  assert (Hdata : data = [-95; 24; -57]).
  { assert (He : PerfData.generate_test_data rand_value 3 = Some [-95; 24; -57])
      by reflexivity.
    rewrite Hd in He. injection He as He. exact He. }
  split; [rewrite Hd, Hdata; reflexivity|].
  split; [reflexivity|].
  rewrite Hdata in Hsum. exact Hsum.
Defined.

Lemma rand_string_spec_witness :
  let rand_value := fun n : nat => 7919 * Z.of_nat n + 103 in
  (forall n, 0 <= rand_value n) /\
  (PerfData.rand_string rand_value 0).1 = ["w"; "q"; "k"]%char /\
  (PerfData.rand_string rand_value 0).2 = 4%nat.
Proof.
  intros rand_value.
  assert (Hnn : forall n, 0 <= rand_value n) by (intros n; unfold rand_value; lia).
  split; [exact Hnn|]. split; [reflexivity|].
  destruct (rand_string_spec rand_value Hnn 0) as (_ & _ & _ & Hcalls).
  rewrite Hcalls. reflexivity.
Defined.

Lemma rw_serializer_leaves_nothing_waiting_witness :
  let es := [RWSerializer.EnqueueWrite 1; RWSerializer.EnqueueRead 2;
             RWSerializer.EnqueueRead 3; RWSerializer.WriteDone 1;
             RWSerializer.ReadDone 3; RWSerializer.ReadDone 2]%nat in
  exists s, RWSerializer.run RWSerializer.init es = Some s /\
    RWSerializer.running s = [] /\
    RWSerializer.pending_reads s = [] /\
    RWReads.reads_started s = [2; 3]%nat.
Proof.
  intros es. eexists.
  match goal with |- ?H /\ _ => assert (Hrun : H) by reflexivity end.
  split; [exact Hrun|].
  destruct (rw_serializer_leaves_nothing_waiting _ _ Hrun) as (_ & Hidle).
  destruct (Hidle eq_refl) as (_ & Hpr & _ & Hrs).
  split; [reflexivity|]. split; [exact Hpr | exact Hrs].
Defined.

Lemma rw_serializer_writes_first_witness :
  let es := [RWSerializer.EnqueueRead 0; RWSerializer.EnqueueWrite 1]%nat in
  exists s, RWSerializer.run RWSerializer.init es = Some s /\
    RWSerializer.pending_writes s = [1%nat] /\
    RWSerializer.pending_reads (RWSerializer.enqueue_read 2%nat s) = [2%nat].
Proof.
  intros es. eexists.
  match goal with |- ?H /\ _ => assert (Hrun : H) by reflexivity end.
  split; [exact Hrun|].
  destruct (rw_serializer_writes_first _ _ Hrun) as (_ & Hlate).
  split; [reflexivity|].
  destruct (Hlate 2%nat ltac:(right; discriminate)) as (_ & Hp).
  rewrite Hp. reflexivity.
Defined.
